(** * Secure Votes backend: Paillier cryptosystem, audit hash chain,
      vote recording, homomorphic aggregation, accounts and audits.

    Shallow embedding of
    - [backend/app/crypto/paillier.py] (prime search, key generation,
      [encrypt], [decrypt], [add], [add_plain]),
    - [backend/app/db.py] ([init_db], [record_vote],
      [fetch_votes_by_question], [verify_hash_chain], [fetch_audit_logs],
      [record_photo_metadata], [create_question], [get_vote_stats] and the
      functions on the users table),
    - [backend/app/auth.py] ([hash_password], [verify_password]),
    - [backend/app/storage.py] ([put_object], [get_object_bytes]),
    - [backend/app/main.py] ([send_vote], [aggregate_votes], [upload_photo],
      [get_public_key], [encrypt_vote], [login], [register], [require_role]
      and the administrator endpoints),
    - [backend/audit/check_hash_chain.py],
      [backend/audit/check_votes_encrypted.py] and
      [backend/audit/check_photos_encrypted.py].

    Python integers are unbounded, so they are [Z]; [//] and [%] are floor
    division and its remainder, which is what [Z.div] and [Z.modulo] compute
    for a non-zero divisor.  Exceptions are explicit results.  The tables
    are explicit state, and what PostgreSQL refuses of a statement (a text
    value with a NUL character, a value too long for its column, a
    duplicate in a unique column) is part of the model, with the rollback
    of the transaction it ends. *)

From Stdlib Require Import ZArith Lia List String Bool Znumtheory Zcong Sorted.
From Stdlib Require Import Zmod.ZmodInv DecimalString DecimalZ DecimalPos.
From Stdlib Require DecimalFacts.
Import ListNotations.
Local Open Scope string_scope.
Local Open Scope list_scope.
Local Open Scope Z_scope.

(** ** Python exceptions and results *)

Inductive exn : Type :=
| ValueError (msg : string)
| ZeroDivisionError
| HTTPException (status_code : Z) (detail : string).

(** A call returns, raises, or is still inside a sampling loop when the
    finite prefix of random draws it was given is used up. *)
Inductive result (A : Type) : Type :=
| Ok (a : A)
| Raise (e : exn)
| OutOfDraws.

Arguments Ok {A} a.
Arguments Raise {A} e.
Arguments OutOfDraws {A}.

Definition bind {A B : Type} (x : result A) (f : A -> result B) : result B :=
  match x with
  | Ok a => f a
  | Raise e => Raise e
  | OutOfDraws => OutOfDraws
  end.

Notation "x <- c ;; k" := (bind c (fun x => k))
  (at level 61, c at next level, right associativity).

(** The functions that talk to the database fail in more ways:
    sqlalchemy's [IntegrityError] for a violated unique constraint, its
    [DBAPIError] for a value that PostgreSQL or the driver refuses, and
    [TypeError]. *)
Inductive outcome (A : Type) : Type :=
| Returned (a : A)
| Raised (e : exn)
| IntegrityError (column : string)
| DBAPIError
| TypeError (message : string)
| NoMoreDraws.

Arguments Returned {A} a.
Arguments Raised {A} e.
Arguments IntegrityError {A} column.
Arguments DBAPIError {A}.
Arguments TypeError {A} message.
Arguments NoMoreDraws {A}.

(** The same outcome, with [f] applied to what was returned. *)
Definition outcome_map {A B : Type} (f : A -> B) (x : outcome A) : outcome B :=
  match x with
  | Returned a => Returned (f a)
  | Raised e => Raised e
  | IntegrityError column => IntegrityError column
  | DBAPIError => DBAPIError
  | TypeError message => TypeError message
  | NoMoreDraws => NoMoreDraws
  end.

(** A result of the cryptosystem, as an outcome. *)
Definition of_result {A : Type} (x : result A) : outcome A :=
  match x with
  | Ok a => Returned a
  | Raise e => Raised e
  | OutOfDraws => NoMoreDraws
  end.

(** ** Python integer operations used by the code *)

(** [a // b] *)
Definition py_floordiv (a b : Z) : result Z :=
  if b =? 0 then Raise ZeroDivisionError else Ok (a / b).

(** [a % b] *)
Definition py_mod (a b : Z) : result Z :=
  if b =? 0 then Raise ZeroDivisionError else Ok (a mod b).

(** [pow(b, e, m)]: a zero modulus is refused; a negative exponent needs
    the base to be invertible modulo [m]. *)
Definition py_pow (b e m : Z) : result Z :=
  if m =? 0 then Raise (ValueError "pow() 3rd argument cannot be 0")
  else if 0 <=? e then Ok (b ^ e mod m)
  else if Z.gcd b m =? 1 then Ok (Z.invmod b (Z.abs m) ^ (- e) mod m)
  else Raise (ValueError "base is not invertible for the given modulus").

(** [str(z)] and [int(s)] on the plain decimal spelling (an optional minus
    sign and ASCII digits), which is what [str] prints and what the clients
    store; everything else is read as a [ValueError]. *)
Definition py_str (z : Z) : string := NilZero.string_of_int (Z.to_int z).

Definition py_int (s : string) : result Z :=
  match NilZero.int_of_string s with
  | Some d => Ok (Z.of_int d)
  | None => Raise (ValueError "invalid literal for int() with base 10")
  end.

(** ** Python strings and PostgreSQL columns

    A Python [str] is held as the bytes of its UTF-8 encoding, which is
    what [hash_identifier] hashes; its characters are counted by skipping
    the continuation bytes [10xxxxxx]. *)

Definition is_continuation_byte (c : Ascii.ascii) : bool :=
  Nat.leb 128 (Ascii.nat_of_ascii c) && Nat.ltb (Ascii.nat_of_ascii c) 192.

(** [len(s)] *)
Fixpoint py_len (s : string) : nat :=
  match s with
  | EmptyString => O
  | String c s' =>
      if is_continuation_byte c then py_len s' else S (py_len s')
  end.

(** [s.isascii()] *)
Definition isascii (s : string) : bool :=
  forallb (fun c => Nat.ltb (Ascii.nat_of_ascii c) 128)
          (list_ascii_of_string s).

(** The first [n] characters of [s] and what follows them. *)
Fixpoint split_chars (n : nat) (s : string) : string * string :=
  match s with
  | EmptyString => (EmptyString, EmptyString)
  | String c s' =>
      if is_continuation_byte c
      then let (kept, excess) := split_chars n s' in (String c kept, excess)
      else match n with
           | O => (EmptyString, s)
           | S n' =>
               let (kept, excess) := split_chars n' s' in
               (String c kept, excess)
           end
  end.

Definition has_nul (s : string) : bool :=
  existsb (fun c => Nat.eqb (Ascii.nat_of_ascii c) 0) (list_ascii_of_string s).

Definition only_spaces (s : string) : bool :=
  forallb (fun c => Nat.eqb (Ascii.nat_of_ascii c) 32)
          (list_ascii_of_string s).

(** What a [String(width)] column stores for a value assigned to it:
    PostgreSQL has no text with a NUL character, and refuses a value longer
    than the column unless the excess is made of spaces, which it cuts
    off. *)
Definition varchar (width : nat) (value : string) : option string :=
  if has_nul value then None
  else
    let (kept, excess) := split_chars width value in
    if only_spaces excess then Some kept else None.

(** What a [String] column without a width, or a text parameter of a
    query, takes: anything without a NUL character. *)
Definition text (value : string) : option string :=
  if has_nul value then None else Some value.

(** An [Integer] column or parameter is a signed 32-bit value. *)
Definition integer (value : Z) : option Z :=
  if (- 2 ^ 31 <=? value) && (value <? 2 ^ 31) then Some value else None.

(** A column that an [UPDATE] may leave alone. *)
Definition optional_varchar (width : nat) (value : option string)
    : option (option string) :=
  match value with
  | None => Some None
  | Some v => option_map Some (varchar width v)
  end.

(** ** paillier.py *)

Module PublicKey.
Record t : Type := mk { n : Z; g : Z }.
Definition n_sq (k : t) : Z := n k * n k.
End PublicKey.

Module PrivateKey.
Record t : Type := mk { lam : Z; mu : Z; n : Z }.
Definition n_sq (k : t) : Z := n k * n k.
End PrivateKey.

Definition _lcm (a b : Z) : result Z :=
  py_floordiv (Z.abs (a * b)) (Z.gcd a b).

(** [generate_keypair]: [p] and [q] are the values returned by the two calls
    [_generate_prime(bits // 2)] (a Miller-Rabin search over random
    candidates); everything after these two calls is deterministic and is
    what follows.  The function makes no comparison of [p] with [q]. *)
Definition generate_keypair (p q : Z) : result (PublicKey.t * PrivateKey.t) :=
  let n := p * q in
  lam <- _lcm (p - 1) (q - 1);;
  let g := n + 1 in
  let n_sq := n * n in
  x <- py_pow g lam n_sq;;
  l_val <- py_floordiv (x - 1) n;;
  mu <- py_pow l_val (-1) n;;
  Ok (PublicKey.mk n g, PrivateKey.mk lam mu n).

(** The loop of [encrypt] that runs when no [r] is passed: [tape] lists the
    successive values of [secrets.randbelow(pub.n)]; the first one that
    passes the test is kept and the rest of the tape is left for later
    calls. *)
Fixpoint sample_r (n : Z) (tape : list Z) : result Z * list Z :=
  match tape with
  | [] => (OutOfDraws, [])
  | r_candidate :: tape' =>
      if (1 <=? r_candidate) && (r_candidate <? n)
         && (Z.gcd r_candidate n =? 1)
      then (Ok r_candidate, tape')
      else sample_r n tape'
  end.

Definition encrypt (pub : PublicKey.t) (m : Z) (r : option Z)
    (tape : list Z) : result Z * list Z :=
  if negb ((0 <=? m) && (m <? PublicKey.n pub))
  then (Raise (ValueError "message out of range"), tape)
  else
    let (r', tape') :=
      match r with
      | Some r0 => (Ok r0, tape)
      | None => sample_r (PublicKey.n pub) tape
      end in
    (r0 <- r';;
     c1 <- py_pow (PublicKey.g pub) m (PublicKey.n_sq pub);;
     c2 <- py_pow r0 (PublicKey.n pub) (PublicKey.n_sq pub);;
     py_mod (c1 * c2) (PublicKey.n_sq pub),
     tape').

Definition decrypt (priv : PrivateKey.t) (c : Z) : result Z :=
  x <- py_pow c (PrivateKey.lam priv) (PrivateKey.n_sq priv);;
  l_val <- py_floordiv (x - 1) (PrivateKey.n priv);;
  py_mod (l_val * PrivateKey.mu priv) (PrivateKey.n priv).

Definition add (pub : PublicKey.t) (c1 c2 : Z) : result Z :=
  py_mod (c1 * c2) (PublicKey.n_sq pub).

Definition add_plain (pub : PublicKey.t) (c m : Z) : result Z :=
  gm <- py_pow (PublicKey.g pub) m (PublicKey.n_sq pub);;
  py_mod (c * gm) (PublicKey.n_sq pub).

(** ** db.py: tables

    Only the columns that the modelled functions read or write are kept;
    [created_at] (the server clock) is left out everywhere. *)

Module Question.
Record t : Type := mk { question_id : string; is_active : bool }.
End Question.

Module Participant.
Record t : Type := mk { participant_hash : string; agent_hash : string }.
End Participant.

Module Vote.
Record t : Type := mk {
  id : Z;
  question_id : string;
  participant_hash : string;
  ciphertext : string;
  key_id : string }.
End Vote.

Module AuditLog.
Record t : Type := mk {
  id : Z;
  event_type : string;
  payload_hash : string;
  prev_hash : option string }.
End AuditLog.

(** The database behind the engine.  The two [_seq] fields are the last
    values handed out by the serial primary keys of [votes.votes] and
    [audit.logs].  A state reached from an empty database holds only ids
    that these sequences produced, so the primary-key check cannot fire and
    is not modelled. *)
Record Database : Type := mkDatabase {
  questions : list Question.t;
  participants : list Participant.t;
  votes : list Vote.t;
  logs : list AuditLog.t;
  votes_id_seq : Z;
  logs_id_seq : Z }.

(** [async with engine.begin() as conn]: the block's writes are committed
    when it ends normally and rolled back when it raises (sequences are
    never rolled back). *)
Definition engine_begin {A : Type} (db : Database)
    (block : Database -> outcome A * Database) : outcome A * Database :=
  match block db with
  | (Returned a, db') => (Returned a, db')
  | (failure, db') =>
      (failure,
       mkDatabase (questions db) (participants db) (votes db) (logs db)
                  (votes_id_seq db') (logs_id_seq db'))
  end.

(** [insert(identities_table) ... on_conflict_do_nothing(participant_hash)].
    Both values are SHA-256 digests in hexadecimal, 64 characters that the
    [String(128)] columns store as they are. *)
Definition insert_identity (participant_hash agent_hash : string)
    (conn : Database) : Database :=
  if existsb (fun row => Participant.participant_hash row =? participant_hash)%string
             (participants conn)
  then conn
  else mkDatabase (questions conn)
         (participants conn ++ [Participant.mk participant_hash agent_hash])
         (votes conn) (logs conn) (votes_id_seq conn) (logs_id_seq conn).

(** [votes_table.insert().values(...).returning(...)]: [question_id] and
    [key_id] are [String(64)] columns and [ciphertext] is a [String] column
    without a width; [None] when PostgreSQL refuses one of the values, else
    the row as it is stored and returned. *)
Definition insert_vote (question_id participant_hash ciphertext key_id : string)
    (conn : Database) : option (Vote.t * Database) :=
  match varchar 64 question_id, text ciphertext, varchar 64 key_id with
  | Some question_id', Some ciphertext', Some key_id' =>
      let row := Vote.mk (votes_id_seq conn + 1) question_id' participant_hash
                         ciphertext' key_id' in
      Some (row,
            mkDatabase (questions conn) (participants conn)
                       (votes conn ++ [row]) (logs conn)
                       (votes_id_seq conn + 1) (logs_id_seq conn))
  | _, _, _ => None
  end.

(** [audit_logs_table.insert().values(...)] *)
Definition insert_audit (event_type payload_hash : string)
    (prev_hash : option string) (conn : Database) : Database :=
  let row := AuditLog.mk (logs_id_seq conn + 1) event_type payload_hash
                         prev_hash in
  mkDatabase (questions conn) (participants conn) (votes conn)
             (logs conn ++ [row]) (votes_id_seq conn) (logs_id_seq conn + 1).

(** [ORDER BY id]: insertion sort on the primary key. *)
Fixpoint insert_by_id (row : AuditLog.t) (rows : list AuditLog.t)
    : list AuditLog.t :=
  match rows with
  | [] => [row]
  | row' :: rest =>
      if AuditLog.id row <=? AuditLog.id row'
      then row :: row' :: rest
      else row' :: insert_by_id row rest
  end.

Definition order_by_id_asc (rows : list AuditLog.t) : list AuditLog.t :=
  fold_right insert_by_id [] rows.

(** [select(payload_hash).order_by(id.desc()).limit(1)] followed by
    [.first()]: the payload hash of the row with the greatest id. *)
Definition select_last_payload_hash (conn : Database) : option string :=
  match rev (order_by_id_asc (logs conn)) with
  | [] => None
  | row :: _ => Some (AuditLog.payload_hash row)
  end.

(** The dictionary returned by [record_vote]. *)
Module VoteMeta.
Record t : Type := mk {
  vote_id : Z;
  question_id : string;
  participant_hash : string;
  key_id : string }.
End VoteMeta.

(** The dictionary returned by [verify_hash_chain]. *)
Module ChainReport.
Record t : Type := mk { ok : bool; length : Z; broken_id : option Z }.
End ChainReport.

Definition option_string_eqb (a b : option string) : bool :=
  match a, b with
  | Some x, Some y => (x =? y)%string
  | None, None => true
  | _, _ => false
  end.

(** The [for row in rows] loop of [verify_hash_chain]; [Some id] is the
    early [return] with [broken_id = id], [None] is falling out of the
    loop. *)
Fixpoint chain_loop (prev_payload : option string) (rows : list AuditLog.t)
    : option Z :=
  match rows with
  | [] => None
  | row :: rest =>
      match prev_payload with
      | None => chain_loop (Some (AuditLog.payload_hash row)) rest
      | Some _ =>
          if negb (option_string_eqb (AuditLog.prev_hash row) prev_payload)
          then Some (AuditLog.id row)
          else chain_loop (Some (AuditLog.payload_hash row)) rest
      end
  end.

Definition verify_hash_chain (db : Database) : ChainReport.t :=
  let rows := order_by_id_asc (logs db) in
  match chain_loop None rows with
  | Some broken =>
      ChainReport.mk false (Z.of_nat (List.length rows)) (Some broken)
  | None => ChainReport.mk true (Z.of_nat (List.length rows)) None
  end.

(** [fetch_votes_by_question]: the two identifiers are text parameters of
    the query, which PostgreSQL refuses when they hold a NUL character. *)
Definition fetch_votes_by_question (db : Database)
    (question_id key_id : string) : outcome (list string) :=
  match text question_id, text key_id with
  | Some question_id, Some key_id =>
      Returned
        (map Vote.ciphertext
           (filter (fun row => ((Vote.question_id row =? question_id)
                                && (Vote.key_id row =? key_id))%string)
                   (votes db)))
  | _, _ => DBAPIError
  end.

(** Request and answer bodies of [POST /votes/send] in main.py. *)
Module VoteRequest.
Record t : Type := mk {
  question_id : string;
  participant_id : string;
  agent_id : string;
  ciphertext : string;
  key_id : string }.
End VoteRequest.

Module VoteStored.
Record t : Type := mk {
  status : string;
  vote_id : Z;
  question_id : string;
  key_id : string }.
End VoteStored.

Section Hashing.

(** [hashlib.sha256(value.encode("utf-8")).hexdigest()] is a library
    function; the development is parametric in it. *)
Variable sha256_hexdigest : string -> string.

Definition hash_identifier (value : string) : string :=
  sha256_hexdigest value.

(** [record_vote].  The question is looked up with [question_id] as a
    text parameter; the identity, the vote and the audit entry are then
    inserted in that order, so that a vote PostgreSQL refuses ends a block
    that has already written the identity. *)
Definition record_vote (db : Database)
    (question_id participant_id agent_id ciphertext key_id : string)
    : outcome VoteMeta.t * Database :=
  let participant_hash := hash_identifier participant_id in
  let agent_hash := hash_identifier agent_id in
  let payload_hash :=
    hash_identifier (question_id ++ ":" ++ ciphertext ++ ":" ++ key_id)%string
  in
  engine_begin db (fun conn =>
    match text question_id with
    | None => (DBAPIError, conn)
    | Some question_id' =>
        let q_check :=
          filter (fun q => (Question.question_id q =? question_id')%string
                           && Bool.eqb (Question.is_active q) true)
                 (questions conn) in
        match q_check with
        | [] => (Raised (ValueError "Question invalide ou inactive"), conn)
        | _ :: _ =>
            let conn := insert_identity participant_hash agent_hash conn in
            match insert_vote question_id participant_hash ciphertext key_id
                              conn with
            | None => (DBAPIError, conn)
            | Some (vote_row, conn) =>
                let prev_hash := select_last_payload_hash conn in
                let conn :=
                  insert_audit "vote_received" payload_hash prev_hash conn in
                (Returned
                   (VoteMeta.mk (Vote.id vote_row) (Vote.question_id vote_row)
                                (Vote.participant_hash vote_row) key_id),
                 conn)
            end
        end
    end).

(** ** main.py *)

(** [POST /votes/send]: only the [ValueError] of [record_vote] is caught. *)
Definition send_vote (db : Database) (payload : VoteRequest.t)
    : outcome VoteStored.t * Database :=
  match record_vote db (VoteRequest.question_id payload)
          (VoteRequest.participant_id payload) (VoteRequest.agent_id payload)
          (VoteRequest.ciphertext payload) (VoteRequest.key_id payload) with
  | (Raised (ValueError e), db') => (Raised (HTTPException 400 e), db')
  | (vote_meta, db') =>
      (outcome_map
         (fun vote_meta =>
            VoteStored.mk "stored" (VoteMeta.vote_id vote_meta)
              (VoteMeta.question_id vote_meta) (VoteMeta.key_id vote_meta))
         vote_meta,
       db')
  end.

End Hashing.

(** Calls made to the cryptosystem, in program order. *)
Inductive crypto_call : Type :=
| CallEncrypt (m : Z)
| CallAdd (c1 c2 : Z)
| CallDecrypt (c : Z).

(** What a request handler can touch besides the database: the random
    source and the log of cryptosystem calls. *)
Record World : Type := mkWorld { tape : list Z; calls : list crypto_call }.

Definition M (A : Type) : Type := World -> outcome A * World.

Definition retM {A : Type} (a : A) : M A := fun w => (Returned a, w).

Definition bindM {A B : Type} (x : M A) (f : A -> M B) : M B :=
  fun w =>
    match x w with
    | (Returned a, w') => f a w'
    | (Raised e, w') => (Raised e, w')
    | (IntegrityError column, w') => (IntegrityError column, w')
    | (DBAPIError, w') => (DBAPIError, w')
    | (TypeError message, w') => (TypeError message, w')
    | (NoMoreDraws, w') => (NoMoreDraws, w')
    end.

Notation "x <~ c ;; k" := (bindM c (fun x => k))
  (at level 61, c at next level, right associativity).

Definition lift {A : Type} (x : result A) : M A :=
  fun w => (of_result x, w).

(** A query: it leaves the random source and the call log alone. *)
Definition query {A : Type} (x : outcome A) : M A := fun w => (x, w).

Definition log_call (c : crypto_call) : M unit :=
  fun w => (Returned tt, mkWorld (tape w) (calls w ++ [c])).

Definition call_encrypt (pub : PublicKey.t) (m : Z) (r : option Z) : M Z :=
  _ <~ log_call (CallEncrypt m);;
  fun w => let (c, tape') := encrypt pub m r (tape w) in
           (of_result c, mkWorld tape' (calls w)).

Definition call_add (pub : PublicKey.t) (c1 c2 : Z) : M Z :=
  _ <~ log_call (CallAdd c1 c2);; lift (add pub c1 c2).

Definition call_decrypt (priv : PrivateKey.t) (c : Z) : M Z :=
  _ <~ log_call (CallDecrypt c);; lift (decrypt priv c).

(** The dictionary returned by [aggregate_votes]. *)
Module AggregateResult.
Record t : Type := mk {
  question_id : string;
  key_id : string;
  count : Z;
  aggregate_ciphertext : option string;
  total : Z }.
End AggregateResult.

(** The [for row in rows] loop of [aggregate_votes]. *)
Fixpoint fold_rows (pub : PublicKey.t) (agg : Z) (rows : list string) : M Z :=
  match rows with
  | [] => retM agg
  | row :: rest =>
      c_int <~ lift (py_int row);;
      agg' <~ call_add pub agg c_int;;
      fold_rows pub agg' rest
  end.

(** [aggregate_votes]: [keypair] is what [get_demo_keypair()] returns. *)
Definition aggregate_votes (keypair : PublicKey.t * PrivateKey.t)
    (db : Database) (question_id key_id : string) : M AggregateResult.t :=
  let (pub, priv) := keypair in
  rows <~ query (fetch_votes_by_question db question_id key_id);;
  match rows with
  | [] => retM (AggregateResult.mk question_id key_id 0 None 0)
  | _ :: _ =>
      agg0 <~ call_encrypt pub 0 None;;
      agg <~ fold_rows pub agg0 rows;;
      total_plain <~ call_decrypt priv agg;;
      retM (AggregateResult.mk question_id key_id
              (Z.of_nat (List.length rows)) (Some (py_str agg)) total_plain)
  end.

(** The dictionaries returned by [get_public_key] and [encrypt_vote]. *)
Module PublicKeyResponse.
Record t : Type := mk { key_id : string; n : string; g : string }.
End PublicKeyResponse.

Module EncryptResponse.
Record t : Type := mk { key_id : string; plaintext : Z; ciphertext : string }.
End EncryptResponse.




(** * Vocabulary of the statements *)

(** [c] is a ciphertext of the plaintext [m] for the modulus [n]: modulo
    [n^2] it is [(1 + m n) r^n] for some [r] coprime to [n]. *)
Definition encrypts (n m c : Z) : Prop :=
  exists r, Z.gcd r n = 1 /\ (n * n | c - (1 + m * n) * r ^ n).

(** What [generate_keypair] returns when it is given the primes [p] and
    [q]. *)
Definition keys_of (p q : Z) (pub : PublicKey.t) (priv : PrivateKey.t)
    : Prop :=
  PublicKey.n pub = p * q /\
  PublicKey.g pub = p * q + 1 /\
  PrivateKey.n priv = p * q /\
  PrivateKey.lam priv = Z.lcm (p - 1) (q - 1) /\
  0 <= PrivateKey.mu priv < p * q /\
  (PrivateKey.mu priv * PrivateKey.lam priv) mod (p * q) = 1.

(** Randomness that [encrypt] accepts for the modulus [n]. *)
Definition admissible (n r : Z) : Prop := 1 <= r < n /\ Z.gcd r n = 1.

(** The value [encrypt] returns once [r] is fixed. *)
Definition ciphertext_of (pub : PublicKey.t) (m r : Z) : Z :=
  (PublicKey.g pub ^ m mod PublicKey.n_sq pub)
  * (r ^ PublicKey.n pub mod PublicKey.n_sq pub)
  mod PublicKey.n_sq pub.

(** A chain is linked when every entry after the first carries, as
    [prev_hash], the [payload_hash] of the entry just before it. *)
Definition linked (rows : list AuditLog.t) : Prop :=
  forall i a b,
    nth_error rows i = Some a -> nth_error rows (S i) = Some b ->
    AuditLog.prev_hash b = Some (AuditLog.payload_hash a).

(** Tampering with one stored entry, by its position in id order. *)
Fixpoint update_at {A : Type} (i : nat) (f : A -> A) (l : list A) : list A :=
  match l, i with
  | [], _ => []
  | x :: rest, O => f x :: rest
  | x :: rest, S j => x :: update_at j f rest
  end.

Definition set_prev_hash (i : nat) (v : option string)
    (rows : list AuditLog.t) : list AuditLog.t :=
  update_at i
    (fun row => AuditLog.mk (AuditLog.id row) (AuditLog.event_type row)
                            (AuditLog.payload_hash row) v)
    rows.

Definition set_payload_hash (i : nat) (v : string)
    (rows : list AuditLog.t) : list AuditLog.t :=
  update_at i
    (fun row => AuditLog.mk (AuditLog.id row) (AuditLog.event_type row)
                            v (AuditLog.prev_hash row))
    rows.

(** Some question with this identifier is active. *)
Definition has_active_question (db : Database) (question_id : string)
    : bool :=
  existsb (fun q => (Question.question_id q =? question_id)%string
                    && Question.is_active q)
          (questions db).

(** The [add] calls made while folding the ciphertexts [cs] into the
    accumulator [agg], and the accumulator at the end. *)
Fixpoint add_calls (pub : PublicKey.t) (agg : Z) (cs : list Z)
    : list crypto_call :=
  match cs with
  | [] => []
  | c :: rest =>
      CallAdd agg c :: add_calls pub (agg * c mod PublicKey.n_sq pub) rest
  end.

Definition fold_add (pub : PublicKey.t) (agg : Z) (cs : list Z) : Z :=
  fold_left (fun a c => a * c mod PublicKey.n_sq pub) cs agg.

(** The stored string [row] is what [str(encrypt(pub, m, r))] gives for a
    plaintext [m] in range and an admissible [r]. *)
Definition stored_vote (pub : PublicKey.t) (row : string) (mr : Z * Z)
    : Prop :=
  row = py_str (ciphertext_of pub (fst mr) (snd mr))
  /\ 0 <= fst mr < PublicKey.n pub
  /\ admissible (PublicKey.n pub) (snd mr).

Definition is_decrypt (c : crypto_call) : bool :=
  match c with
  | CallDecrypt _ => true
  | _ => false
  end.

(** The audit table as an append-only log leaves it: stored in strictly
    increasing id order, with no id beyond the sequence, and linked. *)
Definition id_lt (a b : AuditLog.t) : Prop := AuditLog.id a < AuditLog.id b.

Definition chain_wf (db : Database) : Prop :=
  StronglySorted id_lt (logs db)
  /\ Forall (fun row => AuditLog.id row <= logs_id_seq db) (logs db)
  /\ linked (logs db).

(** [POST /votes/send] called once per payload, in order. *)
Definition send_votes (sha256_hexdigest : string -> string) (db : Database)
    (payloads : list VoteRequest.t) : Database :=
  fold_left (fun db payload => snd (send_vote sha256_hexdigest db payload))
            payloads db.

(** The ciphertexts stored for a (question, key) pair, in table order:
    what the query of [fetch_votes_by_question] selects. *)
Definition ciphertexts_for (db : Database) (question_id key_id : string)
    : list string :=
  map Vote.ciphertext
    (filter (fun row => ((Vote.question_id row =? question_id)
                         && (Vote.key_id row =? key_id))%string)
            (votes db)).

(** The four tables of [db'] hold what those of [db] hold. *)
Definition same_tables (db db' : Database) : Prop :=
  questions db' = questions db /\ participants db' = participants db
  /\ votes db' = votes db /\ logs db' = logs db.

(** The database once the block of [record_vote] is committed, from the
    values stored: the identity if it is new, one vote row and one audit
    entry. *)
Definition committed_vote (db : Database)
    (participant_hash agent_hash question_id ciphertext key_id
     payload_hash : string) : Database :=
  mkDatabase (questions db)
    (participants (insert_identity participant_hash agent_hash db))
    (votes db
     ++ [Vote.mk (votes_id_seq db + 1) question_id participant_hash
                 ciphertext key_id])
    (logs db
     ++ [AuditLog.mk (logs_id_seq db + 1) "vote_received" payload_hash
                     (select_last_payload_hash db)])
    (votes_id_seq db + 1) (logs_id_seq db + 1).

(** ** Sample data *)

(** A database that holds nothing but the audit entries [rows]. *)
Definition audit_db (rows : list AuditLog.t) : Database :=
  mkDatabase [] [] [] rows 0 (Z.of_nat (List.length rows)).

(** Two entries as two calls of [record_vote] leave them. *)
Definition two_entries : list AuditLog.t :=
  [ AuditLog.mk 1 "vote_received" "h1" None;
    AuditLog.mk 2 "vote_received" "h2" (Some "h1") ].

(** The key pair [generate_keypair] returns for the primes 5 and 7. *)
Definition small_pub : PublicKey.t := PublicKey.mk 35 36.
Definition small_priv : PrivateKey.t := PrivateKey.mk 12 3 35.

(** Three votes on "q-demo" encrypting 1, 1 and 0, and one vote on another
    question. *)
Definition three_votes_db : Database :=
  mkDatabase
    [Question.mk "q-demo" true; Question.mk "q-other" true]
    []
    [ Vote.mk 1 "q-demo" "alice" (py_str (ciphertext_of small_pub 1 2)) "key-v1";
      Vote.mk 2 "q-other" "alice" (py_str (ciphertext_of small_pub 1 4)) "key-v1";
      Vote.mk 3 "q-demo" "bob" (py_str (ciphertext_of small_pub 1 3)) "key-v1";
      Vote.mk 4 "q-demo" "carol" (py_str (ciphertext_of small_pub 0 11)) "key-v1" ]
    []
    4 0.

(** * paillier.py: the prime search

    The random source is the same tape as for [encrypt]: the successive
    values returned by [secrets.randbits] and [secrets.randbelow]. *)

(** [secrets.randbits(k)] *)
Definition randbits (k : Z) (tape : list Z) : result Z * list Z :=
  if k <? 0
  then (Raise (ValueError "number of bits must be non-negative"), tape)
  else
    match tape with
    | [] => (OutOfDraws, [])
    | r :: tape' => (Ok r, tape')
    end.

(** [a << k] *)
Definition py_lshift (a k : Z) : result Z :=
  if k <? 0 then Raise (ValueError "negative shift count")
  else Ok (Z.shiftl a k).

Definition small_primes : list Z := [2; 3; 5; 7; 11; 13; 17; 19; 23; 29].

(** [while d % 2 == 0: d //= 2; s += 1], for a positive [d]. *)
Fixpoint halve_while_even (d : positive) (s : Z) : Z * Z :=
  match d with
  | xO d' => halve_while_even d' (s + 1)
  | _ => (Z.pos d, s)
  end.

(** The inner [for _ in range(s - 1)] loop of one Miller-Rabin round, run
    for [k] iterations from [x]: [Ok true] is the [break], [Ok false] is the
    [else] branch of the loop, which makes [_is_probable_prime] return
    [False]. *)
Fixpoint squaring_loop (k : nat) (x n : Z) : result bool :=
  match k with
  | O => Ok false
  | S k' =>
      x' <- py_pow x 2 n;;
      if x' =? n - 1 then Ok true else squaring_loop k' x' n
  end.

(** The [for _ in range(rounds)] loop: each round draws
    [secrets.randbelow(n - 3)] from the tape. *)
Fixpoint rounds_loop (rounds : nat) (n d s : Z) (tape : list Z)
    : result bool * list Z :=
  match rounds with
  | O => (Ok true, tape)
  | S rounds' =>
      match tape with
      | [] => (OutOfDraws, [])
      | drawn :: tape' =>
          let a := drawn + 2 in
          match py_pow a d n with
          | Ok x =>
              if (x =? 1) || (x =? n - 1)
              then rounds_loop rounds' n d s tape'
              else
                match squaring_loop (Z.to_nat (s - 1)) x n with
                | Ok true => rounds_loop rounds' n d s tape'
                | Ok false => (Ok false, tape')
                | Raise e => (Raise e, tape')
                | OutOfDraws => (OutOfDraws, tape')
                end
          | Raise e => (Raise e, tape')
          | OutOfDraws => (OutOfDraws, tape')
          end
      end
  end.

(** [_is_probable_prime(n, rounds)].  Past the first test [n >= 2], so
    [n - 1] is positive and the last branch is never taken. *)
Definition _is_probable_prime (n rounds : Z) (tape : list Z)
    : result bool * list Z :=
  if n <? 2 then (Ok false, tape)
  else if existsb (Z.eqb n) small_primes then (Ok true, tape)
  else if existsb (fun p => n mod p =? 0) small_primes then (Ok false, tape)
  else
    match n - 1 with
    | Z.pos d0 =>
        let (d, s) := halve_while_even d0 0 in
        rounds_loop (Z.to_nat rounds) n d s tape
    | _ => (Ok false, tape)
    end.

(** The [while True] loop of [_generate_prime], for at most [tries]
    candidates. *)
Fixpoint generate_prime_loop (tries : nat) (bits : Z) (tape : list Z)
    : result Z * list Z :=
  match tries with
  | O => (OutOfDraws, tape)
  | S tries' =>
      match randbits bits tape with
      | (Ok drawn, tape1) =>
          match py_lshift 1 (bits - 1) with
          | Ok top =>
              let candidate := Z.lor (Z.lor drawn 1) top in
              match _is_probable_prime candidate 16 tape1 with
              | (Ok true, tape2) => (Ok candidate, tape2)
              | (Ok false, tape2) => generate_prime_loop tries' bits tape2
              | (Raise e, tape2) => (Raise e, tape2)
              | (OutOfDraws, tape2) => (OutOfDraws, tape2)
              end
          | Raise e => (Raise e, tape1)
          | OutOfDraws => (OutOfDraws, tape1)
          end
      | (Raise e, tape1) => (Raise e, tape1)
      | (OutOfDraws, tape1) => (OutOfDraws, tape1)
      end
  end.

(** [_generate_prime(bits)].  Every candidate uses up at least one draw, so
    a tape of [k] draws is exhausted within [k] candidates. *)
Definition _generate_prime (bits : Z) (tape : list Z) : result Z * list Z :=
  generate_prime_loop (S (List.length tape)) bits tape.

(** [generate_keypair(bits)] as a whole: the two prime searches, then the
    computation modelled by [generate_keypair] above. *)
Definition generate_keypair_bits (bits : Z) (tape : list Z)
    : result (PublicKey.t * PrivateKey.t) * list Z :=
  match _generate_prime (bits / 2) tape with
  | (Ok p, tape1) =>
      match _generate_prime (bits / 2) tape1 with
      | (Ok q, tape2) => (generate_keypair p q, tape2)
      | (Raise e, tape2) => (Raise e, tape2)
      | (OutOfDraws, tape2) => (OutOfDraws, tape2)
      end
  | (Raise e, tape1) => (Raise e, tape1)
  | (OutOfDraws, tape1) => (OutOfDraws, tape1)
  end.

(** * db.py: reading the audit log *)


(** ** Vocabulary for the tables *)

(** No two rows of [identity.participants] carry the same hash. *)
Definition identities_unique (db : Database) : Prop :=
  NoDup (map Participant.participant_hash (participants db)).

(** Every stored vote names a question that is in [votes.questions]. *)
Definition votes_reference_questions (db : Database) : Prop :=
  Forall (fun vote =>
            exists q, In q (questions db)
                      /\ Question.question_id q = Vote.question_id vote)
         (votes db).

(** The agent recorded for a participant hash, if the participant is
    known. *)
Definition agent_of (db : Database) (participant_hash : string)
    : option string :=
  option_map Participant.agent_hash
    (find (fun row =>
             (Participant.participant_hash row =? participant_hash)%string)
          (participants db)).

(** * db.py: photos, questions, users and statistics

    These functions touch tables and sequences that [Database] does not
    hold; [Store] adds them around it. *)

Module Photo.
Record t : Type := mk {
  id : Z;
  object_name : string;
  nonce : string;
  tag : string;
  alg : string;
  content_type : string;
  size_bytes : Z;
  key_id : string }.
End Photo.

Module User.
Record t : Type := mk {
  id : Z;
  username : string;
  password_hash : string;
  password_salt : string;
  role : string;
  full_name : string;
  is_active : bool }.
End User.

Record Store : Type := mkStore {
  core : Database;
  questions_id_seq : Z;
  photos : list Photo.t;
  photos_id_seq : Z;
  users : list User.t;
  users_id_seq : Z }.

Definition with_core (st : Store) (db : Database) : Store :=
  mkStore db (questions_id_seq st) (photos st) (photos_id_seq st)
          (users st) (users_id_seq st).

Definition with_users (st : Store) (rows : list User.t) : Store :=
  mkStore (core st) (questions_id_seq st) (photos st) (photos_id_seq st)
          rows (users_id_seq st).

(** What a transaction that is rolled back leaves: the tables as they
    were before it, the sequences at the values they reached. *)
Definition rollback (st st' : Store) : Store :=
  mkStore
    (mkDatabase (questions (core st)) (participants (core st))
                (votes (core st)) (logs (core st))
                (votes_id_seq (core st')) (logs_id_seq (core st')))
    (questions_id_seq st') (photos st) (photos_id_seq st')
    (users st) (users_id_seq st').

(** [async with engine.begin() as conn] over the whole store: a block that
    does not end normally has its writes undone. *)
Definition store_begin {A : Type} (st : Store)
    (block : Store -> outcome A * Store) : outcome A * Store :=
  match block st with
  | (Returned a, st') => (Returned a, st')
  | (failure, st') => (failure, rollback st st')
  end.

(** The dictionary returned by [record_photo_metadata]. *)
Module PhotoMeta.
Record t : Type := mk { photo_id : Z; object_name : string }.
End PhotoMeta.

(** The dictionary returned by [create_question]. *)
Module QuestionCreated.
Record t : Type := mk { id : Z; question_id : string; label : string }.
End QuestionCreated.

(** The dictionary returned by [get_vote_stats]. *)
Module VoteStats.
Record t : Type := mk {
  total_votes : Z;
  unique_questions : Z;
  unique_participants : Z;
  total_photos : Z;
  total_audit_entries : Z }.
End VoteStats.

(** The dictionary returned by [create_user]. *)
Module UserCreated.
Record t : Type := mk { id : Z; username : string; role : string }.
End UserCreated.

(** The keyword arguments [update_user] keeps: the allowed keys, each
    absent (or [None]) or present. *)
Module UserUpdates.
Record t : Type := mk {
  role : option string;
  full_name : option string;
  is_active : option bool;
  password_hash : option string;
  password_salt : option string }.
End UserUpdates.

(** The dictionary returned by [update_user]. *)
Module UserUpdated.
Record t : Type := mk {
  id : Z;
  username : string;
  role : string;
  full_name : string;
  is_active : bool }.
End UserUpdated.

(** [COUNT(DISTINCT column)] *)
Definition count_distinct (values : list string) : Z :=
  Z.of_nat (List.length (nodup string_dec values)).

Definition get_vote_stats (st : Store) : VoteStats.t :=
  VoteStats.mk
    (Z.of_nat (List.length (votes (core st))))
    (count_distinct (map Vote.question_id (votes (core st))))
    (count_distinct (map Vote.participant_hash (votes (core st))))
    (Z.of_nat (List.length (photos st)))
    (Z.of_nat (List.length (logs (core st)))).

(** [create_question]: the new row takes its id from the sequence, is
    active by the column's default, and is refused when [question_id] is
    already there (the column is unique). *)
Definition create_question (st : Store) (question_id label created_by : string)
    : outcome QuestionCreated.t * Store :=
  store_begin st (fun conn =>
    match varchar 64 question_id, varchar 512 label, varchar 64 created_by with
    | Some question_id', Some label', Some _ =>
        let id := questions_id_seq conn + 1 in
        let conn :=
          mkStore (core conn) id (photos conn) (photos_id_seq conn)
                  (users conn) (users_id_seq conn) in
        if existsb (fun q => (Question.question_id q =? question_id')%string)
                   (questions (core conn))
        then (IntegrityError "question_id", conn)
        else
          let db := core conn in
          (Returned (QuestionCreated.mk id question_id' label'),
           with_core conn
             (mkDatabase (questions db ++ [Question.mk question_id' true])
                         (participants db) (votes db) (logs db)
                         (votes_id_seq db) (logs_id_seq db)))
    | _, _, _ => (DBAPIError, conn)
    end).

(** [select(users_table).where(username == ...)], first row. *)
Definition get_user_by_username (st : Store) (username : string)
    : outcome (option User.t) :=
  if has_nul username then DBAPIError
  else Returned (find (fun row => (User.username row =? username)%string)
                      (users st)).

(** [users_table.insert().values(...)]: the id comes from the sequence,
    [is_active] from the column's default, and [username] is unique. *)
Definition insert_user (username password_hash password_salt role
                        full_name : string) (conn : Store)
    : outcome User.t * Store :=
  match varchar 64 username, varchar 128 password_hash,
        varchar 64 password_salt, varchar 20 role, varchar 128 full_name with
  | Some username', Some password_hash', Some password_salt', Some role',
    Some full_name' =>
      let id := users_id_seq conn + 1 in
      let conn :=
        mkStore (core conn) (questions_id_seq conn) (photos conn)
                (photos_id_seq conn) (users conn) id in
      if existsb (fun row => (User.username row =? username')%string)
                 (users conn)
      then (IntegrityError "username", conn)
      else
        let row :=
          User.mk id username' password_hash' password_salt' role' full_name'
                  true in
        (Returned row, with_users conn (users conn ++ [row]))
  | _, _, _, _, _ => (DBAPIError, conn)
  end.

Definition create_user (st : Store) (username password_hash password_salt role
                                     full_name : string)
    : outcome UserCreated.t * Store :=
  store_begin st (fun conn =>
    let (inserted, conn) :=
      insert_user username password_hash password_salt role full_name conn in
    (outcome_map
       (fun row => UserCreated.mk (User.id row) (User.username row)
                                  (User.role row))
       inserted,
     conn)).

Definition or_else {A : Type} (new : option A) (old : A) : A :=
  match new with
  | Some v => v
  | None => old
  end.

(** [users_table.update().where(id == user_id).values(...)], on one
    row. *)
Definition update_row (user_id : Z) (updates : UserUpdates.t) (row : User.t)
    : User.t :=
  if User.id row =? user_id
  then User.mk (User.id row) (User.username row)
         (or_else (UserUpdates.password_hash updates) (User.password_hash row))
         (or_else (UserUpdates.password_salt updates) (User.password_salt row))
         (or_else (UserUpdates.role updates) (User.role row))
         (or_else (UserUpdates.full_name updates) (User.full_name row))
         (or_else (UserUpdates.is_active updates) (User.is_active row))
  else row.

(** The columns that [update_user] selects afterwards. *)
Definition updated_columns (row : User.t) : UserUpdated.t :=
  UserUpdated.mk (User.id row) (User.username row) (User.role row)
                 (User.full_name row) (User.is_active row).

(** [update_user]: with nothing to update no statement is sent. *)
Definition update_user (st : Store) (user_id : Z) (kwargs : UserUpdates.t)
    : outcome (option UserUpdated.t) * Store :=
  match kwargs with
  | UserUpdates.mk None None None None None => (Returned None, st)
  | _ =>
      store_begin st (fun conn =>
        match integer user_id,
              optional_varchar 20 (UserUpdates.role kwargs),
              optional_varchar 128 (UserUpdates.full_name kwargs),
              optional_varchar 128 (UserUpdates.password_hash kwargs),
              optional_varchar 64 (UserUpdates.password_salt kwargs) with
        | Some _, Some role, Some full_name, Some password_hash,
          Some password_salt =>
            let updates :=
              UserUpdates.mk role full_name (UserUpdates.is_active kwargs)
                             password_hash password_salt in
            let conn :=
              with_users conn (map (update_row user_id updates) (users conn))
            in
            (Returned
               (option_map updated_columns
                  (find (fun row => User.id row =? user_id) (users conn))),
             conn)
        | _, _, _, _, _ => (DBAPIError, conn)
        end)
  end.

(** [delete_user]: whether a row went away. *)
Definition delete_user (st : Store) (user_id : Z) : outcome bool * Store :=
  store_begin st (fun conn =>
    match integer user_id with
    | Some _ =>
        (Returned (existsb (fun row => User.id row =? user_id) (users conn)),
         with_users conn
           (filter (fun row => negb (User.id row =? user_id)) (users conn)))
    | None => (DBAPIError, conn)
    end).

Section HashingPhotos.

Variable sha256_hexdigest : string -> string.

(** [record_photo_metadata]: [object_name] is a unique column. *)
Definition record_photo_metadata (st : Store)
    (object_name nonce_b64 tag_b64 alg content_type : string)
    (size_bytes : Z) (key_id : string) : outcome PhotoMeta.t * Store :=
  let payload_hash :=
    hash_identifier sha256_hexdigest
      ("photo:" ++ object_name ++ ":" ++ py_str size_bytes ++ ":" ++ key_id)%string
  in
  store_begin st (fun conn =>
    match varchar 256 object_name, varchar 64 nonce_b64, varchar 64 tag_b64,
          varchar 32 alg, varchar 128 content_type, integer size_bytes,
          varchar 64 key_id with
    | Some object_name', Some nonce', Some tag', Some alg',
      Some content_type', Some size_bytes', Some key_id' =>
        let id := photos_id_seq conn + 1 in
        let conn :=
          mkStore (core conn) (questions_id_seq conn) (photos conn) id
                  (users conn) (users_id_seq conn) in
        if existsb (fun row => (Photo.object_name row =? object_name')%string)
                   (photos conn)
        then (IntegrityError "object_name", conn)
        else
          let photo_row :=
            Photo.mk id object_name' nonce' tag' alg' content_type'
                     size_bytes' key_id' in
          let conn :=
            mkStore (core conn) (questions_id_seq conn)
                    (photos conn ++ [photo_row]) (photos_id_seq conn)
                    (users conn) (users_id_seq conn) in
          let prev_hash := select_last_payload_hash (core conn) in
          let conn :=
            with_core conn
              (insert_audit "photo_uploaded" payload_hash prev_hash
                            (core conn)) in
          (Returned (PhotoMeta.mk (Photo.id photo_row) object_name), conn)
    | _, _, _, _, _, _, _ => (DBAPIError, conn)
    end).

(** One write request to the backend. *)
Inductive request : Type :=
| SendVote (payload : VoteRequest.t)
| RecordPhoto (object_name nonce_b64 tag_b64 alg content_type : string)
              (size_bytes : Z) (key_id : string)
| CreateQuestion (question_id label created_by : string).

(** The store after one request, whatever its outcome. *)
Definition serve (st : Store) (r : request) : Store :=
  match r with
  | SendVote payload =>
      with_core st (snd (send_vote sha256_hexdigest (core st) payload))
  | RecordPhoto object_name nonce_b64 tag_b64 alg content_type size_bytes
                key_id =>
      snd (record_photo_metadata st object_name nonce_b64 tag_b64 alg
             content_type size_bytes key_id)
  | CreateQuestion question_id label created_by =>
      snd (create_question st question_id label created_by)
  end.

End HashingPhotos.

(** * auth.py and the account endpoints of main.py *)

Module LoginRequest.
Record t : Type := mk { username : string; password : string }.
End LoginRequest.

Module RegisterRequest.
Record t : Type := mk {
  username : string;
  password : string;
  role : string;
  full_name : string }.
End RegisterRequest.

Module TokenResponse.
Record t : Type := mk {
  access_token : string;
  token_type : string;
  role : string;
  username : string;
  expires_in : Z }.
End TokenResponse.

(** The payload of a token that [decode_token] has accepted. *)
Module TokenPayload.
Record t : Type := mk {
  sub : string;
  username : string;
  role : string;
  iat : Z;
  exp : Z }.
End TokenPayload.

Module UpdateUserRequest.
Record t : Type := mk {
  role : option string;
  full_name : option string;
  is_active : option bool;
  password : option string }.
End UpdateUserRequest.

(** The dictionary returned by [register]. *)
Module UserRegistered.
Record t : Type := mk {
  status : string;
  user_id : Z;
  username : string;
  role : string }.
End UserRegistered.

(** The dictionary returned by [admin_update_user]. *)
Module UserUpdateDone.
Record t : Type := mk { status : string; row : UserUpdated.t }.
End UserUpdateDone.

(** The dictionary returned by [admin_delete_user]. *)
Module UserDeleted.
Record t : Type := mk { status : string; user_id : Z }.
End UserDeleted.

(** The dictionary returned by [add_question]. *)
Module QuestionAdded.
Record t : Type := mk {
  status : string;
  question_id : string;
  label : string }.
End QuestionAdded.

(** What a request runs against: the tables, and the successive values of
    [secrets.token_hex]. *)
Record Backend : Type := mkBackend {
  store : Store;
  salts : list string }.

Definition Req (A : Type) : Type := Backend -> outcome A * Backend.

Definition ret {A : Type} (a : A) : Req A := fun w => (Returned a, w).

Definition raise {A : Type} (e : exn) : Req A := fun w => (Raised e, w).

Definition and_then {A B : Type} (c : Req A) (k : A -> Req B) : Req B :=
  fun w =>
    match c w with
    | (Returned a, w') => k a w'
    | (Raised e, w') => (Raised e, w')
    | (IntegrityError column, w') => (IntegrityError column, w')
    | (DBAPIError, w') => (DBAPIError, w')
    | (TypeError message, w') => (TypeError message, w')
    | (NoMoreDraws, w') => (NoMoreDraws, w')
    end.

Notation "x <-- c ;; k" := (and_then c (fun x => k))
  (at level 61, c at next level, right associativity).

(** A call that reads the tables. *)
Definition reading {A : Type} (f : Store -> outcome A) : Req A :=
  fun w => (f (store w), w).

(** A call that writes them. *)
Definition writing {A : Type} (f : Store -> outcome A * Store) : Req A :=
  fun w => let (r, st) := f (store w) in (r, mkBackend st (salts w)).

(** [async with engine.begin() as conn] around a block that also draws. *)
Definition begin {A : Type} (block : Req A) : Req A :=
  fun w =>
    match block w with
    | (Returned a, w') => (Returned a, w')
    | (failure, w') =>
        (failure, mkBackend (rollback (store w) (store w')) (salts w'))
    end.

(** [secrets.token_hex(nbytes)] *)
Definition token_hex (nbytes : Z) : Req string :=
  fun w =>
    if nbytes <? 0
    then (Raised (ValueError "negative argument not allowed"), w)
    else match salts w with
         | [] => (NoMoreDraws, w)
         | drawn :: rest => (Returned drawn, mkBackend (store w) rest)
         end.

(** [secrets.compare_digest] on two [str]: both have to be ASCII. *)
Definition compare_digest (a b : string) : outcome bool :=
  if isascii a && isascii b then Returned (a =? b)%string
  else TypeError "comparing strings with non-ASCII characters is not supported".

(** [Depends(require_role(...))], on the payload [get_current_user] took
    from the token. *)
Definition require_role (roles : list string) (user : TokenPayload.t)
    : Req TokenPayload.t :=
  if negb (existsb (String.eqb (TokenPayload.role user)) roles)
  then raise (HTTPException 403 "Accès interdit pour ce rôle")
  else ret user.

Section Accounts.

Variable sha256_hexdigest : string -> string.

(** [create_token(user_id, username, role)] called when the clock reads
    [now]: the token it signs. *)
Variable create_token : Z -> Z -> string -> string -> string.

Variable JWT_EXPIRE_MINUTES : Z.

Definition hash_password (password : string) (salt : option string)
    : Req (string * string) :=
  salt <-- match salt with
           | None => token_hex 16
           | Some salt => ret salt
           end;;
  let pw_hash := sha256_hexdigest (salt ++ ":" ++ password)%string in
  ret (pw_hash, salt).

Definition verify_password (password pw_hash salt : string) : Req bool :=
  hashed <-- hash_password password (Some salt);;
  let computed := fst hashed in
  fun w => (compare_digest computed pw_hash, w).

(** [POST /auth/login], when the clock reads [now]. *)
Definition login (now : Z) (payload : LoginRequest.t)
    : Req TokenResponse.t :=
  user <-- reading (fun st =>
             get_user_by_username st (LoginRequest.username payload));;
  match user with
  | None => raise (HTTPException 401 "Identifiants incorrects")
  | Some user =>
      verified <-- verify_password (LoginRequest.password payload)
                     (User.password_hash user) (User.password_salt user);;
      if negb verified
      then raise (HTTPException 401 "Identifiants incorrects")
      else if negb (User.is_active user)
      then raise (HTTPException 403 "Compte désactivé")
      else
        let token :=
          create_token now (User.id user) (User.username user)
                       (User.role user) in
        ret (TokenResponse.mk token "bearer" (User.role user)
                              (User.username user) (JWT_EXPIRE_MINUTES * 60))
  end.

(** [POST /auth/register], called with the token payload [user]. *)
Definition register (user : TokenPayload.t) (payload : RegisterRequest.t)
    : Req UserRegistered.t :=
  admin <-- require_role ["admin"] user;;
  existing <-- reading (fun st =>
                 get_user_by_username st (RegisterRequest.username payload));;
  match existing with
  | Some _ => raise (HTTPException 409 "Nom d'utilisateur déjà pris")
  | None =>
      hashed <-- hash_password (RegisterRequest.password payload) None;;
      let (pw_hash, salt) := hashed in
      user <-- writing (fun st =>
                 create_user st (RegisterRequest.username payload) pw_hash salt
                   (RegisterRequest.role payload)
                   (RegisterRequest.full_name payload));;
      ret (UserRegistered.mk "created" (UserCreated.id user)
             (UserCreated.username user) (UserCreated.role user))
  end.

(** [PUT /admin/users/{user_id}] *)
Definition admin_update_user (user : TokenPayload.t) (user_id : Z)
    (payload : UpdateUserRequest.t) : Req UserUpdateDone.t :=
  admin <-- require_role ["admin"] user;;
  hashed <-- match UpdateUserRequest.password payload with
             | None => ret None
             | Some password =>
                 hashed <-- hash_password password None;;
                 ret (Some hashed)
             end;;
  let kwargs :=
    UserUpdates.mk (UpdateUserRequest.role payload)
                   (UpdateUserRequest.full_name payload)
                   (UpdateUserRequest.is_active payload)
                   (option_map fst hashed) (option_map snd hashed) in
  match kwargs with
  | UserUpdates.mk None None None None None =>
      raise (HTTPException 400 "Aucun champ à modifier")
  | _ =>
      result <-- writing (fun st => update_user st user_id kwargs);;
      match result with
      | None => raise (HTTPException 404 "Utilisateur non trouvé")
      | Some row => ret (UserUpdateDone.mk "updated" row)
      end
  end.

(** [DELETE /admin/users/{user_id}] *)
Definition admin_delete_user (user : TokenPayload.t) (user_id : Z)
    : Req UserDeleted.t :=
  admin <-- require_role ["admin"] user;;
  if (py_str user_id =? TokenPayload.sub admin)%string
  then raise (HTTPException 400 "Impossible de supprimer votre propre compte")
  else
    deleted <-- writing (fun st => delete_user st user_id);;
    if negb deleted
    then raise (HTTPException 404 "Utilisateur non trouvé")
    else ret (UserDeleted.mk "deleted" user_id).

(** [POST /questions] *)
Definition add_question (user : TokenPayload.t) (question_id label : string)
    : Req QuestionAdded.t :=
  user <-- require_role ["admin"] user;;
  q <-- writing (fun st =>
          create_question st question_id label (TokenPayload.username user));;
  ret (QuestionAdded.mk "created" (QuestionCreated.question_id q)
                        (QuestionCreated.label q)).

(** [GET /admin/stats] *)
Definition admin_stats (user : TokenPayload.t) : Req VoteStats.t :=
  admin <-- require_role ["admin"; "auditor"] user;;
  reading (fun st => Returned (get_vote_stats st)).

(** [init_db]: the schemas and tables are there already; what is left is
    the two accounts it creates when the users table is empty. *)
Definition init_db : Req unit :=
  begin (fun w =>
    match users (store w) with
    | _ :: _ => ret tt w
    | [] =>
        (hashed <-- hash_password "admin" None;;
         let (pw_hash, salt) := hashed in
         _ <-- writing (insert_user "admin" pw_hash salt "admin"
                                    "Administrateur");;
         hashed2 <-- hash_password "agent" None;;
         let (pw_hash2, salt2) := hashed2 in
         _ <-- writing (insert_user "agent" pw_hash2 salt2 "agent"
                                    "Agent Terrain");;
         ret tt) w
    end).

End Accounts.

(** * audit/: the checks *)

(** ** [str.strip()]

    The characters that [str.isspace] accepts, in UTF-8: U+0009 to U+000D,
    U+001C to U+0020, U+0085, U+00A0, U+1680, U+2000 to U+200A, U+2028,
    U+2029, U+202F, U+205F and U+3000. *)

Definition bytes (codes : list nat) : string :=
  string_of_list_ascii (map Ascii.ascii_of_nat codes).

Definition whitespace : list string :=
  map bytes
    [ [9]; [10]; [11]; [12]; [13]; [28]; [29]; [30]; [31]; [32];
      [194; 133]; [194; 160]; [225; 154; 128];
      [226; 128; 128]; [226; 128; 129]; [226; 128; 130]; [226; 128; 131];
      [226; 128; 132]; [226; 128; 133]; [226; 128; 134]; [226; 128; 135];
      [226; 128; 136]; [226; 128; 137]; [226; 128; 138];
      [226; 128; 168]; [226; 128; 169]; [226; 128; 175]; [226; 129; 159];
      [227; 128; 128] ]%nat.

(** [s] without the prefix [p], when it starts with [p]. *)
Fixpoint drop_prefix (p s : string) : option string :=
  match p, s with
  | EmptyString, _ => Some s
  | String a p', String b s' =>
      if Ascii.eqb a b then drop_prefix p' s' else None
  | String _ _, EmptyString => None
  end.

(** [s] without the first of [patterns] it starts with. *)
Fixpoint drop_one (patterns : list string) (s : string) : option string :=
  match patterns with
  | [] => None
  | p :: rest =>
      match drop_prefix p s with
      | Some s' => Some s'
      | None => drop_one rest s
      end
  end.

Fixpoint drop_all (fuel : nat) (patterns : list string) (s : string)
    : string :=
  match fuel with
  | O => s
  | S fuel' =>
      match drop_one patterns s with
      | Some s' => drop_all fuel' patterns s'
      | None => s
      end
  end.

Definition reversed (s : string) : string :=
  string_of_list_ascii (rev (list_ascii_of_string s)).

Definition lstrip (s : string) : string :=
  drop_all (String.length s) whitespace s.

Definition rstrip (s : string) : string :=
  reversed (drop_all (String.length s) (map reversed whitespace) (reversed s)).

Definition strip (s : string) : string := rstrip (lstrip s).

(** ** The reports *)

Module HashChainReport.
Record t : Type := mk {
  check : string;
  chain_length : Z;
  violations : list string;
  passed : bool }.
End HashChainReport.

Module VoteViolation.
Record t : Type := mk { vote_id : Z; ciphertext : string; reason : string }.
End VoteViolation.

Module VotesReport.
Record t : Type := mk {
  check : string;
  total_votes : Z;
  violations : list VoteViolation.t;
  passed : bool }.
End VotesReport.

Module PhotoViolation.
Record t : Type := mk {
  photo_id : Z;
  object_name : string;
  reasons : list string }.
End PhotoViolation.

Module PhotosReport.
Record t : Type := mk {
  check : string;
  total_photos : Z;
  violations : list PhotoViolation.t;
  passed : bool }.
End PhotosReport.

(** The body of the loop of [check_votes_encrypted.check]: what one row
    adds to [violations]. *)
Definition vote_violations (row : Vote.t) : list VoteViolation.t :=
  let ct := strip (Vote.ciphertext row) in
  if existsb (String.eqb ct) ["0"; "1"; EmptyString]
  then [VoteViolation.mk (Vote.id row) ct "valeur binaire en clair"]
  else if Nat.ltb (py_len ct) 10
  then [VoteViolation.mk (Vote.id row) ct
                         "ciphertext trop court pour Paillier"]
  else [].

(** The body of the loop of [check_photos_encrypted.check]. *)
Definition photo_violations (row : Photo.t) : list PhotoViolation.t :=
  let reasons :=
    (if (Photo.nonce row =? EmptyString)%string
     then ["nonce manquant"] else [])
    ++ (if (Photo.tag row =? EmptyString)%string
        then ["tag manquant"] else [])
    ++ (if (Photo.key_id row =? EmptyString)%string
        then ["key_id manquant"] else [])
    ++ (if negb (existsb (String.eqb (Photo.alg row))
                         ["AES-256-GCM"; "AES-128-GCM"])
        then [("algorithme inconnu: " ++ Photo.alg row)%string] else []) in
  match reasons with
  | [] => []
  | _ :: _ =>
      [PhotoViolation.mk (Photo.id row) (Photo.object_name row) reasons]
  end.

Section Audits.

Variable sha256_hexdigest : string -> string.

(** [audit/check_hash_chain.py]: [check] *)
Definition check_hash_chain : Req HashChainReport.t :=
  _ <-- init_db sha256_hexdigest;;
  result <-- reading (fun st => Returned (verify_hash_chain (core st)));;
  let violations :=
    if negb (ChainReport.ok result)
    then [("Chaîne brisée à l'entrée #"
           ++ match ChainReport.broken_id result with
              | Some id => py_str id
              | None => "None"
              end)%string]
    else [] in
  ret (HashChainReport.mk "hash_chain_integrity" (ChainReport.length result)
                          violations (ChainReport.ok result)).

(** [audit/check_votes_encrypted.py]: [check]; the rows come in the order
    of the table. *)
Definition check_votes_encrypted : Req VotesReport.t :=
  _ <-- init_db sha256_hexdigest;;
  rows <-- reading (fun st => Returned (votes (core st)));;
  let violations := flat_map vote_violations rows in
  ret (VotesReport.mk "votes_encrypted" (Z.of_nat (List.length rows))
                      violations
                      (Z.of_nat (List.length violations) =? 0)).

(** [audit/check_photos_encrypted.py]: [check] *)
Definition check_photos_encrypted : Req PhotosReport.t :=
  _ <-- init_db sha256_hexdigest;;
  rows <-- reading (fun st => Returned (photos st));;
  let violations := flat_map photo_violations rows in
  ret (PhotosReport.mk "photos_encrypted" (Z.of_nat (List.length rows))
                       violations
                       (Z.of_nat (List.length violations) =? 0)).

End Audits.

(** * storage.py and the upload endpoint of main.py *)

Module PhotoUploadRequest.
Record t : Type := mk {
  object_name : string;
  nonce_b64 : string;
  tag_b64 : string;
  ciphertext_b64 : string;
  content_type : string;
  key_id : string;
  alg : string }.
End PhotoUploadRequest.

(** The dictionary returned by [upload_photo]. *)
Module PhotoStored.
Record t : Type := mk {
  status : string;
  bucket : string;
  object_name : string;
  photo_id : Z }.
End PhotoStored.

(** What the bucket holds under one key. *)
Module S3Object.
Record t : Type := mk { body : string; content_type : string }.
End S3Object.




Section Uploads.

Variable sha256_hexdigest : string -> string.

(** [base64.b64decode]: the decoded bytes, or [None] when it raises. *)
Variable b64decode : string -> option string.

(** [get_bucket_name()] *)
Variable bucket_name : string.


End Uploads.

(** No two questions carry the same [question_id]. *)
Definition questions_unique (db : Database) : Prop :=
  NoDup (map Question.question_id (questions db)).

(** A database with an open and a closed question, one known participant
    and the audit entries [two_entries]. *)
Definition busy_db : Database :=
  mkDatabase
    [Question.mk "q-demo" true; Question.mk "q-closed" false]
    [Participant.mk "sha256:alice" "sha256:agent-1"]
    [Vote.mk 1 "q-demo" "sha256:alice" "111" "key-v1"]
    two_entries
    1 2.

(** A value that a [String(width)] column stores as it is. *)
Definition fits (width : nat) (value : string) : bool :=
  negb (has_nul value) && Nat.leb (py_len value) width.

(** One of the three text values of the request holds a NUL character. *)
Definition holds_nul (payload : VoteRequest.t) : bool :=
  has_nul (VoteRequest.question_id payload)
  || has_nul (VoteRequest.ciphertext payload)
  || has_nul (VoteRequest.key_id payload).

(** Every stored [question_id] is one that its [String(64)] column
    holds. *)
Definition questions_fit (db : Database) : Prop :=
  Forall (fun q => fits 64 (Question.question_id q) = true) (questions db).

(** A request whose values the [votes] table stores as they are:
    [question_id] and [key_id] fit their [String(64)] columns and
    [ciphertext] holds no NUL character. *)
Definition storable (payload : VoteRequest.t) : bool :=
  fits 64 (VoteRequest.question_id payload)
  && negb (has_nul (VoteRequest.ciphertext payload))
  && fits 64 (VoteRequest.key_id payload).

(** [busy_db] with one stored photo. *)
Definition busy_store : Store :=
  mkStore busy_db 2
    [Photo.mk 1 "photo-1" "bm9uY2U=" "dGFn" "AES-256-GCM" "image/jpeg" 2048
              "key-v1"]
    1 [] 0.

(** The unique columns hold no duplicate, every vote names a known
    question and every stored [question_id] is one that its column
    holds. *)
Definition tables_wf (st : Store) : Prop :=
  questions_unique (core st)
  /\ questions_fit (core st)
  /\ identities_unique (core st)
  /\ votes_reference_questions (core st)
  /\ NoDup (map Photo.object_name (photos st)).

(** What a request keeps of the tables it found. *)
Definition kept (st st' : Store) : Prop :=
  tables_wf st'
  /\ (exists added,
        questions (core st') = questions (core st) ++ added)
  /\ (forall h a, agent_of (core st) h = Some a ->
                  agent_of (core st') h = Some a).

(** ** Vocabulary for the accounts *)

Definition is_hex_digit (c : Ascii.ascii) : bool :=
  (Nat.leb 48 (Ascii.nat_of_ascii c) && Nat.leb (Ascii.nat_of_ascii c) 57)
  || (Nat.leb 97 (Ascii.nat_of_ascii c) && Nat.leb (Ascii.nat_of_ascii c) 102).

(** [n] lowercase hexadecimal digits: what [hexdigest()] returns of a
    SHA-256 digest for [n = 64], and [secrets.token_hex(16)] for
    [n = 32]. *)
Definition hexdigits (n : nat) (s : string) : bool :=
  Nat.eqb (String.length s) n
  && forallb is_hex_digit (list_ascii_of_string s).


(** User names and ids are unique, and no id is beyond the sequence. *)
Definition users_wf (st : Store) : Prop :=
  NoDup (map User.username (users st))
  /\ NoDup (map User.id (users st))
  /\ Forall (fun row => User.id row <= users_id_seq st) (users st).

(** A stand-in for SHA-256 that tells strings of even length from strings
    of odd length. *)
Definition parity_digest (value : string) : string :=
  if Nat.even (String.length value)
  then "0000000000000000000000000000000000000000000000000000000000000000"
  else "ffffffffffffffffffffffffffffffffffffffffffffffffffffffffffffffff".

(** A stand-in for [create_token]. *)
Definition plain_token (now user_id : Z) (username role : string) : string :=
  (py_str user_id ++ "." ++ username ++ "." ++ role ++ "." ++ py_str now)%string.

(** A backend with an administrator (password "admin" under
    [parity_digest]), an agent whose account is switched off, and two
    draws left. *)
Definition staff_backend : Backend :=
  mkBackend
    (mkStore busy_db 2 [] 0
       [ User.mk 1 "admin"
           "0000000000000000000000000000000000000000000000000000000000000000"
           "00000000000000000000000000000001" "admin" "Administrateur" true;
         User.mk 2 "agent"
           "0000000000000000000000000000000000000000000000000000000000000000"
           "00000000000000000000000000000002" "agent" "Agent Terrain" false ]
       2)
    [ "0123456789abcdef0123456789abcdef";
      "fedcba9876543210fedcba9876543210" ].

(** The token payloads of the administrator and of the agent. *)
Definition admin_token : TokenPayload.t :=
  TokenPayload.mk "1" "admin" "admin" 1000 29800.

Definition agent_token : TokenPayload.t :=
  TokenPayload.mk "2" "agent" "agent" 1000 29800.

(** The [max_length] limits of [VoteRequest] on the two values that go to
    [String(64)] columns. *)
Definition within_limits (payload : VoteRequest.t) : bool :=
  Nat.leb (py_len (VoteRequest.question_id payload)) 64
  && Nat.leb (py_len (VoteRequest.key_id payload)) 64.

(** The requests of [payloads] that are for a (question, key) pair. *)
Definition cast_for (question_id key_id : string)
    (payloads : list VoteRequest.t) : list VoteRequest.t :=
  filter (fun payload =>
            ((VoteRequest.question_id payload =? question_id)
             && (VoteRequest.key_id payload =? key_id))%string)
         payloads.

(** The characters of a decimal spelling: the minus sign and the digits. *)
Definition is_decimal_char (c : Ascii.ascii) : bool :=
  Nat.eqb (Ascii.nat_of_ascii c) 45
  || (Nat.leb 48 (Ascii.nat_of_ascii c) && Nat.leb (Ascii.nat_of_ascii c) 57).

(** ** Requests to the accounts *)

(** One request to the account endpoints, or one run of [init_db]. *)
Inductive account_request : Type :=
| Login (now : Z) (payload : LoginRequest.t)
| Register (user : TokenPayload.t) (payload : RegisterRequest.t)
| UpdateUser (user : TokenPayload.t) (user_id : Z)
             (payload : UpdateUserRequest.t)
| DeleteUser (user : TokenPayload.t) (user_id : Z)
| InitDb.

Section AccountRequests.

Variable sha256_hexdigest : string -> string.
Variable create_token : Z -> Z -> string -> string -> string.
Variable JWT_EXPIRE_MINUTES : Z.

(** The backend after one request, whatever its outcome. *)
Definition serve_account (w : Backend) (r : account_request) : Backend :=
  match r with
  | Login now payload =>
      snd (login sha256_hexdigest create_token JWT_EXPIRE_MINUTES now payload
                 w)
  | Register user payload => snd (register sha256_hexdigest user payload w)
  | UpdateUser user user_id payload =>
      snd (admin_update_user sha256_hexdigest user user_id payload w)
  | DeleteUser user user_id => snd (admin_delete_user user user_id w)
  | InitDb => snd (init_db sha256_hexdigest w)
  end.

End AccountRequests.

(** The accounts are well formed, no stored user name holds a NUL
    character and every stored password digest is ASCII. *)
Definition accounts_sound (st : Store) : Prop :=
  users_wf st
  /\ Forall (fun row => has_nul (User.username row) = false
                        /\ isascii (User.password_hash row) = true)
            (users st).

(** [c] keeps the accounts sound, never takes the user id sequence back,
    and what it returns satisfies [Q]. *)
Definition post {A : Type} (c : Req A) (Q : A -> Prop) : Prop :=
  forall w,
    accounts_sound (store w) ->
    accounts_sound (store (snd (c w)))
    /\ users_id_seq (store w) <= users_id_seq (store (snd (c w)))
    /\ forall a, fst (c w) = Returned a -> Q a.

(** * Arithmetic behind the cryptosystem

    Congruences are kept as divisibility statements [(d | a - b)]; they are
    turned into equations between remainders only at the end. *)

Lemma divide_sub_mul d a a' b b' :
  (d | a - a') -> (d | b - b') -> (d | a * b - a' * b').
Proof.
  intros [x Hx] [y Hy]. exists (x * b + a' * y).
  replace (a * b - a' * b') with ((a - a') * b + a' * (b - b')) by ring.
  rewrite Hx, Hy. ring.
Qed.

Lemma divide_sub_pow d a b k :
  0 <= k -> (d | a - b) -> (d | a ^ k - b ^ k).
Proof.
  intros Hk H. pattern k. apply natlike_ind; [ | | assumption].
  - rewrite !Z.pow_0_r. exists 0. ring.
  - intros x Hx IH. rewrite !Z.pow_succ_r by assumption.
    apply divide_sub_mul; assumption.
Qed.

Lemma divide_sub_trans d a b c :
  (d | a - b) -> (d | b - c) -> (d | a - c).
Proof.
  intros [x Hx] [y Hy]. exists (x + y).
  replace (a - c) with ((a - b) + (b - c)) by ring. rewrite Hx, Hy. ring.
Qed.

Lemma divide_sub_mod d a : d <> 0 -> (d | a mod d - a).
Proof.
  intros Hd. exists (- (a / d)).
  pose proof (Z.div_mod a d Hd). lia.
Qed.

(** [(1 + a)^k = 1 + k a] modulo [a^2]. *)
Lemma one_plus_pow a k : 0 <= k -> (a * a | (1 + a) ^ k - (1 + k * a)).
Proof.
  intros Hk. pattern k. apply natlike_ind; [ | | assumption].
  - rewrite Z.pow_0_r. exists 0. ring.
  - intros x Hx [t Ht]. rewrite Z.pow_succ_r by assumption.
    exists ((1 + a) * t + x). unfold Z.succ.
    replace ((1 + a) * (1 + a) ^ x - (1 + (x + 1) * a))
      with ((1 + a) * ((1 + a) ^ x - (1 + x * a)) + x * (a * a)) by ring.
    rewrite Ht. ring.
Qed.

(** Euler's theorem for the square of a prime, from Fermat's little
    theorem. *)
Lemma fermat_square p r :
  Z.prime p -> ~ (p | r) -> (p * p | r ^ (p * (p - 1)) - 1).
Proof.
  intros Hp Hr. pose proof (Z.prime_ge_2 _ Hp) as Hp2.
  assert (Hnz : r mod p <> 0).
  { intro E. apply Hr. apply Z.mod_divide; [lia | exact E]. }
  assert (Hf : (p | r ^ (p - 1) - 1)).
  { pose proof (Z.div_mod (r ^ (p - 1)) p ltac:(lia)) as Hdm.
    rewrite (Z.fermat_nz p r Hp Hnz) in Hdm.
    exists (r ^ (p - 1) / p). lia. }
  set (a := r ^ (p - 1) - 1) in *.
  pose proof (one_plus_pow a p ltac:(lia)) as H1.
  replace (1 + a) with (r ^ (p - 1)) in H1 by (unfold a; ring).
  rewrite <- Z.pow_mul_r in H1 by lia.
  replace ((p - 1) * p) with (p * (p - 1)) in H1 by ring.
  destruct Hf as [t Ht]. destruct H1 as [u Hu].
  exists (u * t * t + t).
  replace (r ^ (p * (p - 1)) - 1)
    with ((r ^ (p * (p - 1)) - (1 + p * a)) + p * a) by ring.
  rewrite Hu, Ht. ring.
Qed.

Lemma pow_multiple_square p r e :
  Z.prime p -> ~ (p | r) -> 0 <= e -> (p * (p - 1) | e) ->
  (p * p | r ^ e - 1).
Proof.
  intros Hp Hr He [k Hk]. pose proof (Z.prime_ge_2 _ Hp) as Hp2.
  assert (Hk0 : 0 <= k) by nia.
  subst e. replace (k * (p * (p - 1))) with (p * (p - 1) * k) by ring.
  rewrite Z.pow_mul_r by nia.
  pose proof (divide_sub_pow (p * p) (r ^ (p * (p - 1))) 1 k Hk0
                (fermat_square p r Hp Hr)) as H.
  rewrite Z.pow_1_l in H by assumption. exact H.
Qed.

Lemma coprime_distinct_primes p q :
  Z.prime p -> Z.prime q -> p <> q -> Z.coprime p q.
Proof.
  intros Hp Hq Hne. apply Z.coprime_prime_l; [assumption|].
  intro Hd. apply (Z.divide_prime_prime p q Hp Hq) in Hd. contradiction.
Qed.

Lemma divide_squares_product p q x :
  Z.prime p -> Z.prime q -> p <> q ->
  (p * p | x) -> (q * q | x) -> (p * q * (p * q) | x).
Proof.
  intros Hp Hq Hne [k Hk] Hqx.
  pose proof (coprime_distinct_primes p q Hp Hq Hne) as Hc.
  assert (Hcq : Z.coprime q p) by (unfold Z.coprime in *; rewrite Z.gcd_comm; exact Hc).
  assert (Hc2 : Z.gcd (q * q) (p * p) = 1).
  { apply Z.coprime_mul_l; apply Z.coprime_mul_r; assumption. }
  subst x. rewrite (Z.mul_comm k) in Hqx.
  apply Z.gauss in Hqx; [|exact Hc2].
  destruct Hqx as [j Hj]. exists j. subst k. ring.
Qed.

(** What [_lcm] computes on positive arguments. *)
Lemma py_lcm_pos a b :
  0 < a -> 0 < b -> Z.abs (a * b) / Z.gcd a b = Z.lcm a b.
Proof.
  intros Ha Hb. unfold Z.lcm.
  pose proof (Z.gcd_nonneg a b) as Hg0.
  assert (Hg : Z.gcd a b <> 0).
  { intro E. apply Z.gcd_eq_0_l in E. lia. }
  rewrite (Z.abs_eq (a * b)) by nia.
  rewrite Z.divide_div_mul_exact by (auto using Z.gcd_divide_r).
  rewrite Z.abs_eq; [reflexivity|].
  apply Z.mul_nonneg_nonneg; [lia|]. apply Z.div_pos; lia.
Qed.

(** ** The Python operations where they do not raise *)

Lemma py_pow_nonneg b e m :
  m <> 0 -> 0 <= e -> py_pow b e m = Ok (b ^ e mod m).
Proof.
  intros Hm He. unfold py_pow.
  destruct (Z.eqb_spec m 0); [contradiction|].
  destruct (Z.leb_spec 0 e); [reflexivity | lia].
Qed.

Lemma py_mod_nz a b : b <> 0 -> py_mod a b = Ok (a mod b).
Proof.
  intros Hb. unfold py_mod. destruct (Z.eqb_spec b 0); [contradiction | reflexivity].
Qed.

Lemma py_floordiv_nz a b : b <> 0 -> py_floordiv a b = Ok (a / b).
Proof.
  intros Hb. unfold py_floordiv.
  destruct (Z.eqb_spec b 0); [contradiction | reflexivity].
Qed.

(** ** Residues modulo [n^2] *)

Lemma lift_mod n x y :
  1 < n -> (n * n | x - (1 + y * n)) -> x mod (n * n) = 1 + (y mod n) * n.
Proof.
  intros Hn Hx.
  pose proof (Z.mod_pos_bound y n ltac:(lia)) as Hb.
  apply Zdivide_mod_minus; [nia|].
  apply divide_sub_trans with (b := 1 + y * n); [exact Hx|].
  exists (y / n). pose proof (Z.div_mod y n ltac:(lia)) as Hdm.
  replace (1 + y * n - (1 + y mod n * n)) with ((y - y mod n) * n) by ring.
  replace (y - y mod n) with (n * (y / n)) by lia. ring.
Qed.

Lemma L_of_lift n y : 1 < n -> (1 + (y mod n) * n - 1) / n = y mod n.
Proof.
  intros Hn. replace (1 + y mod n * n - 1) with (y mod n * n) by ring.
  apply Z.div_mul. lia.
Qed.

Lemma not_divide_of_coprime p q r :
  Z.prime p -> Z.gcd r (p * q) = 1 -> ~ (p | r).
Proof.
  intros Hp Hg Hd. pose proof (Z.prime_ge_2 _ Hp) as Hp2.
  assert (Hd1 : (p | 1)).
  { rewrite <- Hg. apply Z.gcd_greatest; [exact Hd|]. exists q. ring. }
  apply Z.divide_1_r in Hd1. lia.
Qed.

(** [r^(n lam) = 1] modulo [n^2] when [lam] is a common multiple of [p - 1]
    and [q - 1]. *)
Lemma pow_n_lam p q r lam :
  Z.prime p -> Z.prime q -> p <> q -> Z.gcd r (p * q) = 1 ->
  0 <= lam -> (p - 1 | lam) -> (q - 1 | lam) ->
  (p * q * (p * q) | r ^ (p * q * lam) - 1).
Proof.
  intros Hp Hq Hne Hg Hlam [s Hs] [t Ht].
  pose proof (Z.prime_ge_2 _ Hp) as Hp2. pose proof (Z.prime_ge_2 _ Hq) as Hq2.
  apply divide_squares_product; try assumption.
  - apply pow_multiple_square; try assumption.
    + eapply not_divide_of_coprime; eassumption.
    + nia.
    + exists (q * s). rewrite Hs. ring.
  - apply pow_multiple_square; try assumption.
    + apply (not_divide_of_coprime q p); [assumption|].
      rewrite (Z.mul_comm q p). exact Hg.
    + nia.
    + exists (p * t). rewrite Ht. ring.
Qed.

(** ** Ciphertexts *)

Lemma encrypts_cong n m c c' :
  encrypts n m c -> (n * n | c' - c) -> encrypts n m c'.
Proof.
  intros (r & Hg & Hc) Hcc. exists r. split; [exact Hg|].
  eapply divide_sub_trans; eassumption.
Qed.

Lemma encrypts_mul n m1 m2 c1 c2 :
  0 <= n -> encrypts n m1 c1 -> encrypts n m2 c2 ->
  encrypts n (m1 + m2) (c1 * c2).
Proof.
  intros Hn (r1 & Hg1 & H1) (r2 & Hg2 & H2). exists (r1 * r2). split.
  - apply Z.coprime_mul_l; assumption.
  - rewrite Z.pow_mul_l.
    apply divide_sub_trans
      with (b := ((1 + m1 * n) * r1 ^ n) * ((1 + m2 * n) * r2 ^ n)).
    + apply divide_sub_mul; assumption.
    + exists (m1 * m2 * r1 ^ n * r2 ^ n). ring.
Qed.

Lemma encrypts_g_pow n m :
  0 <= n -> 0 <= m -> encrypts n m ((n + 1) ^ m).
Proof.
  intros Hn Hm. exists 1. split; [apply Z.gcd_1_l|].
  rewrite Z.pow_1_l, Z.mul_1_r by lia.
  replace (n + 1) with (1 + n) by ring. apply one_plus_pow. exact Hm.
Qed.

Lemma encrypts_r_pow n r : Z.gcd r n = 1 -> encrypts n 0 (r ^ n).
Proof.
  intros Hg. exists r. split; [exact Hg|]. exists 0. ring.
Qed.

(** ** Key generation *)

(** [generate_keypair] in closed form: it raises exactly when
    [lcm (p - 1) (q - 1)] is not invertible modulo [p q]. *)
Lemma generate_keypair_eq p q :
  2 <= p -> 2 <= q ->
  generate_keypair p q =
    if Z.gcd (Z.lcm (p - 1) (q - 1)) (p * q) =? 1
    then Ok (PublicKey.mk (p * q) (p * q + 1),
             PrivateKey.mk (Z.lcm (p - 1) (q - 1))
                           (Z.invmod (Z.lcm (p - 1) (q - 1)) (p * q))
                           (p * q))
    else Raise (ValueError "base is not invertible for the given modulus").
Proof.
  intros Hp2 Hq2.
  assert (Hn : 1 < p * q) by nia.
  assert (Hg : Z.gcd (p - 1) (q - 1) <> 0).
  { intro E. apply Z.gcd_eq_0_l in E. lia. }
  unfold generate_keypair, _lcm.
  rewrite py_floordiv_nz by exact Hg.
  rewrite py_lcm_pos by lia. cbn [bind].
  pose proof (Z.lcm_nonneg (p - 1) (q - 1)) as Hlam.
  rewrite py_pow_nonneg by nia. cbn [bind].
  rewrite py_floordiv_nz by lia. cbn [bind].
  replace (p * q + 1) with (1 + p * q) by ring.
  rewrite (lift_mod (p * q) _ (Z.lcm (p - 1) (q - 1)) Hn)
    by (apply one_plus_pow; exact Hlam).
  rewrite L_of_lift by exact Hn.
  unfold py_pow.
  destruct (Z.eqb_spec (p * q) 0) as [E|_]; [lia|].
  change (0 <=? -1) with false. cbv iota.
  rewrite Z.gcd_mod, (Z.gcd_comm (p * q)) by lia.
  destruct (Z.gcd (Z.lcm (p - 1) (q - 1)) (p * q) =? 1); cbn [bind];
    [|reflexivity].
  change (- -1) with 1. rewrite Z.pow_1_r.
  rewrite Z.abs_eq by lia. rewrite Z.mod_invmod, Z.invmod_mod_l.
  reflexivity.
Qed.

Lemma generate_keypair_keys p q pub priv :
  Z.prime p -> Z.prime q ->
  generate_keypair p q = Ok (pub, priv) -> keys_of p q pub priv.
Proof.
  intros Hp Hq.
  pose proof (Z.prime_ge_2 _ Hp) as Hp2. pose proof (Z.prime_ge_2 _ Hq) as Hq2.
  rewrite generate_keypair_eq by assumption.
  destruct (Z.eqb_spec (Z.gcd (Z.lcm (p - 1) (q - 1)) (p * q)) 1) as [Hc|Hc];
    [|discriminate].
  intros H.
  assert (Hpub : pub = PublicKey.mk (p * q) (p * q + 1)) by congruence.
  assert (Hpriv : priv = PrivateKey.mk (Z.lcm (p - 1) (q - 1))
            (Z.invmod (Z.lcm (p - 1) (q - 1)) (p * q)) (p * q))
    by congruence.
  clear H. subst pub priv. unfold keys_of.
  cbv beta iota delta
    [PublicKey.n PublicKey.g PrivateKey.n PrivateKey.lam PrivateKey.mu].
  repeat split; try reflexivity.
  - rewrite <- (Z.mod_invmod (p * q)). apply Z.mod_pos_bound. nia.
  - rewrite <- (Z.mod_invmod (p * q)). apply Z.mod_pos_bound. nia.
  - apply Z.invmod_coprime; [nia | exact Hc].
Qed.

(** ** Encryption and decryption on well-formed ciphertexts *)

Section ValidKey.

Variables (p q : Z) (pub : PublicKey.t) (priv : PrivateKey.t).
Hypothesis prime_p : Z.prime p.
Hypothesis prime_q : Z.prime q.
Hypothesis keys : keys_of p q pub priv.

Lemma n_gt_1 : 1 < p * q.
Proof.
  pose proof (Z.prime_ge_2 _ prime_p). pose proof (Z.prime_ge_2 _ prime_q).
  nia.
Qed.

Lemma encrypt_given m r tape :
  0 <= m < p * q ->
  encrypt pub m (Some r) tape =
    (Ok ((PublicKey.g pub ^ m mod PublicKey.n_sq pub)
         * (r ^ PublicKey.n pub mod PublicKey.n_sq pub)
         mod PublicKey.n_sq pub), tape).
Proof.
  intros Hm. pose proof n_gt_1 as Hn.
  destruct keys as (Kn & _). unfold encrypt, PublicKey.n_sq. rewrite Kn.
  destruct (Z.leb_spec 0 m); [|lia]. destruct (Z.ltb_spec m (p * q)); [|lia].
  cbn [andb negb bind].
  rewrite !py_pow_nonneg by nia. cbn [bind].
  rewrite py_mod_nz by nia. reflexivity.
Qed.

Lemma encrypt_given_encrypts m r tape :
  0 <= m < p * q -> Z.gcd r (p * q) = 1 ->
  exists c, encrypt pub m (Some r) tape = (Ok c, tape) /\ encrypts (p * q) m c.
Proof.
  intros Hm Hr. pose proof n_gt_1 as Hn.
  rewrite encrypt_given by exact Hm.
  eexists. split; [reflexivity|].
  destruct keys as (Kn & Kg & _). unfold PublicKey.n_sq. rewrite Kn, Kg.
  assert (Hnn : p * q * (p * q) <> 0) by nia.
  eapply encrypts_cong; [|apply divide_sub_mod; exact Hnn].
  replace m with (m + 0) at 1 by ring.
  apply encrypts_mul; [lia| |].
  - eapply encrypts_cong; [|apply divide_sub_mod; exact Hnn].
    apply encrypts_g_pow; lia.
  - eapply encrypts_cong; [|apply divide_sub_mod; exact Hnn].
    apply encrypts_r_pow. exact Hr.
Qed.

Lemma add_encrypts m1 m2 c1 c2 :
  encrypts (p * q) m1 c1 -> encrypts (p * q) m2 c2 ->
  exists c3, add pub c1 c2 = Ok c3 /\ encrypts (p * q) (m1 + m2) c3.
Proof.
  intros H1 H2. pose proof n_gt_1 as Hn.
  destruct keys as (Kn & _). unfold add, PublicKey.n_sq. rewrite Kn.
  assert (Hnn : p * q * (p * q) <> 0) by nia.
  rewrite py_mod_nz by exact Hnn. eexists. split; [reflexivity|].
  eapply encrypts_cong; [|apply divide_sub_mod; exact Hnn].
  apply encrypts_mul; [lia | assumption | assumption].
Qed.

Lemma add_plain_encrypts m1 m2 c :
  encrypts (p * q) m1 c -> 0 <= m2 ->
  exists c', add_plain pub c m2 = Ok c' /\ encrypts (p * q) (m1 + m2) c'.
Proof.
  intros H1 H2. pose proof n_gt_1 as Hn.
  destruct keys as (Kn & Kg & _).
  unfold add_plain, PublicKey.n_sq. rewrite Kn, Kg.
  assert (Hnn : p * q * (p * q) <> 0) by nia.
  rewrite py_pow_nonneg by assumption. cbn [bind].
  rewrite py_mod_nz by exact Hnn. eexists. split; [reflexivity|].
  eapply encrypts_cong; [|apply divide_sub_mod; exact Hnn].
  apply encrypts_mul; [lia | assumption |].
  eapply encrypts_cong; [|apply divide_sub_mod; exact Hnn].
  apply encrypts_g_pow; lia.
Qed.

(** [decrypt] never raises under a generated key, whatever [c] is. *)
Lemma decrypt_total c :
  decrypt priv c =
    Ok (((c ^ PrivateKey.lam priv mod (p * q * (p * q)) - 1) / (p * q)
         * PrivateKey.mu priv)
        mod (p * q)).
Proof.
  pose proof n_gt_1 as Hn.
  destruct keys as (_ & _ & Kn & Klam & _).
  unfold decrypt, PrivateKey.n_sq. rewrite Kn.
  pose proof (Z.lcm_nonneg (p - 1) (q - 1)) as Hlam. rewrite <- Klam in Hlam.
  rewrite py_pow_nonneg by nia. cbn [bind].
  rewrite py_floordiv_nz by lia. cbn [bind].
  rewrite py_mod_nz by lia. reflexivity.
Qed.

Hypothesis distinct : p <> q.

Lemma decrypt_encrypts m c :
  encrypts (p * q) m c -> decrypt priv c = Ok (m mod (p * q)).
Proof.
  intros (r & Hr & Hc). pose proof n_gt_1 as Hn.
  rewrite decrypt_total. f_equal.
  destruct keys as (_ & _ & _ & Klam & _ & Kmu).
  set (lam := PrivateKey.lam priv) in *. set (mu := PrivateKey.mu priv) in *.
  assert (Hlam : 0 <= lam) by (rewrite Klam; apply Z.lcm_nonneg).
  assert (Hx : (p * q * (p * q) | c ^ lam - (1 + lam * m * (p * q)))).
  { apply divide_sub_trans
      with (b := ((1 + m * (p * q)) * r ^ (p * q)) ^ lam).
    - apply divide_sub_pow; assumption.
    - rewrite Z.pow_mul_l, <- Z.pow_mul_r by lia.
      replace (1 + lam * m * (p * q))
        with ((1 + lam * (m * (p * q))) * 1) by ring.
      apply divide_sub_mul.
      + apply Z.divide_trans with (m := m * (p * q) * (m * (p * q))).
        * exists (m * m). ring.
        * apply one_plus_pow. exact Hlam.
      + apply pow_n_lam; try assumption; rewrite Klam.
        * apply Z.divide_lcm_l.
        * apply Z.divide_lcm_r. }
  rewrite (lift_mod (p * q) _ _ Hn Hx), L_of_lift by exact Hn.
  rewrite Z.mul_mod_idemp_l by lia.
  replace (lam * m * mu) with (m * (mu * lam)) by ring.
  rewrite Z.mul_mod by lia. rewrite Kmu, Z.mul_1_r.
  apply Z.mod_mod. lia.
Qed.

End ValidKey.

(** ** The sampling loop of [encrypt] *)

Lemma admissible_test n r :
  (1 <=? r) && (r <? n) && (Z.gcd r n =? 1) = true <-> admissible n r.
Proof.
  unfold admissible.
  rewrite !andb_true_iff, Z.leb_le, Z.ltb_lt, Z.eqb_eq. tauto.
Qed.

Lemma sample_r_skips n rejected r rest :
  Forall (fun x => ~ admissible n x) rejected -> admissible n r ->
  sample_r n (rejected ++ r :: rest) = (Ok r, rest).
Proof.
  intros Hrej Hr. induction Hrej as [|x l Hx _ IH]; cbn [app sample_r].
  - apply admissible_test in Hr. rewrite Hr. reflexivity.
  - destruct ((1 <=? x) && (x <? n) && (Z.gcd x n =? 1)) eqn:E.
    + apply admissible_test in E. contradiction.
    + exact IH.
Qed.

Lemma sample_r_inv n tape r rest :
  sample_r n tape = (Ok r, rest) ->
  admissible n r /\
  exists rejected,
    tape = rejected ++ r :: rest /\ Forall (fun x => ~ admissible n x) rejected.
Proof.
  induction tape as [|x l IH]; cbn [sample_r]; [discriminate|].
  destruct ((1 <=? x) && (x <? n) && (Z.gcd x n =? 1)) eqn:E.
  - intros H. injection H as -> ->. split.
    + apply admissible_test. exact E.
    + exists []. split; [reflexivity | constructor].
  - intros H. destruct (IH H) as (Ha & rejected & -> & Hrej). split; [exact Ha|].
    exists (x :: rejected). split; [reflexivity|]. constructor; [|exact Hrej].
    intro Hx. apply admissible_test in Hx. congruence.
Qed.

Lemma encrypt_in_range pub m r tape :
  0 <= m < PublicKey.n pub ->
  encrypt pub m r tape =
    match r with
    | Some r0 => (Ok (ciphertext_of pub m r0), tape)
    | None =>
        match sample_r (PublicKey.n pub) tape with
        | (Ok r0, tape') => (Ok (ciphertext_of pub m r0), tape')
        | (Raise e, tape') => (Raise e, tape')
        | (OutOfDraws, tape') => (OutOfDraws, tape')
        end
    end.
Proof.
  intros Hm. unfold encrypt, ciphertext_of, PublicKey.n_sq.
  destruct (Z.leb_spec 0 m); [|lia].
  destruct (Z.ltb_spec m (PublicKey.n pub)); [|lia].
  cbn [andb negb].
  assert (Hnn : PublicKey.n pub * PublicKey.n pub <> 0) by nia.
  destruct r as [r0|].
  - cbn [bind]. rewrite !py_pow_nonneg by lia. cbn [bind].
    rewrite py_mod_nz by exact Hnn. reflexivity.
  - destruct (sample_r (PublicKey.n pub) tape) as [[r0|e|] tape'];
      cbn [bind]; try reflexivity.
    rewrite !py_pow_nonneg by lia. cbn [bind].
    rewrite py_mod_nz by exact Hnn. reflexivity.
Qed.

Lemma encrypt_out_of_range pub m r tape :
  ~ (0 <= m < PublicKey.n pub) ->
  encrypt pub m r tape = (Raise (ValueError "message out of range"), tape).
Proof.
  intros Hm. unfold encrypt.
  destruct (Z.leb_spec 0 m); destruct (Z.ltb_spec m (PublicKey.n pub));
    cbn [andb negb]; try reflexivity.
  lia.
Qed.

Lemma sample_r_never_raises n tape e rest :
  sample_r n tape <> (Raise e, rest).
Proof.
  induction tape as [|x l IH]; cbn [sample_r]; [discriminate|].
  destruct ((1 <=? x) && (x <? n) && (Z.gcd x n =? 1)); [discriminate | exact IH].
Qed.

(** * The cryptosystem: statements about the code *)

Lemma prime_5 : Z.prime 5.
Proof.
  split; [lia|]. intros k Hk [j Hj].
  assert (Hc : k = 2 \/ k = 3 \/ k = 4) by lia.
  destruct Hc as [-> | [-> | ->]]; lia.
Qed.

Lemma prime_7 : Z.prime 7.
Proof.
  split; [lia|]. intros k Hk [j Hj].
  assert (Hc : k = 2 \/ k = 3 \/ k = 4 \/ k = 5 \/ k = 6) by lia.
  destruct Hc as [-> | [-> | [-> | [-> | ->]]]]; lia.
Qed.

(** C2 (round trip).  For a key pair returned by [generate_keypair] on
    distinct primes [p] and [q], every plaintext [m] in [[0, n)] and every
    randomness [r] in [[1, n)] coprime to [n]: [encrypt(pub, m, r)] returns a
    ciphertext [c], and [decrypt(priv, c)] returns [m]. *)
Theorem decrypt_encrypt_roundtrip p q pub priv m r tape :
  Z.prime p -> Z.prime q -> p <> q ->
  generate_keypair p q = Ok (pub, priv) ->
  0 <= m < PublicKey.n pub ->
  admissible (PublicKey.n pub) r ->
  exists c,
    encrypt pub m (Some r) tape = (Ok c, tape) /\ decrypt priv c = Ok m.
Proof.
  intros Hp Hq Hne Hgen Hm [_ Hr].
  pose proof (generate_keypair_keys p q pub priv Hp Hq Hgen) as K.
  pose proof K as (Kn & _). rewrite Kn in *.
  destruct (encrypt_given_encrypts p q pub priv Hp Hq K m r tape Hm Hr)
    as (c & Hc & He).
  exists c. split; [exact Hc|].
  rewrite (decrypt_encrypts p q pub priv Hp Hq K Hne m c He).
  rewrite Z.mod_small by exact Hm. reflexivity.
Qed.

Lemma decrypt_encrypt_roundtrip_witness :
  exists c,
    encrypt (PublicKey.mk 35 36) 3 (Some 2) [] = (Ok c, [])
    /\ decrypt (PrivateKey.mk 12 3 35) c = Ok 3.
Proof.
  apply (decrypt_encrypt_roundtrip 5 7 (PublicKey.mk 35 36)
           (PrivateKey.mk 12 3 35) 3 2 []).
  - exact prime_5.
  - exact prime_7.
  - lia.
  - reflexivity.
  - cbn. lia.
  - split; [cbn; lia | reflexivity].
Defined.

(** C1 (homomorphism).  Under such a key pair, for plaintexts [m1], [m2] in
    [[0, n)] with [m1 + m2 < n] and admissible randomness [r1], [r2]:
    [decrypt(priv, add(pub, encrypt(pub, m1), encrypt(pub, m2)))] returns
    [m1 + m2], and no call on the way raises. *)
Theorem homomorphic_addition p q pub priv m1 m2 r1 r2 tape :
  Z.prime p -> Z.prime q -> p <> q ->
  generate_keypair p q = Ok (pub, priv) ->
  0 <= m1 < PublicKey.n pub -> 0 <= m2 < PublicKey.n pub ->
  m1 + m2 < PublicKey.n pub ->
  admissible (PublicKey.n pub) r1 -> admissible (PublicKey.n pub) r2 ->
  exists c1 c2 c3,
    encrypt pub m1 (Some r1) tape = (Ok c1, tape)
    /\ encrypt pub m2 (Some r2) tape = (Ok c2, tape)
    /\ add pub c1 c2 = Ok c3
    /\ decrypt priv c3 = Ok (m1 + m2).
Proof.
  intros Hp Hq Hne Hgen Hm1 Hm2 Hsum [_ Hr1] [_ Hr2].
  pose proof (generate_keypair_keys p q pub priv Hp Hq Hgen) as K.
  pose proof K as (Kn & _). rewrite Kn in *.
  destruct (encrypt_given_encrypts p q pub priv Hp Hq K m1 r1 tape Hm1 Hr1)
    as (c1 & Hc1 & He1).
  destruct (encrypt_given_encrypts p q pub priv Hp Hq K m2 r2 tape Hm2 Hr2)
    as (c2 & Hc2 & He2).
  destruct (add_encrypts p q pub priv Hp Hq K m1 m2 c1 c2 He1 He2)
    as (c3 & Hc3 & He3).
  exists c1, c2, c3. repeat split; try assumption.
  rewrite (decrypt_encrypts p q pub priv Hp Hq K Hne _ c3 He3).
  rewrite Z.mod_small by lia. reflexivity.
Qed.

Lemma homomorphic_addition_witness :
  exists c1 c2 c3,
    encrypt (PublicKey.mk 35 36) 20 (Some 2) [] = (Ok c1, [])
    /\ encrypt (PublicKey.mk 35 36) 14 (Some 33) [] = (Ok c2, [])
    /\ add (PublicKey.mk 35 36) c1 c2 = Ok c3
    /\ decrypt (PrivateKey.mk 12 3 35) c3 = Ok (20 + 14).
Proof.
  apply (homomorphic_addition 5 7 (PublicKey.mk 35 36)
           (PrivateKey.mk 12 3 35) 20 14 2 33 []).
  - exact prime_5.
  - exact prime_7.
  - lia.
  - reflexivity.
  - cbn. lia.
  - cbn. lia.
  - cbn. lia.
  - split; [cbn; lia | reflexivity].
  - split; [cbn; lia | reflexivity].
Defined.

(** C9 (plaintext addition).  Under such a key pair, for [m1], [m2] in
    [[0, n)] with [m1 + m2 < n] and admissible [r]:
    [decrypt(priv, add_plain(pub, encrypt(pub, m1), m2))] returns [m1 + m2],
    where [add_plain(pub, c, m)] is [(c * (g^m mod n_sq)) mod n_sq]. *)
Theorem add_plain_correct p q pub priv m1 m2 r tape :
  Z.prime p -> Z.prime q -> p <> q ->
  generate_keypair p q = Ok (pub, priv) ->
  0 <= m1 < PublicKey.n pub -> 0 <= m2 < PublicKey.n pub ->
  m1 + m2 < PublicKey.n pub ->
  admissible (PublicKey.n pub) r ->
  exists c1 c',
    encrypt pub m1 (Some r) tape = (Ok c1, tape)
    /\ add_plain pub c1 m2 = Ok c'
    /\ c' = c1 * (PublicKey.g pub ^ m2 mod PublicKey.n_sq pub)
            mod PublicKey.n_sq pub
    /\ decrypt priv c' = Ok (m1 + m2).
Proof.
  intros Hp Hq Hne Hgen Hm1 Hm2 Hsum [_ Hr].
  pose proof (generate_keypair_keys p q pub priv Hp Hq Hgen) as K.
  pose proof K as (Kn & _). rewrite Kn in *.
  destruct (encrypt_given_encrypts p q pub priv Hp Hq K m1 r tape Hm1 Hr)
    as (c1 & Hc1 & He1).
  destruct (add_plain_encrypts p q pub priv Hp Hq K m1 m2 c1 He1 ltac:(lia))
    as (c' & Hc' & He').
  exists c1, c'. split; [exact Hc1|]. split; [exact Hc'|]. split.
  - pose proof (n_gt_1 p q Hp Hq) as Hn.
    unfold add_plain, PublicKey.n_sq in *. rewrite Kn in Hc' |- *.
    rewrite py_pow_nonneg in Hc' by nia. cbn [bind] in Hc'.
    rewrite py_mod_nz in Hc' by nia. congruence.
  - rewrite (decrypt_encrypts p q pub priv Hp Hq K Hne _ c' He').
    rewrite Z.mod_small by lia. reflexivity.
Qed.

Lemma add_plain_correct_witness :
  exists c1 c',
    encrypt (PublicKey.mk 35 36) 3 (Some 2) [] = (Ok c1, [])
    /\ add_plain (PublicKey.mk 35 36) c1 4 = Ok c'
    /\ c' = c1 * (36 ^ 4 mod (35 * 35)) mod (35 * 35)
    /\ decrypt (PrivateKey.mk 12 3 35) c' = Ok (3 + 4).
Proof.
  apply (add_plain_correct 5 7 (PublicKey.mk 35 36)
           (PrivateKey.mk 12 3 35) 3 4 2 []).
  - exact prime_5.
  - exact prime_7.
  - lia.
  - reflexivity.
  - cbn. lia.
  - cbn. lia.
  - cbn. lia.
  - split; [cbn; lia | reflexivity].
Defined.

(** C8 (decryption is total).  Under a key pair returned by
    [generate_keypair] on primes, [decrypt(priv, c)] returns for every
    integer [c] (non-negative or not, a ciphertext under the key or not),
    and what it returns lies in [[0, n)]. *)
Theorem decrypt_never_raises p q pub priv c :
  Z.prime p -> Z.prime q ->
  generate_keypair p q = Ok (pub, priv) ->
  exists m, decrypt priv c = Ok m /\ 0 <= m < PrivateKey.n priv.
Proof.
  intros Hp Hq Hgen.
  pose proof (generate_keypair_keys p q pub priv Hp Hq Hgen) as K.
  rewrite (decrypt_total p q pub priv Hp Hq K c).
  eexists. split; [reflexivity|].
  destruct K as (_ & _ & Kn & _). rewrite Kn.
  apply Z.mod_pos_bound. pose proof (n_gt_1 p q Hp Hq). lia.
Qed.

Lemma decrypt_never_raises_witness :
  exists m, decrypt (PrivateKey.mk 12 3 35) 0 = Ok m /\ 0 <= m < 35.
Proof.
  apply (decrypt_never_raises 5 7 (PublicKey.mk 35 36)
           (PrivateKey.mk 12 3 35) 0).
  - exact prime_5.
  - exact prime_7.
  - reflexivity.
Defined.

(** C7 ([encrypt]).  [encrypt(pub, m, r)] raises, and then raises
    "message out of range", exactly when [m] is outside [[0, n)].  For [m]
    in range it returns [(g^m mod n_sq) * (r^n mod n_sq) mod n_sq]: with the
    [r] that was passed, or, when none was passed, with the first draw that
    lies in [[1, n)] and is coprime to [n], the draws before it being
    discarded; any [r] it draws itself is of that kind. *)
Theorem encrypt_contract pub m r tape :
  ((exists e, fst (encrypt pub m r tape) = Raise e)
   <-> ~ (0 <= m < PublicKey.n pub))
  /\ (forall e, fst (encrypt pub m r tape) = Raise e ->
                e = ValueError "message out of range")
  /\ (0 <= m < PublicKey.n pub ->
      (forall r0, r = Some r0 ->
         encrypt pub m r tape = (Ok (ciphertext_of pub m r0), tape))
      /\ (forall rejected r0 rest,
            r = None -> tape = rejected ++ r0 :: rest ->
            Forall (fun x => ~ admissible (PublicKey.n pub) x) rejected ->
            admissible (PublicKey.n pub) r0 ->
            encrypt pub m r tape = (Ok (ciphertext_of pub m r0), rest))
      /\ (forall c rest,
            r = None -> encrypt pub m r tape = (Ok c, rest) ->
            exists r0, admissible (PublicKey.n pub) r0
                       /\ c = ciphertext_of pub m r0)).
Proof.
  assert (Hin : 0 <= m < PublicKey.n pub ->
                forall e, fst (encrypt pub m r tape) <> Raise e).
  { intros Hm e. rewrite encrypt_in_range by exact Hm.
    destruct r as [r0|]; [discriminate|].
    destruct (sample_r (PublicKey.n pub) tape) as [[r0|e'|] tape'] eqn:E;
      try discriminate.
    exfalso. exact (sample_r_never_raises _ _ _ _ E). }
  assert (Hdec : 0 <= m < PublicKey.n pub \/ ~ (0 <= m < PublicKey.n pub))
    by lia.
  split; [|split].
  - split.
    + intros [e He] Hm. exact (Hin Hm e He).
    + intros Hm. eexists. rewrite encrypt_out_of_range by exact Hm.
      reflexivity.
  - intros e He. destruct Hdec as [Hm|Hm].
    + exfalso. exact (Hin Hm e He).
    + rewrite encrypt_out_of_range in He by exact Hm. cbn in He. congruence.
  - intros Hm. split; [|split].
    + intros r0 ->. rewrite encrypt_in_range by exact Hm. reflexivity.
    + intros rejected r0 rest -> -> Hrej Hr0.
      rewrite encrypt_in_range by exact Hm.
      rewrite (sample_r_skips _ _ _ _ Hrej Hr0). reflexivity.
    + intros c rest -> Hc. rewrite encrypt_in_range in Hc by exact Hm.
      destruct (sample_r (PublicKey.n pub) tape) as [[r0|e'|] tape'] eqn:E;
        try discriminate.
      apply sample_r_inv in E. destruct E as (Ha & _).
      exists r0. split; [exact Ha | congruence].
Qed.

Lemma encrypt_contract_witness :
  encrypt small_pub 35 None [0; 5; 8; 9]
  = (Raise (ValueError "message out of range"), [0; 5; 8; 9])
  /\ encrypt small_pub 3 (Some 2) [0; 5; 8; 9]
     = (Ok (ciphertext_of small_pub 3 2), [0; 5; 8; 9])
  /\ encrypt small_pub 3 None [0; 5; 8; 9]
     = (Ok (ciphertext_of small_pub 3 8), [9]).
Proof.
  split; [|split].
  - destruct (encrypt_contract small_pub 35 None [0; 5; 8; 9])
      as (Hiff & Honly & _).
    assert (Hout : ~ (0 <= 35 < PublicKey.n small_pub)) by (cbn; lia).
    destruct (proj2 Hiff Hout) as [e He].
    pose proof (Honly e He) as ->. reflexivity.
  - destruct (encrypt_contract small_pub 3 (Some 2) [0; 5; 8; 9])
      as (_ & _ & Hin).
    destruct (Hin ltac:(cbn; lia)) as (Hgiven & _).
    apply Hgiven. reflexivity.
  - destruct (encrypt_contract small_pub 3 None [0; 5; 8; 9])
      as (_ & _ & Hin).
    destruct (Hin ltac:(cbn; lia)) as (_ & Hdrawn & _).
    apply (Hdrawn [0; 5] 8 [9]).
    + reflexivity.
    + reflexivity.
    + repeat constructor; unfold admissible; cbn; intros [? ?]; lia.
    + split; [cbn; lia | reflexivity].
Defined.

(** C6, as the code behaves.  [generate_keypair] never compares its two
    primes: when both draws are the same prime [p] it returns the key pair
    with [n = p^2], [g = p^2 + 1], [lam = p - 1] and [mu] the inverse of
    [p - 1] modulo [p^2]. *)
Theorem generate_keypair_equal_primes p :
  Z.prime p ->
  generate_keypair p p =
    Ok (PublicKey.mk (p * p) (p * p + 1),
        PrivateKey.mk (p - 1) (Z.invmod (p - 1) (p * p)) (p * p)).
Proof.
  intros Hp. pose proof (Z.prime_ge_2 _ Hp) as Hp2.
  rewrite generate_keypair_eq by assumption.
  rewrite Z.lcm_diag_nonneg by lia.
  assert (Hc : Z.coprime (p - 1) p).
  { apply Z.coprime_Bezout. exists (-1), 1. ring. }
  assert (Hc2 : Z.gcd (p - 1) (p * p) = 1).
  { apply Z.coprime_mul_r; exact Hc. }
  rewrite Hc2. reflexivity.
Qed.

Lemma generate_keypair_equal_primes_witness :
  generate_keypair 3 3 =
    Ok (PublicKey.mk (3 * 3) (3 * 3 + 1),
        PrivateKey.mk (3 - 1) (Z.invmod (3 - 1) (3 * 3)) (3 * 3)).
Proof.
  apply (generate_keypair_equal_primes 3). exact Z.prime_3.
Defined.

(** C6, as stated, fails: on the equal primes [p = q = 3] key generation
    returns a key pair; with it [encrypt(pub, 1, 2)] is [17], which
    [decrypt] turns into [7]. *)
Lemma generate_keypair_accepts_3_3 :
  Z.prime 3
  /\ generate_keypair 3 3 = Ok (PublicKey.mk 9 10, PrivateKey.mk 2 5 9)
  /\ encrypt (PublicKey.mk 9 10) 1 (Some 2) [] = (Ok 17, [])
  /\ decrypt (PrivateKey.mk 2 5 9) 17 = Ok 7.
Proof.
  split; [exact Z.prime_3|]. repeat split; reflexivity.
Qed.

(** X2 (when key generation raises).  On primes [p] and [q], equal or not,
    [generate_keypair] raises (the [ValueError] of [pow(l_val, -1, n)])
    exactly when [lcm (p - 1) (q - 1)] shares a factor with [p q], and
    returns a key pair otherwise. *)
Theorem generate_keypair_raises_iff p q :
  Z.prime p -> Z.prime q ->
  (generate_keypair p q
   = Raise (ValueError "base is not invertible for the given modulus")
   <-> Z.gcd (Z.lcm (p - 1) (q - 1)) (p * q) <> 1)
  /\ ((exists keypair, generate_keypair p q = Ok keypair)
      <-> Z.gcd (Z.lcm (p - 1) (q - 1)) (p * q) = 1).
Proof.
  intros Hp Hq.
  pose proof (Z.prime_ge_2 _ Hp) as Hp2. pose proof (Z.prime_ge_2 _ Hq) as Hq2.
  rewrite generate_keypair_eq by assumption.
  destruct (Z.eqb_spec (Z.gcd (Z.lcm (p - 1) (q - 1)) (p * q)) 1) as [E|E].
  - split; split; try discriminate; try congruence.
    intros _. eexists. reflexivity.
  - split; split; try congruence.
    intros [keypair H]. discriminate.
Qed.

Lemma generate_keypair_raises_iff_witness :
  generate_keypair 3 7
  = Raise (ValueError "base is not invertible for the given modulus")
  /\ exists keypair, generate_keypair 5 7 = Ok keypair.
Proof.
  split.
  - apply (generate_keypair_raises_iff 3 7 Z.prime_3 prime_7). discriminate.
  - apply (generate_keypair_raises_iff 5 7 prime_5 prime_7). reflexivity.
Defined.

(** * The audit hash chain *)

Lemma option_string_eqb_eq a b : option_string_eqb a b = true <-> a = b.
Proof.
  destruct a as [x|], b as [y|]; cbn; try (split; congruence).
  rewrite String.eqb_eq. split; congruence.
Qed.

Lemma option_string_eqb_neq a b : a <> b -> option_string_eqb a b = false.
Proof.
  intros Hne. destruct (option_string_eqb a b) eqn:E; [|reflexivity].
  apply option_string_eqb_eq in E. contradiction.
Qed.

Lemma update_at_length {A : Type} (f : A -> A) l i :
  List.length (update_at i f l) = List.length l.
Proof.
  revert i. induction l as [|x l IH]; intros [|i]; cbn; auto.
Qed.

Lemma linked_tail a rest : linked (a :: rest) -> linked rest.
Proof.
  intros H i x y Hx Hy. exact (H (S i) x y Hx Hy).
Qed.

Lemma linked_head a b rest :
  linked (a :: b :: rest) ->
  AuditLog.prev_hash b = Some (AuditLog.payload_hash a).
Proof.
  intros H. exact (H O a b eq_refl eq_refl).
Qed.

Lemma chain_loop_linked rest : forall a,
  linked (a :: rest) ->
  chain_loop (Some (AuditLog.payload_hash a)) rest = None.
Proof.
  induction rest as [|b rest IH]; intros a H; cbn [chain_loop];
    [reflexivity|].
  rewrite (linked_head _ _ _ H).
  rewrite (proj2 (option_string_eqb_eq _ _) eq_refl). cbn [negb].
  apply IH. exact (linked_tail _ _ H).
Qed.

Lemma chain_loop_prev_tampered rest : forall a j row v,
  linked (a :: rest) -> nth_error rest j = Some row ->
  v <> AuditLog.prev_hash row ->
  chain_loop (Some (AuditLog.payload_hash a)) (set_prev_hash j v rest)
  = Some (AuditLog.id row).
Proof.
  unfold set_prev_hash.
  induction rest as [|b rest IH]; intros a j row v H Hj Hv.
  - destruct j; discriminate.
  - pose proof (linked_head _ _ _ H) as Hb.
    destruct j as [|j]; cbn [update_at chain_loop AuditLog.prev_hash
                              AuditLog.id AuditLog.payload_hash].
    + injection Hj as <-. rewrite option_string_eqb_neq by congruence.
      reflexivity.
    + rewrite Hb, (proj2 (option_string_eqb_eq _ _) eq_refl). cbn [negb].
      apply IH; [exact (linked_tail _ _ H) | exact Hj | exact Hv].
Qed.

Lemma chain_loop_payload_tampered rest : forall a j row next v,
  linked (a :: rest) ->
  nth_error rest j = Some row -> nth_error rest (S j) = Some next ->
  v <> AuditLog.payload_hash row ->
  chain_loop (Some (AuditLog.payload_hash a)) (set_payload_hash j v rest)
  = Some (AuditLog.id next).
Proof.
  unfold set_payload_hash.
  induction rest as [|b rest IH]; intros a j row next v H Hj Hn Hv.
  - destruct j; discriminate.
  - pose proof (linked_head _ _ _ H) as Hb.
    destruct j as [|j]; cbn [update_at chain_loop AuditLog.prev_hash
                              AuditLog.id AuditLog.payload_hash].
    + injection Hj as <-. destruct rest as [|c rest]; [discriminate|].
      injection Hn as <-.
      rewrite Hb, (proj2 (option_string_eqb_eq _ _) eq_refl). cbn [negb].
      cbn [chain_loop].
      rewrite (linked_head _ _ _ (linked_tail _ _ H)).
      rewrite option_string_eqb_neq by congruence. reflexivity.
    + rewrite Hb, (proj2 (option_string_eqb_eq _ _) eq_refl). cbn [negb].
      apply (IH b j row next v);
        [exact (linked_tail _ _ H) | exact Hj | exact Hn | exact Hv].
Qed.

Lemma chain_loop_last_payload rows : forall prev v,
  chain_loop prev (set_payload_hash (List.length rows - 1) v rows)
  = chain_loop prev rows.
Proof.
  unfold set_payload_hash.
  induction rows as [|a rows IH]; intros prev v; [reflexivity|].
  destruct rows as [|b rows].
  - cbn. destruct prev; reflexivity.
  - replace (List.length (a :: b :: rows) - 1)%nat
      with (S (List.length (b :: rows) - 1)) by (cbn; lia).
    cbn [update_at chain_loop].
    destruct prev as [pp|]; [|apply IH].
    destruct (negb (option_string_eqb (AuditLog.prev_hash a) (Some pp)));
      [reflexivity | apply IH].
Qed.

Lemma chain_loop_first_prev rows v :
  chain_loop None (set_prev_hash 0 v rows) = chain_loop None rows.
Proof.
  destruct rows as [|a rows]; reflexivity.
Qed.

Lemma verify_hash_chain_of_rows db db' :
  chain_loop None (order_by_id_asc (logs db'))
  = chain_loop None (order_by_id_asc (logs db)) ->
  List.length (order_by_id_asc (logs db'))
  = List.length (order_by_id_asc (logs db)) ->
  verify_hash_chain db' = verify_hash_chain db.
Proof.
  intros Hloop Hlen. unfold verify_hash_chain. rewrite Hloop, Hlen.
  reflexivity.
Qed.

Lemma linked_two_entries : linked two_entries.
Proof.
  intros [|[|i]] a b Ha Hb; cbn in Ha, Hb; try discriminate.
  injection Ha as <-. injection Hb as <-. reflexivity.
Qed.

(** C4, as the code behaves.  On a linked chain of [k] entries
    [verify_hash_chain] answers [ok = true, length = k].  Changing the
    [prev_hash] of an entry other than the first makes it answer
    [ok = false] with that entry's id; changing the [payload_hash] of an
    entry that has a successor makes it answer [ok = false] with the
    successor's id.  In both cases that is the first entry whose
    [prev_hash] differs from the [payload_hash] before it. *)
Theorem verify_hash_chain_tampering db rows :
  order_by_id_asc (logs db) = rows -> linked rows ->
  verify_hash_chain db
  = ChainReport.mk true (Z.of_nat (List.length rows)) None
  /\ (forall db' i row v,
        order_by_id_asc (logs db') = set_prev_hash i v rows ->
        (0 < i)%nat -> nth_error rows i = Some row ->
        v <> AuditLog.prev_hash row ->
        verify_hash_chain db'
        = ChainReport.mk false (Z.of_nat (List.length rows))
                         (Some (AuditLog.id row)))
  /\ (forall db' i row next v,
        order_by_id_asc (logs db') = set_payload_hash i v rows ->
        nth_error rows i = Some row -> nth_error rows (S i) = Some next ->
        v <> AuditLog.payload_hash row ->
        verify_hash_chain db'
        = ChainReport.mk false (Z.of_nat (List.length rows))
                         (Some (AuditLog.id next))).
Proof.
  intros Hrows Hl. split; [|split].
  - unfold verify_hash_chain. rewrite Hrows.
    destruct rows as [|a rest]; [reflexivity|].
    cbn [chain_loop]. rewrite (chain_loop_linked rest a Hl). reflexivity.
  - intros db' i row v Hrows' Hi Hn Hv.
    unfold verify_hash_chain. rewrite Hrows'.
    unfold set_prev_hash at 2 3. rewrite update_at_length.
    destruct rows as [|a rest]; [destruct i; discriminate|].
    destruct i as [|j]; [lia|].
    unfold set_prev_hash. cbn [update_at chain_loop].
    fold (set_prev_hash j v rest).
    rewrite (chain_loop_prev_tampered rest a j row v Hl Hn Hv). reflexivity.
  - intros db' i row next v Hrows' Hn Hnext Hv.
    unfold verify_hash_chain. rewrite Hrows'.
    unfold set_payload_hash at 2 3. rewrite update_at_length.
    destruct rows as [|a rest]; [destruct i; discriminate|].
    destruct i as [|j].
    + injection Hn as <-. destruct rest as [|b rest]; [discriminate|].
      injection Hnext as <-.
      unfold set_payload_hash.
      cbn [update_at chain_loop AuditLog.payload_hash].
      rewrite (linked_head _ _ _ Hl).
      rewrite option_string_eqb_neq by congruence. reflexivity.
    + unfold set_payload_hash. cbn [update_at chain_loop].
      fold (set_payload_hash j v rest).
      rewrite (chain_loop_payload_tampered rest a j row next v Hl Hn Hnext Hv).
      reflexivity.
Qed.

Lemma verify_hash_chain_tampering_witness :
  verify_hash_chain (audit_db two_entries) = ChainReport.mk true 2 None
  /\ verify_hash_chain (audit_db (set_prev_hash 1 (Some "bogus") two_entries))
     = ChainReport.mk false 2 (Some 2)
  /\ verify_hash_chain (audit_db (set_payload_hash 0 "bogus" two_entries))
     = ChainReport.mk false 2 (Some 2).
Proof.
  destruct (verify_hash_chain_tampering (audit_db two_entries) two_entries
              eq_refl linked_two_entries) as (H1 & H2 & H3).
  split; [exact H1|]. split.
  - apply (H2 _ 1%nat (AuditLog.mk 2 "vote_received" "h2" (Some "h1"))
              (Some "bogus")).
    + reflexivity.
    + lia.
    + reflexivity.
    + discriminate.
  - apply (H3 _ 0%nat (AuditLog.mk 1 "vote_received" "h1" None)
              (AuditLog.mk 2 "vote_received" "h2" (Some "h1")) "bogus").
    + reflexivity.
    + reflexivity.
    + reflexivity.
    + discriminate.
Defined.

(** C4, as stated, fails: in the linked chain [two_entries], overwriting
    the first entry's [prev_hash], or the last entry's [payload_hash], is a
    change of one entry after which [verify_hash_chain] still answers
    [ok = true]. *)
Lemma tampering_at_the_ends_undetected :
  linked two_entries
  /\ set_prev_hash 0 (Some "bogus") two_entries <> two_entries
  /\ verify_hash_chain (audit_db (set_prev_hash 0 (Some "bogus") two_entries))
     = ChainReport.mk true 2 None
  /\ set_payload_hash 1 "bogus" two_entries <> two_entries
  /\ verify_hash_chain (audit_db (set_payload_hash 1 "bogus" two_entries))
     = ChainReport.mk true 2 None.
Proof.
  split; [exact linked_two_entries|].
  repeat split; try reflexivity; discriminate.
Qed.

(** C10 (what the walk never reads).  The answer of [verify_hash_chain]
    does not depend on the first entry's [prev_hash] nor on the last
    entry's [payload_hash]: overwriting either leaves [ok], [length] and
    [broken_id] as they were.  A table of at most one entry is always
    answered [ok = true]. *)
Theorem verify_hash_chain_ignores_ends db rows :
  order_by_id_asc (logs db) = rows ->
  (forall db' v,
     order_by_id_asc (logs db') = set_prev_hash 0 v rows ->
     verify_hash_chain db' = verify_hash_chain db)
  /\ (forall db' v,
        order_by_id_asc (logs db')
        = set_payload_hash (List.length rows - 1) v rows ->
        verify_hash_chain db' = verify_hash_chain db)
  /\ ((List.length rows <= 1)%nat ->
      verify_hash_chain db
      = ChainReport.mk true (Z.of_nat (List.length rows)) None).
Proof.
  intros Hrows. split; [|split].
  - intros db' v Hrows'. apply verify_hash_chain_of_rows.
    + rewrite Hrows', Hrows. apply chain_loop_first_prev.
    + rewrite Hrows', Hrows. apply update_at_length.
  - intros db' v Hrows'. apply verify_hash_chain_of_rows.
    + rewrite Hrows', Hrows. apply chain_loop_last_payload.
    + rewrite Hrows', Hrows. apply update_at_length.
  - intros Hlen. unfold verify_hash_chain. rewrite Hrows.
    destruct rows as [|a [|b rest]]; [reflexivity | reflexivity |].
    cbn in Hlen. lia.
Qed.

Lemma verify_hash_chain_ignores_ends_witness :
  verify_hash_chain (audit_db (set_prev_hash 0 (Some "x") two_entries))
  = verify_hash_chain (audit_db two_entries)
  /\ verify_hash_chain (audit_db (set_payload_hash 1 "y" two_entries))
     = verify_hash_chain (audit_db two_entries)
  /\ verify_hash_chain
       (audit_db [AuditLog.mk 7 "vote_received" "zz" (Some "dangling")])
     = ChainReport.mk true 1 None.
Proof.
  destruct (verify_hash_chain_ignores_ends (audit_db two_entries)
              two_entries eq_refl) as (H1 & H2 & _).
  split; [apply (H1 _ (Some "x")); reflexivity|].
  split; [apply (H2 _ "y"); reflexivity|].
  destruct (verify_hash_chain_ignores_ends
              (audit_db [AuditLog.mk 7 "vote_received" "zz" (Some "dangling")])
              _ eq_refl) as (_ & _ & H3).
  apply H3. cbn. lia.
Defined.

(** * What the columns take *)

Ltac split_columns :=
  repeat match goal with
         | |- context [match varchar ?w ?v with _ => _ end] =>
             destruct (varchar w v)
         | |- context [match integer ?v with _ => _ end] =>
             destruct (integer v)
         end.

Lemma split_chars_fits width s :
  (py_len s <= width)%nat -> split_chars width s = (s, EmptyString).
Proof.
  revert width. induction s as [|c s IH]; intros width Hlen; [reflexivity|].
  cbn [split_chars py_len] in *.
  destruct (is_continuation_byte c).
  - rewrite (IH width Hlen). reflexivity.
  - destruct width as [|width]; [lia|].
    rewrite (IH width) by lia. reflexivity.
Qed.

Lemma varchar_fits width s :
  fits width s = true -> varchar width s = Some s.
Proof.
  unfold fits, varchar. intros H. apply andb_true_iff in H.
  destruct H as [Hnul Hlen]. apply negb_true_iff in Hnul.
  apply Nat.leb_le in Hlen. rewrite Hnul, (split_chars_fits _ _ Hlen).
  reflexivity.
Qed.

Lemma fits_no_nul width s : fits width s = true -> has_nul s = false.
Proof.
  unfold fits. intros H. apply andb_true_iff in H. destruct H as [H _].
  apply negb_true_iff in H. exact H.
Qed.

Lemma split_chars_app width s kept excess :
  split_chars width s = (kept, excess) -> s = (kept ++ excess)%string.
Proof.
  revert width kept excess.
  induction s as [|c s IH]; intros width kept excess; cbn [split_chars].
  - intros E. injection E as <- <-. reflexivity.
  - destruct (is_continuation_byte c).
    + destruct (split_chars width s) as [k e] eqn:Es.
      intros E. injection E as <- <-. cbn [String.append].
      rewrite (IH _ _ _ Es). reflexivity.
    + destruct width as [|width].
      * intros E. injection E as <- <-. reflexivity.
      * destruct (split_chars width s) as [k e] eqn:Es.
        intros E. injection E as <- <-. cbn [String.append].
        rewrite (IH _ _ _ Es). reflexivity.
Qed.

Lemma split_chars_len width s kept excess :
  split_chars width s = (kept, excess) -> (py_len kept <= width)%nat.
Proof.
  revert width kept excess.
  induction s as [|c s IH]; intros width kept excess; cbn [split_chars].
  - intros E. injection E as <- <-. cbn. lia.
  - destruct (is_continuation_byte c) eqn:Ec.
    + destruct (split_chars width s) as [k e] eqn:Es.
      intros E. injection E as <- <-. cbn [py_len]. rewrite Ec.
      exact (IH _ _ _ Es).
    + destruct width as [|width].
      * intros E. injection E as <- <-. cbn. lia.
      * destruct (split_chars width s) as [k e] eqn:Es.
        intros E. injection E as <- <-. cbn [py_len]. rewrite Ec.
        pose proof (IH _ _ _ Es). lia.
Qed.

Lemma has_nul_app a b : has_nul (a ++ b) = has_nul a || has_nul b.
Proof.
  unfold has_nul.
  induction a as [|c a IH]; cbn [String.append list_ascii_of_string existsb];
    [reflexivity|].
  rewrite IH, orb_assoc. reflexivity.
Qed.

(** What a [String(width)] column has stored fits it, and held no NUL
    character when it came. *)
Lemma varchar_stored width value stored :
  varchar width value = Some stored ->
  fits width stored = true /\ has_nul value = false.
Proof.
  unfold varchar, fits. destruct (has_nul value) eqn:Hnul; [discriminate|].
  destruct (split_chars width value) as [kept excess] eqn:Es.
  destruct (only_spaces excess); [|discriminate].
  intros E. injection E as <-. split; [|reflexivity].
  pose proof (split_chars_len _ _ _ _ Es) as Hlen.
  apply split_chars_app in Es. subst value.
  rewrite has_nul_app in Hnul. apply orb_false_iff in Hnul.
  destruct Hnul as [-> _]. cbn [negb andb]. apply Nat.leb_le. exact Hlen.
Qed.

(** A value within the width is stored as it is, or not at all. *)
Lemma varchar_short width value stored :
  (py_len value <= width)%nat ->
  varchar width value = Some stored -> stored = value.
Proof.
  intros Hlen. unfold varchar. destruct (has_nul value); [discriminate|].
  rewrite (split_chars_fits _ _ Hlen). cbn. intros E. injection E as <-.
  reflexivity.
Qed.

Lemma varchar_nul width value :
  has_nul value = true -> varchar width value = None.
Proof. intros H. unfold varchar. rewrite H. reflexivity. Qed.

(** * Recording a vote *)

Lemma active_filter_nil db question_id :
  filter (fun q => (Question.question_id q =? question_id)%string
                   && Bool.eqb (Question.is_active q) true)
         (questions db) = []
  <-> has_active_question db question_id = false.
Proof.
  unfold has_active_question.
  induction (questions db) as [|q qs IH]; cbn [filter existsb];
    [tauto|].
  replace (Bool.eqb (Question.is_active q) true)
    with (Question.is_active q) by (destruct (Question.is_active q); reflexivity).
  destruct ((Question.question_id q =? question_id)%string
            && Question.is_active q); cbn [orb].
  - split; discriminate.
  - exact IH.
Qed.

Lemma insert_identity_keeps h a db :
  logs (insert_identity h a db) = logs db
  /\ votes (insert_identity h a db) = votes db
  /\ questions (insert_identity h a db) = questions db
  /\ logs_id_seq (insert_identity h a db) = logs_id_seq db
  /\ votes_id_seq (insert_identity h a db) = votes_id_seq db.
Proof.
  unfold insert_identity. destruct (existsb _ (participants db));
    repeat split; reflexivity.
Qed.

Lemma insert_vote_refused question_id participant_hash ciphertext key_id conn :
  varchar 64 question_id = None \/ has_nul ciphertext = true
  \/ varchar 64 key_id = None ->
  insert_vote question_id participant_hash ciphertext key_id conn = None.
Proof.
  unfold insert_vote, text. intros [H | [H | H]]; rewrite H.
  - reflexivity.
  - destruct (varchar 64 question_id); reflexivity.
  - destruct (varchar 64 question_id), (has_nul ciphertext); reflexivity.
Qed.

Lemma insert_vote_accepted question_id participant_hash ciphertext key_id conn
    question_id' key_id' :
  varchar 64 question_id = Some question_id' ->
  has_nul ciphertext = false ->
  varchar 64 key_id = Some key_id' ->
  insert_vote question_id participant_hash ciphertext key_id conn
  = Some (Vote.mk (votes_id_seq conn + 1) question_id' participant_hash
                  ciphertext key_id',
          mkDatabase (questions conn) (participants conn)
            (votes conn
             ++ [Vote.mk (votes_id_seq conn + 1) question_id' participant_hash
                         ciphertext key_id'])
            (logs conn) (votes_id_seq conn + 1) (logs_id_seq conn)).
Proof.
  intros Hq Hc Hk. unfold insert_vote, text. rewrite Hq, Hc, Hk. reflexivity.
Qed.

(** Whether PostgreSQL takes the three values of a vote, from the
    values. *)
Lemma insert_vote_decided question_id ciphertext key_id :
  (varchar 64 question_id = None \/ has_nul ciphertext = true
   \/ varchar 64 key_id = None)
  \/ (exists question_id' key_id',
        varchar 64 question_id = Some question_id'
        /\ has_nul ciphertext = false
        /\ varchar 64 key_id = Some key_id').
Proof.
  destruct (varchar 64 question_id) as [question_id'|]; [|auto].
  destruct (has_nul ciphertext); [auto|].
  destruct (varchar 64 key_id) as [key_id'|]; [|auto].
  right. exists question_id', key_id'. auto.
Qed.

Section RecordVote.

Variable sha256_hexdigest : string -> string.

Lemma record_vote_nul db question_id participant_id agent_id ciphertext
    key_id :
  has_nul question_id = true ->
  record_vote sha256_hexdigest db question_id participant_id agent_id
              ciphertext key_id
  = (DBAPIError, db).
Proof.
  intros Hnul. unfold record_vote, engine_begin, text. rewrite Hnul.
  destruct db; reflexivity.
Qed.

Lemma record_vote_inactive db question_id participant_id agent_id
    ciphertext key_id :
  has_nul question_id = false ->
  has_active_question db question_id = false ->
  record_vote sha256_hexdigest db question_id participant_id agent_id
              ciphertext key_id
  = (Raised (ValueError "Question invalide ou inactive"), db).
Proof.
  intros Hnul Hq. apply active_filter_nil in Hq.
  unfold record_vote, engine_begin, text. rewrite Hnul, Hq.
  destruct db; reflexivity.
Qed.

Lemma record_vote_refused db question_id participant_id agent_id
    ciphertext key_id :
  has_nul question_id = false ->
  has_active_question db question_id = true ->
  varchar 64 question_id = None \/ has_nul ciphertext = true
  \/ varchar 64 key_id = None ->
  record_vote sha256_hexdigest db question_id participant_id agent_id
              ciphertext key_id
  = (DBAPIError, db).
Proof.
  intros Hnul Hq Hno.
  assert (Hne : filter (fun q => (Question.question_id q =? question_id)%string
                                 && Bool.eqb (Question.is_active q) true)
                       (questions db) <> []).
  { intro E. apply active_filter_nil in E. congruence. }
  unfold record_vote, engine_begin, text, hash_identifier. rewrite Hnul.
  destruct (filter _ (questions db)) as [|q0 qs]; [contradiction|].
  rewrite (insert_vote_refused _ _ _ _ _ Hno).
  destruct (insert_identity_keeps (sha256_hexdigest participant_id)
              (sha256_hexdigest agent_id) db) as (_ & _ & _ & -> & ->).
  destruct db; reflexivity.
Qed.

Lemma record_vote_accepted db question_id participant_id agent_id
    ciphertext key_id question_id' key_id' :
  has_active_question db question_id = true ->
  varchar 64 question_id = Some question_id' ->
  has_nul ciphertext = false ->
  varchar 64 key_id = Some key_id' ->
  record_vote sha256_hexdigest db question_id participant_id agent_id
              ciphertext key_id
  = (Returned (VoteMeta.mk (votes_id_seq db + 1) question_id'
                 (sha256_hexdigest participant_id) key_id),
     committed_vote db (sha256_hexdigest participant_id)
       (sha256_hexdigest agent_id) question_id' ciphertext key_id'
       (sha256_hexdigest
          (question_id ++ ":" ++ ciphertext ++ ":" ++ key_id)%string)).
Proof.
  intros Hq Hvq Hc Hvk.
  assert (Hne : filter (fun q => (Question.question_id q =? question_id)%string
                                 && Bool.eqb (Question.is_active q) true)
                       (questions db) <> []).
  { intro E. apply active_filter_nil in E. congruence. }
  destruct (varchar_stored _ _ _ Hvq) as [_ Hnul].
  unfold record_vote, engine_begin, text, hash_identifier. rewrite Hnul.
  destruct (filter _ (questions db)) as [|q0 qs]; [contradiction|].
  rewrite (insert_vote_accepted _ _ _ _ _ _ _ Hvq Hc Hvk).
  unfold committed_vote, insert_audit, select_last_payload_hash, insert_identity.
  destruct (existsb _ (participants db)); reflexivity.
Qed.

Lemma send_vote_nul db payload :
  has_nul (VoteRequest.question_id payload) = true ->
  send_vote sha256_hexdigest db payload = (DBAPIError, db).
Proof.
  intros H. unfold send_vote. rewrite (record_vote_nul _ _ _ _ _ _ H).
  reflexivity.
Qed.

Lemma send_vote_inactive db payload :
  has_nul (VoteRequest.question_id payload) = false ->
  has_active_question db (VoteRequest.question_id payload) = false ->
  send_vote sha256_hexdigest db payload
  = (Raised (HTTPException 400 "Question invalide ou inactive"), db).
Proof.
  intros Hnul Hq. unfold send_vote.
  rewrite (record_vote_inactive _ _ _ _ _ _ Hnul Hq). reflexivity.
Qed.

Lemma send_vote_refused db payload :
  has_nul (VoteRequest.question_id payload) = false ->
  has_active_question db (VoteRequest.question_id payload) = true ->
  varchar 64 (VoteRequest.question_id payload) = None
  \/ has_nul (VoteRequest.ciphertext payload) = true
  \/ varchar 64 (VoteRequest.key_id payload) = None ->
  send_vote sha256_hexdigest db payload = (DBAPIError, db).
Proof.
  intros Hnul Hq Hno. unfold send_vote.
  rewrite (record_vote_refused _ _ _ _ _ _ Hnul Hq Hno). reflexivity.
Qed.

Lemma send_vote_accepted db payload question_id' key_id' :
  has_active_question db (VoteRequest.question_id payload) = true ->
  varchar 64 (VoteRequest.question_id payload) = Some question_id' ->
  has_nul (VoteRequest.ciphertext payload) = false ->
  varchar 64 (VoteRequest.key_id payload) = Some key_id' ->
  send_vote sha256_hexdigest db payload
  = (Returned (VoteStored.mk "stored" (votes_id_seq db + 1) question_id'
                 (VoteRequest.key_id payload)),
     committed_vote db
       (sha256_hexdigest (VoteRequest.participant_id payload))
       (sha256_hexdigest (VoteRequest.agent_id payload))
       question_id' (VoteRequest.ciphertext payload) key_id'
       (sha256_hexdigest
          (VoteRequest.question_id payload ++ ":"
           ++ VoteRequest.ciphertext payload ++ ":"
           ++ VoteRequest.key_id payload)%string)).
Proof.
  intros Hq Hvq Hc Hvk. unfold send_vote.
  rewrite (record_vote_accepted _ _ _ _ _ _ _ _ Hq Hvq Hc Hvk). reflexivity.
Qed.

(** A request is refused, and the database is as it was, or it is
    accepted, and the block of [record_vote] is committed. *)
Lemma send_vote_cases db payload :
  ((forall answer,
      fst (send_vote sha256_hexdigest db payload) <> Returned answer)
   /\ snd (send_vote sha256_hexdigest db payload) = db)
  \/ (exists question_id' key_id',
        has_active_question db (VoteRequest.question_id payload) = true
        /\ varchar 64 (VoteRequest.question_id payload) = Some question_id'
        /\ has_nul (VoteRequest.ciphertext payload) = false
        /\ varchar 64 (VoteRequest.key_id payload) = Some key_id'
        /\ send_vote sha256_hexdigest db payload
           = (Returned (VoteStored.mk "stored" (votes_id_seq db + 1)
                          question_id' (VoteRequest.key_id payload)),
              committed_vote db
                (sha256_hexdigest (VoteRequest.participant_id payload))
                (sha256_hexdigest (VoteRequest.agent_id payload))
                question_id' (VoteRequest.ciphertext payload) key_id'
                (sha256_hexdigest
                   (VoteRequest.question_id payload ++ ":"
                    ++ VoteRequest.ciphertext payload ++ ":"
                    ++ VoteRequest.key_id payload)%string))).
Proof.
  destruct (has_nul (VoteRequest.question_id payload)) eqn:Hnul.
  { left. rewrite (send_vote_nul db payload Hnul). split; [discriminate|].
    reflexivity. }
  destruct (has_active_question db (VoteRequest.question_id payload)) eqn:Hq.
  2:{ left. rewrite (send_vote_inactive db payload Hnul Hq).
      split; [discriminate | reflexivity]. }
  destruct (insert_vote_decided (VoteRequest.question_id payload)
              (VoteRequest.ciphertext payload) (VoteRequest.key_id payload))
    as [Hno | (question_id' & key_id' & Hvq & Hc & Hvk)].
  - left. rewrite (send_vote_refused db payload Hnul Hq Hno).
    split; [discriminate | reflexivity].
  - right. exists question_id', key_id'.
    split; [reflexivity|]. repeat (split; [assumption|]).
    apply send_vote_accepted; assumption.
Qed.

(** C5 ([record_vote]).  The call raises the [ValueError] that
    [send_vote] turns into an HTTP 400 exactly when [question_id] holds no
    NUL character and no active question carries it; the database is then
    as it was.  With an active question, and values that PostgreSQL takes
    ([question_id] and [key_id] for their [String(64)] columns,
    [ciphertext] without a NUL character), it returns, and the committed
    transaction has added the identity if it was new, exactly one row to
    [votes] and exactly one row to the audit log, of type "vote_received",
    whose [payload_hash] is the hash of [question_id:ciphertext:key_id]
    and whose [prev_hash] is the payload hash of the latest entry before
    it.  In every other case (a NUL character in [question_id], or a
    value that the [votes] table refuses) it raises [DBAPIError], which
    [send_vote] does not catch, and the transaction is rolled back: no
    vote, no audit entry, and not the identity either, although it had
    been inserted. *)
Theorem record_vote_contract db question_id participant_id agent_id
    ciphertext key_id :
  let out :=
    record_vote sha256_hexdigest db question_id participant_id agent_id
                ciphertext key_id in
  let sent :=
    send_vote sha256_hexdigest db
      (VoteRequest.mk question_id participant_id agent_id ciphertext key_id)
  in
  let participant_hash := sha256_hexdigest participant_id in
  let known :=
    existsb (fun row =>
               (Participant.participant_hash row =? participant_hash)%string)
            (participants db) in
  ((exists msg, fst out = Raised (ValueError msg))
   <-> has_nul question_id = false
       /\ has_active_question db question_id = false)
  /\ (has_nul question_id = false ->
      has_active_question db question_id = false ->
      out = (Raised (ValueError "Question invalide ou inactive"), db)
      /\ sent
         = (Raised (HTTPException 400 "Question invalide ou inactive"), db))
  /\ (forall question_id' key_id',
        has_active_question db question_id = true ->
        varchar 64 question_id = Some question_id' ->
        has_nul ciphertext = false ->
        varchar 64 key_id = Some key_id' ->
        exists db',
          out
          = (Returned (VoteMeta.mk (votes_id_seq db + 1) question_id'
                         participant_hash key_id), db')
          /\ sent
             = (Returned (VoteStored.mk "stored" (votes_id_seq db + 1)
                            question_id' key_id), db')
          /\ votes db'
             = votes db
               ++ [Vote.mk (votes_id_seq db + 1) question_id'
                           participant_hash ciphertext key_id']
          /\ logs db'
             = logs db
               ++ [AuditLog.mk (logs_id_seq db + 1) "vote_received"
                     (sha256_hexdigest
                        (question_id ++ ":" ++ ciphertext ++ ":"
                         ++ key_id)%string)
                     (select_last_payload_hash db)]
          /\ questions db' = questions db
          /\ participants db'
             = (if known then participants db
                else participants db
                     ++ [Participant.mk participant_hash
                           (sha256_hexdigest agent_id)]))
  /\ (has_nul question_id = true
      \/ (has_active_question db question_id = true
          /\ (varchar 64 question_id = None \/ has_nul ciphertext = true
              \/ varchar 64 key_id = None)) ->
      fst out = DBAPIError /\ fst sent = DBAPIError
      /\ same_tables db (snd out) /\ snd sent = snd out).
Proof.
  intros out sent participant_hash known. subst out sent.
  assert (Hsent : forall res,
            record_vote sha256_hexdigest db question_id participant_id
              agent_id ciphertext key_id = res ->
            send_vote sha256_hexdigest db
              (VoteRequest.mk question_id participant_id agent_id ciphertext
                              key_id)
            = match res with
              | (Raised (ValueError e), db') =>
                  (Raised (HTTPException 400 e), db')
              | (vote_meta, db') =>
                  (outcome_map
                     (fun vote_meta =>
                        VoteStored.mk "stored" (VoteMeta.vote_id vote_meta)
                          (VoteMeta.question_id vote_meta)
                          (VoteMeta.key_id vote_meta))
                     vote_meta, db')
              end).
  { intros res <-. reflexivity. }
  split; [|split; [|split]].
  - destruct (has_nul question_id) eqn:Hnul.
    { rewrite (record_vote_nul db _ participant_id agent_id ciphertext key_id
                 Hnul).
      split; [intros (msg & E); discriminate E | intros [E _]; discriminate E]. }
    destruct (has_active_question db question_id) eqn:Hq.
    2:{ rewrite (record_vote_inactive db _ participant_id agent_id ciphertext
                   key_id Hnul Hq).
        split; [auto|]. intros _. eexists. reflexivity. }
    destruct (insert_vote_decided question_id ciphertext key_id)
      as [Hno | (question_id' & key_id' & Hvq & Hc & Hvk)].
    + rewrite (record_vote_refused db _ participant_id agent_id _ _ Hnul Hq
                 Hno).
      split; [intros (msg & E); discriminate E | intros [_ E]; discriminate E].
    + rewrite (record_vote_accepted db _ participant_id agent_id _ _ _ _ Hq
                 Hvq Hc Hvk).
      split; [intros (msg & E); discriminate E | intros [_ E]; discriminate E].
  - intros Hnul Hq.
    pose proof (record_vote_inactive db _ participant_id agent_id ciphertext
                  key_id Hnul Hq) as Hrec.
    split; [exact Hrec|]. rewrite (Hsent _ Hrec). reflexivity.
  - intros question_id' key_id' Hq Hvq Hc Hvk.
    pose proof (record_vote_accepted db _ participant_id agent_id _ _ _ _ Hq
                  Hvq Hc Hvk) as Hrec.
    eexists. split; [exact Hrec|]. split; [rewrite (Hsent _ Hrec); reflexivity|].
    unfold committed_vote, insert_identity. fold participant_hash.
    fold known. destruct known; repeat split; reflexivity.
  - intros Hno.
    assert (Hrec : record_vote sha256_hexdigest db question_id participant_id
                     agent_id ciphertext key_id = (DBAPIError, db)).
    { destruct Hno as [Hnul | (Hq & Hno)].
      - apply record_vote_nul. exact Hnul.
      - destruct (has_nul question_id) eqn:Hnul.
        + apply record_vote_nul. exact Hnul.
        + apply record_vote_refused; assumption. }
    rewrite (Hsent _ Hrec), Hrec. cbn [fst snd outcome_map].
    repeat split; reflexivity.
Qed.

End RecordVote.

Lemma record_vote_contract_witness :
  record_vote (fun v => "sha256:" ++ v)%string three_votes_db
    "q-none" "dave" "agent-1" "123" "key-v1"
  = (Raised (ValueError "Question invalide ou inactive"), three_votes_db)
  /\ (exists db',
        record_vote (fun v => "sha256:" ++ v)%string three_votes_db
          "q-demo" "dave" "agent-1" "123" "key-v1"
        = (Returned (VoteMeta.mk 5 "q-demo" "sha256:dave" "key-v1"), db')
        /\ votes db'
           = votes three_votes_db
             ++ [Vote.mk 5 "q-demo" "sha256:dave" "123" "key-v1"]
        /\ logs db'
           = [AuditLog.mk 1 "vote_received" "sha256:q-demo:123:key-v1" None]
        /\ participants db'
           = [Participant.mk "sha256:dave" "sha256:agent-1"])
  /\ fst (send_vote (fun v => "sha256:" ++ v)%string three_votes_db
            (VoteRequest.mk "q-demo" "dave" "agent-1" "123"
               (String Ascii.zero "key-v1")))
     = DBAPIError
  /\ same_tables three_votes_db
       (snd (record_vote (fun v => "sha256:" ++ v)%string three_votes_db
               "q-demo" "dave" "agent-1" "123" (String Ascii.zero "key-v1"))).
Proof.
  split; [|split].
  - destruct (record_vote_contract (fun v => "sha256:" ++ v)%string
                three_votes_db "q-none" "dave" "agent-1" "123" "key-v1")
      as (_ & Hfail & _).
    destruct (Hfail eq_refl eq_refl) as (Hrec & _). exact Hrec.
  - destruct (record_vote_contract (fun v => "sha256:" ++ v)%string
                three_votes_db "q-demo" "dave" "agent-1" "123" "key-v1")
      as (_ & _ & Hok & _).
    destruct (Hok "q-demo" "key-v1" eq_refl eq_refl eq_refl eq_refl)
      as (db' & Hrec & _ & Hvotes & Hlogs & _ & Hknown).
    exists db'. split; [exact Hrec|]. split; [exact Hvotes|].
    split; [exact Hlogs | exact Hknown].
  - destruct (record_vote_contract (fun v => "sha256:" ++ v)%string
                three_votes_db "q-demo" "dave" "agent-1" "123"
                (String Ascii.zero "key-v1"))
      as (_ & _ & _ & Hno).
    destruct Hno as (_ & Hsent & Hsame & _).
    + right. split; [reflexivity|]. right. right. reflexivity.
    + split; [exact Hsent | exact Hsame].
Defined.

(** C5, as stated, fails: "q-demo" is an active question of [busy_db], and
    a vote on it whose ciphertext holds a NUL character is not recorded.
    [record_vote] raises [DBAPIError], [send_vote] lets it through, and no
    table has changed: the identity of the new participant, inserted
    before the vote, is rolled back with it. *)
Lemma record_vote_refuses_a_nul :
  has_active_question busy_db "q-demo" = true
  /\ record_vote (fun v => "sha256:" ++ v)%string busy_db
       "q-demo" "dave" "agent-1" (String Ascii.zero "123") "key-v1"
     = (DBAPIError, busy_db)
  /\ send_vote (fun v => "sha256:" ++ v)%string busy_db
       (VoteRequest.mk "q-demo" "dave" "agent-1" (String Ascii.zero "123")
                       "key-v1")
     = (DBAPIError, busy_db)
  /\ existsb (fun row =>
                (Participant.participant_hash row =? "sha256:dave")%string)
             (participants busy_db)
     = false.
Proof. repeat split; reflexivity. Qed.

(** * Aggregation *)

Lemma py_int_str z : py_int (py_str z) = Ok z.
Proof.
  unfold py_int, py_str. rewrite NilZero.isi.
  - rewrite DecimalZ.of_to. reflexivity.
  - destruct z; cbn; try discriminate.
    intro E. injection E as E. exact (DecimalPos.Unsigned.to_uint_nonnil _ E).
  - destruct z; cbn; try discriminate.
    intro E. injection E as E. exact (DecimalPos.Unsigned.to_uint_nonnil _ E).
Qed.

Lemma call_encrypt_eq pub m r w :
  call_encrypt pub m r w
  = (of_result (fst (encrypt pub m r (tape w))),
     mkWorld (snd (encrypt pub m r (tape w))) (calls w ++ [CallEncrypt m])).
Proof.
  unfold call_encrypt, bindM, log_call. cbn [tape calls].
  destruct (encrypt pub m r (tape w)); reflexivity.
Qed.

Lemma call_add_eq pub c1 c2 w :
  call_add pub c1 c2 w
  = (of_result (add pub c1 c2),
     mkWorld (tape w) (calls w ++ [CallAdd c1 c2])).
Proof. reflexivity. Qed.

Lemma call_decrypt_eq priv c w :
  call_decrypt priv c w
  = (of_result (decrypt priv c),
     mkWorld (tape w) (calls w ++ [CallDecrypt c])).
Proof. reflexivity. Qed.

Lemma fold_rows_stored pub rows mrs :
  PublicKey.n pub <> 0 ->
  Forall2 (stored_vote pub) rows mrs ->
  forall agg w,
    fold_rows pub agg rows w
    = (Returned (fold_add pub agg
             (map (fun mr => ciphertext_of pub (fst mr) (snd mr)) mrs)),
       mkWorld (tape w)
         (calls w
          ++ add_calls pub agg
               (map (fun mr => ciphertext_of pub (fst mr) (snd mr)) mrs))).
Proof.
  intros Hn Hst. induction Hst as [|row mr rows mrs Hrow _ IH]; intros agg w.
  - cbn. rewrite app_nil_r. destruct w; reflexivity.
  - destruct Hrow as (-> & _ & _).
    cbn [fold_rows map add_calls]. unfold bindM at 1, lift at 1.
    rewrite py_int_str. cbn [of_result]. unfold bindM at 1.
    rewrite call_add_eq.
    unfold add. rewrite py_mod_nz by (unfold PublicKey.n_sq; nia).
    cbn [of_result].
    rewrite IH. cbn [tape calls]. rewrite <- app_assoc. reflexivity.
Qed.

Lemma is_decrypt_add_calls pub agg cs :
  filter is_decrypt (add_calls pub agg cs) = [].
Proof.
  revert agg. induction cs as [|c cs IH]; intros agg; cbn; auto.
Qed.

Section AggregateUnderKey.

Variables (p q : Z) (pub : PublicKey.t) (priv : PrivateKey.t).
Hypothesis prime_p : Z.prime p.
Hypothesis prime_q : Z.prime q.
Hypothesis distinct : p <> q.
Hypothesis keys : keys_of p q pub priv.

Lemma ciphertext_of_encrypts m r :
  0 <= m < PublicKey.n pub -> admissible (PublicKey.n pub) r ->
  encrypts (p * q) m (ciphertext_of pub m r).
Proof.
  intros Hm [_ Hr]. pose proof keys as (Kn & _). rewrite Kn in *.
  destruct (encrypt_given_encrypts p q pub priv prime_p prime_q keys
              m r [] Hm Hr) as (c & Hc & He).
  rewrite (encrypt_given p q pub priv prime_p prime_q keys m r [] Hm) in Hc.
  injection Hc as <-. exact He.
Qed.

Lemma fold_add_encrypts rows mrs :
  Forall2 (stored_vote pub) rows mrs ->
  forall agg m0,
    encrypts (p * q) m0 agg ->
    encrypts (p * q) (m0 + fold_right Z.add 0 (map fst mrs))
      (fold_add pub agg
         (map (fun mr => ciphertext_of pub (fst mr) (snd mr)) mrs)).
Proof.
  pose proof (n_gt_1 p q prime_p prime_q) as Hn.
  pose proof keys as (Kn & _).
  intros Hst. induction Hst as [|row mr rows mrs Hrow _ IH]; intros agg m0 H0.
  - cbn. rewrite Z.add_0_r. exact H0.
  - destruct Hrow as (_ & Hm & Hr).
    cbn [map fold_right]. unfold fold_add. cbn [fold_left].
    fold (fold_add pub
            (agg * ciphertext_of pub (fst mr) (snd mr) mod PublicKey.n_sq pub)
            (map (fun mr => ciphertext_of pub (fst mr) (snd mr)) mrs)).
    rewrite Z.add_assoc. apply IH.
    unfold PublicKey.n_sq. rewrite Kn.
    eapply encrypts_cong; [|apply divide_sub_mod; nia].
    apply encrypts_mul; [lia | exact H0 |].
    apply ciphertext_of_encrypts; assumption.
Qed.

End AggregateUnderKey.

Lemma fetch_votes_by_question_text db question_id key_id :
  has_nul question_id = false -> has_nul key_id = false ->
  fetch_votes_by_question db question_id key_id
  = Returned (ciphertexts_for db question_id key_id).
Proof.
  intros Hq Hk. unfold fetch_votes_by_question, text. rewrite Hq, Hk.
  reflexivity.
Qed.

Lemma fetch_votes_by_question_nul db question_id key_id :
  has_nul question_id = true \/ has_nul key_id = true ->
  fetch_votes_by_question db question_id key_id = DBAPIError.
Proof.
  unfold fetch_votes_by_question, text. intros [H | H]; rewrite H.
  - reflexivity.
  - destruct (has_nul question_id); reflexivity.
Qed.

Lemma aggregate_votes_rows keypair db question_id key_id w :
  has_nul question_id = false -> has_nul key_id = false ->
  aggregate_votes keypair db question_id key_id w
  = (let (pub, priv) := keypair in
     let rows := ciphertexts_for db question_id key_id in
     match rows with
     | [] => retM (AggregateResult.mk question_id key_id 0 None 0)
     | _ :: _ =>
         agg0 <~ call_encrypt pub 0 None;;
         agg <~ fold_rows pub agg0 rows;;
         total_plain <~ call_decrypt priv agg;;
         retM (AggregateResult.mk question_id key_id
                 (Z.of_nat (List.length rows)) (Some (py_str agg))
                 total_plain)
     end) w.
Proof.
  intros Hq Hk. unfold aggregate_votes. destruct keypair as [pub priv].
  unfold bindM at 1, query.
  rewrite (fetch_votes_by_question_text db _ _ Hq Hk). reflexivity.
Qed.

(** C3 ([aggregate_votes]).  The two identifiers are parameters of the
    query: when one of them holds a NUL character the query is refused,
    and [aggregate_votes] raises [DBAPIError] before any call to the
    cryptosystem.  Otherwise the query returns the ciphertexts stored for
    the pair.  With no stored row it returns [count = 0], [total = 0] and
    no aggregate ciphertext, and touches neither the random source nor the
    cryptosystem.  With rows that hold encryptions of plaintexts [ms] it
    returns [count] = the number of rows and [total] = the sum of [ms]
    modulo [n]; the calls it makes are one [encrypt(pub, 0)], one [add]
    per row, folding the rows into the accumulator in order, and then a
    single [decrypt] of the final accumulator.  Three rows encrypting 1, 1
    and 0 give [count = 3] and [total = 2]. *)
Theorem aggregate_votes_contract p q pub priv db question_id key_id w :
  Z.prime p -> Z.prime q -> p <> q ->
  generate_keypair p q = Ok (pub, priv) ->
  (has_nul question_id = true \/ has_nul key_id = true ->
   fetch_votes_by_question db question_id key_id = DBAPIError
   /\ aggregate_votes (pub, priv) db question_id key_id w = (DBAPIError, w))
  /\ (has_nul question_id = false -> has_nul key_id = false ->
      let rows := ciphertexts_for db question_id key_id in
      fetch_votes_by_question db question_id key_id = Returned rows
      /\ (rows = [] ->
          aggregate_votes (pub, priv) db question_id key_id w
          = (Returned (AggregateResult.mk question_id key_id 0 None 0), w))
      /\ (forall mrs rejected r0 rest,
            rows <> [] -> Forall2 (stored_vote pub) rows mrs ->
            tape w = rejected ++ r0 :: rest ->
            Forall (fun x => ~ admissible (PublicKey.n pub) x) rejected ->
            admissible (PublicKey.n pub) r0 ->
            let cs :=
              map (fun mr => ciphertext_of pub (fst mr) (snd mr)) mrs in
            let agg0 := ciphertext_of pub 0 r0 in
            let agg := fold_add pub agg0 cs in
            let made :=
              CallEncrypt 0 :: add_calls pub agg0 cs ++ [CallDecrypt agg] in
            aggregate_votes (pub, priv) db question_id key_id w
            = (Returned
                 (AggregateResult.mk question_id key_id
                    (Z.of_nat (List.length rows)) (Some (py_str agg))
                    (fold_right Z.add 0 (map fst mrs) mod PublicKey.n pub)),
               mkWorld rest (calls w ++ made))
            /\ List.length (filter is_decrypt made) = 1%nat
            /\ (map fst mrs = [1; 1; 0] ->
                Z.of_nat (List.length rows) = 3
                /\ fold_right Z.add 0 (map fst mrs) mod PublicKey.n pub = 2))).
Proof.
  intros Hp Hq Hne Hgen.
  pose proof (generate_keypair_keys p q pub priv Hp Hq Hgen) as K.
  pose proof K as (Kn & _).
  pose proof (n_gt_1 p q Hp Hq) as Hn.
  split.
  { intros Hnul.
    pose proof (fetch_votes_by_question_nul db _ _ Hnul) as Hfetch.
    split; [exact Hfetch|].
    unfold aggregate_votes, bindM, query. rewrite Hfetch. reflexivity. }
  intros Hnq Hnk rows.
  split; [exact (fetch_votes_by_question_text db _ _ Hnq Hnk)|].
  split.
  - intros Hrows. rewrite (aggregate_votes_rows _ db _ _ w Hnq Hnk).
    cbv zeta. fold rows. rewrite Hrows. reflexivity.
  - intros mrs rejected r0 rest Hrows Hst Htape Hrej Hr0 cs agg0 agg made.
    split; [|split].
    + rewrite (aggregate_votes_rows _ db _ _ w Hnq Hnk). cbv zeta.
      fold rows.
      destruct rows as [|row rows'] eqn:Erows; [contradiction|].
      unfold bindM at 1. rewrite call_encrypt_eq.
      rewrite encrypt_in_range by (rewrite Kn; lia).
      rewrite Htape, (sample_r_skips _ _ _ _ Hrej Hr0).
      cbn [fst snd of_result].
      unfold bindM at 1.
      rewrite (fold_rows_stored pub _ mrs ltac:(rewrite Kn; lia) Hst).
      cbn [tape calls]. fold cs. fold agg0. fold agg.
      unfold bindM at 1. rewrite call_decrypt_eq. cbn [tape calls].
      assert (He : encrypts (p * q) (0 + fold_right Z.add 0 (map fst mrs)) agg).
      { apply (fold_add_encrypts p q pub priv Hp Hq K _ mrs Hst).
        apply (ciphertext_of_encrypts p q pub priv Hp Hq K);
          [rewrite Kn; lia | exact Hr0]. }
      rewrite (decrypt_encrypts p q pub priv Hp Hq K Hne _ agg He).
      cbn [of_result].
      rewrite Z.add_0_l, Kn. unfold retM, made.
      rewrite <- !app_assoc. reflexivity.
    + unfold made. cbn [filter is_decrypt].
      rewrite filter_app, is_decrypt_add_calls. reflexivity.
    + intros Hms. split.
      * rewrite (Forall2_length Hst), <- (length_map fst), Hms. reflexivity.
      * rewrite Hms, Kn. cbn [fold_right]. apply Z.mod_small.
        pose proof (Z.prime_ge_2 _ Hp). pose proof (Z.prime_ge_2 _ Hq). nia.
Qed.

Lemma aggregate_votes_contract_witness :
  aggregate_votes (small_pub, small_priv) three_votes_db "q-none" "key-v1"
    (mkWorld [0; 5; 8; 9] [])
  = (Returned (AggregateResult.mk "q-none" "key-v1" 0 None 0),
     mkWorld [0; 5; 8; 9] [])
  /\ (exists agg made,
        aggregate_votes (small_pub, small_priv) three_votes_db "q-demo"
          "key-v1" (mkWorld [0; 5; 8; 9] [])
        = (Returned (AggregateResult.mk "q-demo" "key-v1" 3 (Some agg) 2),
           mkWorld [9] made)
        /\ List.length (filter is_decrypt made) = 1%nat)
  /\ aggregate_votes (small_pub, small_priv) three_votes_db
       (String Ascii.zero "q-demo") "key-v1" (mkWorld [0; 5; 8; 9] [])
     = (DBAPIError, mkWorld [0; 5; 8; 9] []).
Proof.
  split; [|split].
  - destruct (aggregate_votes_contract 5 7 small_pub small_priv
                three_votes_db "q-none" "key-v1" (mkWorld [0; 5; 8; 9] [])
                prime_5 prime_7 ltac:(lia) eq_refl) as (_ & H).
    destruct (H eq_refl eq_refl) as (_ & Hnone & _).
    apply Hnone. reflexivity.
  - destruct (aggregate_votes_contract 5 7 small_pub small_priv
                three_votes_db "q-demo" "key-v1" (mkWorld [0; 5; 8; 9] [])
                prime_5 prime_7 ltac:(lia) eq_refl) as (_ & H).
    destruct (H eq_refl eq_refl) as (_ & _ & Hrows).
    destruct (Hrows [(1, 2); (1, 3); (0, 11)] [0; 5] 8 [9])
      as (Hrun & Hone & _).
    + discriminate.
    + repeat constructor; cbn; lia.
    + reflexivity.
    + repeat constructor; unfold admissible; cbn; intros [? ?]; lia.
    + split; [cbn; lia | reflexivity].
    + eexists. eexists. split; [exact Hrun | exact Hone].
  - destruct (aggregate_votes_contract 5 7 small_pub small_priv
                three_votes_db (String Ascii.zero "q-demo") "key-v1"
                (mkWorld [0; 5; 8; 9] [])
                prime_5 prime_7 ltac:(lia) eq_refl) as (Hnul & _).
    apply Hnul. left. reflexivity.
Defined.

(** C3, as stated, fails: no row is stored in [three_votes_db] for the
    question identifier made of a NUL character and "q-demo", and
    [aggregate_votes] does not answer [count = 0] for it.  The query is
    refused and the call raises [DBAPIError], with the random source and
    the call log untouched. *)
Lemma aggregate_votes_refuses_a_nul :
  ciphertexts_for three_votes_db (String Ascii.zero "q-demo") "key-v1" = []
  /\ fetch_votes_by_question three_votes_db (String Ascii.zero "q-demo")
       "key-v1"
     = DBAPIError
  /\ aggregate_votes (small_pub, small_priv) three_votes_db
       (String Ascii.zero "q-demo") "key-v1" (mkWorld [0; 5; 8; 9] [])
     = (DBAPIError, mkWorld [0; 5; 8; 9] []).
Proof. repeat split; reflexivity. Qed.

(** * The chain that [record_vote] builds *)

Lemma order_by_id_asc_sorted rows :
  StronglySorted id_lt rows -> order_by_id_asc rows = rows.
Proof.
  induction 1 as [|a rows Hs IH Ha]; [reflexivity|].
  unfold order_by_id_asc in *. cbn [fold_right]. rewrite IH.
  destruct rows as [|b rows]; [reflexivity|]. cbn [insert_by_id].
  apply Forall_inv in Ha. unfold id_lt in Ha.
  destruct (Z.leb_spec (AuditLog.id a) (AuditLog.id b)); [reflexivity | lia].
Qed.

Lemma sorted_snoc rows row bound :
  StronglySorted id_lt rows ->
  Forall (fun r => AuditLog.id r <= bound) rows ->
  bound < AuditLog.id row ->
  StronglySorted id_lt (rows ++ [row]).
Proof.
  intros Hs Hb Hrow. induction Hs as [|a rows Hs IH Ha]; cbn [app].
  - constructor; constructor.
  - constructor.
    + apply IH. exact (Forall_inv_tail Hb).
    + apply Forall_app. split; [exact Ha|]. constructor; [|constructor].
      apply Forall_inv in Hb. unfold id_lt. lia.
Qed.

Lemma linked_cons a b rest :
  AuditLog.prev_hash b = Some (AuditLog.payload_hash a) ->
  linked (b :: rest) -> linked (a :: b :: rest).
Proof.
  intros Hab Hl [|i] x y Hx Hy.
  - cbn in Hx, Hy. injection Hx as <-. injection Hy as <-. exact Hab.
  - exact (Hl i x y Hx Hy).
Qed.

Lemma linked_snoc rows row :
  linked rows ->
  (forall r rest, rev rows = r :: rest ->
                  AuditLog.prev_hash row = Some (AuditLog.payload_hash r)) ->
  linked (rows ++ [row]).
Proof.
  induction rows as [|a rows IH]; intros Hl Hlast.
  - intros [|i] x y Hx Hy; cbn in Hx, Hy; [discriminate|].
    destruct i; discriminate.
  - destruct rows as [|b rows].
    + cbn [app]. apply linked_cons.
      * apply (Hlast a []). reflexivity.
      * intros [|i] x y Hx Hy; cbn in Hx, Hy; [discriminate|].
        destruct i; discriminate.
    + cbn [app]. apply linked_cons.
      * exact (linked_head _ _ _ Hl).
      * apply IH; [exact (linked_tail _ _ Hl)|].
        intros r rest Hrev. apply (Hlast r (rest ++ [a])).
        change (rev (a :: b :: rows)) with (rev (b :: rows) ++ [a]).
        rewrite Hrev. reflexivity.
Qed.

Lemma verify_hash_chain_wf db :
  chain_wf db ->
  verify_hash_chain db
  = ChainReport.mk true (Z.of_nat (List.length (logs db))) None.
Proof.
  intros (Hs & _ & Hl). unfold verify_hash_chain.
  rewrite (order_by_id_asc_sorted _ Hs).
  destruct (logs db) as [|a rest]; [reflexivity|].
  cbn [chain_loop]. rewrite (chain_loop_linked rest a Hl). reflexivity.
Qed.

Lemma committed_vote_chain db participant_hash agent_hash question_id
    ciphertext key_id payload_hash :
  chain_wf db ->
  chain_wf (committed_vote db participant_hash agent_hash question_id
              ciphertext key_id payload_hash).
Proof.
  intros (Hs & Hb & Hl). unfold chain_wf, committed_vote.
  cbn [logs logs_id_seq]. split; [|split].
  - eapply sorted_snoc; [exact Hs | exact Hb | cbn; lia].
  - apply Forall_app. split.
    + eapply Forall_impl; [|exact Hb]. cbn. intros. lia.
    + constructor; [cbn; lia | constructor].
  - apply linked_snoc; [exact Hl|]. intros r rest Hrev.
    cbn [AuditLog.prev_hash]. unfold select_last_payload_hash.
    rewrite (order_by_id_asc_sorted _ Hs), Hrev. reflexivity.
Qed.

Section AppendOnlyChain.

Variable sha256_hexdigest : string -> string.


Lemma send_vote_stored db payload :
  has_active_question db (VoteRequest.question_id payload) = true ->
  storable payload = true ->
  send_vote sha256_hexdigest db payload
  = (Returned (VoteStored.mk "stored" (votes_id_seq db + 1)
                 (VoteRequest.question_id payload)
                 (VoteRequest.key_id payload)),
     committed_vote db
       (sha256_hexdigest (VoteRequest.participant_id payload))
       (sha256_hexdigest (VoteRequest.agent_id payload))
       (VoteRequest.question_id payload) (VoteRequest.ciphertext payload)
       (VoteRequest.key_id payload)
       (sha256_hexdigest
          (VoteRequest.question_id payload ++ ":"
           ++ VoteRequest.ciphertext payload ++ ":"
           ++ VoteRequest.key_id payload)%string)).
Proof.
  intros Hq Hst. unfold storable in Hst.
  apply andb_true_iff in Hst. destruct Hst as [Hst Hk].
  apply andb_true_iff in Hst. destruct Hst as [Hfq Hc].
  apply negb_true_iff in Hc.
  apply send_vote_accepted; [exact Hq | | exact Hc |];
    apply varchar_fits; assumption.
Qed.


End AppendOnlyChain.


(** * The prime search *)

Lemma halve_while_even_spec d0 : forall s0,
  Z.odd (fst (halve_while_even d0 s0)) = true
  /\ s0 <= snd (halve_while_even d0 s0)
  /\ Z.pos d0
     = fst (halve_while_even d0 s0)
       * 2 ^ (snd (halve_while_even d0 s0) - s0).
Proof.
  induction d0 as [d0 _ | d0 IH | ]; intros s0; cbn [halve_while_even fst snd].
  - rewrite Z.sub_diag, Z.pow_0_r, Z.mul_1_r.
    split; [reflexivity|]. split; [lia | reflexivity].
  - destruct (IH (s0 + 1)) as (Hodd & Hle & Heq).
    split; [exact Hodd|]. split; [lia|].
    replace (snd (halve_while_even d0 (s0 + 1)) - s0)
      with (Z.succ (snd (halve_while_even d0 (s0 + 1)) - (s0 + 1))) by lia.
    rewrite Z.pow_succ_r by lia.
    change (Z.pos d0~0) with (2 * Z.pos d0). rewrite Heq. ring.
  - rewrite Z.sub_diag.
    split; [reflexivity|]. split; [lia | reflexivity].
Qed.

Lemma sqrt_one_mod_prime n x :
  Z.prime n -> 0 <= x < n -> (x * x) mod n = 1 -> x = 1 \/ x = n - 1.
Proof.
  intros Hn Hx Hsq. pose proof (Z.prime_ge_2 _ Hn) as Hn2.
  assert (Hd : (n | (x - 1) * (x + 1))).
  { exists ((x * x) / n).
    pose proof (Z.div_mod (x * x) n ltac:(lia)) as Hdm. rewrite Hsq in Hdm.
    nia. }
  apply (Z.divide_prime_mul _ _ _ Hn) in Hd. destruct Hd as [[k Hk]|[k Hk]].
  - left. assert (k = 0) by nia. subst k. lia.
  - right. assert (k = 1) by nia. subst k. lia.
Qed.

Lemma squaring_loop_finds n : Z.prime n ->
  forall k x,
    0 <= x < n -> x ^ (2 ^ Z.of_nat (S k)) mod n = 1 ->
    x = 1 \/ x = n - 1 \/ squaring_loop k x n = Ok true.
Proof.
  intros Hn. pose proof (Z.prime_ge_2 _ Hn) as Hn2.
  induction k as [|k IH]; intros x Hx Hpow.
  - change (2 ^ Z.of_nat 1) with 2 in Hpow. rewrite Z.pow_2_r in Hpow.
    destruct (sqrt_one_mod_prime n x Hn Hx Hpow); auto.
  - cbn [squaring_loop]. rewrite py_pow_nonneg by lia. cbn [bind].
    assert (Hx' : 0 <= x ^ 2 mod n < n) by (apply Z.mod_pos_bound; lia).
    assert (Hpow' : (x ^ 2 mod n) ^ (2 ^ Z.of_nat (S k)) mod n = 1).
    { rewrite Z.mod_pow_l, <- Z.pow_mul_r by lia.
      replace (2 * 2 ^ Z.of_nat (S k)) with (2 ^ Z.of_nat (S (S k)));
        [exact Hpow|].
      rewrite (Nat2Z.inj_succ (S k)), Z.pow_succ_r by lia. reflexivity. }
    destruct (IH _ Hx' Hpow') as [H1 | [H1 | H1]].
    + rewrite Z.pow_2_r in H1.
      destruct (sqrt_one_mod_prime n x Hn Hx H1); auto.
    + rewrite H1, Z.eqb_refl. auto.
    + rewrite H1. destruct (x ^ 2 mod n =? n - 1); auto.
Qed.

Lemma rounds_loop_prime n d s :
  Z.prime n -> 0 < d -> 1 <= s -> n - 1 = d * 2 ^ s ->
  forall rounds tape,
    (rounds <= List.length tape)%nat ->
    Forall (fun drawn => 0 <= drawn < n - 3) (firstn rounds tape) ->
    rounds_loop rounds n d s tape = (Ok true, skipn rounds tape).
Proof.
  intros Hn Hd Hs Hds. pose proof (Z.prime_ge_2 _ Hn) as Hn2.
  induction rounds as [|rounds IH]; intros tape Hlen Hdraws; [reflexivity|].
  destruct tape as [|drawn tape]; [cbn in Hlen; lia|].
  cbn [firstn] in Hdraws. cbn [rounds_loop skipn].
  pose proof (Forall_inv Hdraws) as Hdrawn. cbn beta in Hdrawn.
  apply Forall_inv_tail in Hdraws. cbn [List.length] in Hlen.
  rewrite py_pow_nonneg by lia.
  set (x := (drawn + 2) ^ d mod n).
  assert (Hx : 0 <= x < n) by (apply Z.mod_pos_bound; lia).
  assert (Hpow : x ^ (2 ^ Z.of_nat (S (Z.to_nat (s - 1)))) mod n = 1).
  { replace (Z.of_nat (S (Z.to_nat (s - 1)))) with s by lia.
    unfold x. rewrite Z.mod_pow_l, <- Z.pow_mul_r by lia.
    rewrite <- Hds. apply Z.fermat_nz; [exact Hn|].
    rewrite Z.mod_small by lia. lia. }
  destruct (squaring_loop_finds n Hn _ x Hx Hpow) as [H1 | [H1 | H1]].
  - rewrite H1. cbn [Z.eqb orb]. apply IH; [lia | exact Hdraws].
  - rewrite H1, Z.eqb_refl, orb_true_r. apply IH; [lia | exact Hdraws].
  - rewrite H1.
    destruct ((x =? 1) || (x =? n - 1)); apply IH; solve [lia | exact Hdraws].
Qed.

Lemma small_primes_gt_1 p : In p small_primes -> 1 < p.
Proof.
  unfold small_primes. cbn [In]. intuition (subst; lia).
Qed.

Lemma existsb_eqb_small_primes n :
  existsb (Z.eqb n) small_primes = false -> ~ In n small_primes.
Proof.
  intros E Hin.
  assert (existsb (Z.eqb n) small_primes = true); [|congruence].
  apply existsb_exists. exists n. split; [exact Hin | apply Z.eqb_refl].
Qed.

Lemma is_probable_prime_on_prime n rounds tape :
  Z.prime n ->
  (Z.to_nat rounds <= List.length tape)%nat ->
  Forall (fun drawn => 0 <= drawn < n - 3) (firstn (Z.to_nat rounds) tape) ->
  exists tape', _is_probable_prime n rounds tape = (Ok true, tape').
Proof.
  intros Hn Hlen Hdraws. pose proof (Z.prime_ge_2 _ Hn) as Hn2.
  unfold _is_probable_prime.
  destruct (Z.ltb_spec n 2); [lia|].
  destruct (existsb (Z.eqb n) small_primes) eqn:Esmall; [eauto|].
  apply existsb_eqb_small_primes in Esmall.
  destruct (existsb (fun p => n mod p =? 0) small_primes) eqn:Ediv.
  { exfalso. apply existsb_exists in Ediv. destruct Ediv as (p & Hin & Hp).
    apply Z.eqb_eq in Hp. pose proof (small_primes_gt_1 p Hin) as Hp1.
    assert (Hpn : (p | n)) by (apply Z.mod_divide; [lia | exact Hp]).
    destruct Hn as [_ Hn]. apply (Hn p); [|exact Hpn].
    destruct Hpn as [k Hk].
    assert (Hne : p <> n) by (intro; subst p; contradiction).
    assert (Hk0 : 0 < k) by nia.
    assert (Hk1 : k <> 1) by (intro; subst k; lia). nia. }
  assert (Hodd : Z.odd n = true).
  { destruct (Z.odd n) eqn:E; [reflexivity|]. exfalso.
    assert (n <> 2) by (intro; subst n; apply Esmall; cbn; auto).
    destruct Hn as [_ Hn]. apply (Hn 2); [lia|].
    exists (n / 2). pose proof (Zmod_odd n) as Hm. rewrite E in Hm.
    pose proof (Z.div_mod n 2 ltac:(lia)). lia. }
  destruct (n - 1) as [|d0|d0] eqn:Ed; [lia| |lia].
  pose proof (halve_while_even_spec d0 0) as (Hd & Hs & Heq).
  destruct (halve_while_even d0 0) as [d s]. cbn [fst snd] in *.
  rewrite Z.sub_0_r in Heq.
  assert (Hdpos : 0 < d).
  { pose proof (Z.pow_pos_nonneg 2 s ltac:(lia) Hs). nia. }
  assert (Hs1 : 1 <= s).
  { destruct (Z.eq_dec s 0) as [->|]; [|lia]. exfalso.
    rewrite Z.pow_0_r, Z.mul_1_r in Heq.
    assert (Hn1 : n = d + 1) by lia.
    rewrite Hn1, Z.odd_add, Hd in Hodd. discriminate. }
  eexists. apply rounds_loop_prime; try assumption. lia.
Qed.

(** X4 (Miller-Rabin accepts every prime).  With bases that
    [secrets.randbelow(n - 3)] can return, [_is_probable_prime(n, rounds)]
    returns [True] for every prime [n]; so when it returns [False], [n] is
    composite (or below 2). *)
Theorem is_probable_prime_accepts_primes n rounds tape :
  (Z.to_nat rounds <= List.length tape)%nat ->
  Forall (fun drawn => 0 <= drawn < n - 3) (firstn (Z.to_nat rounds) tape) ->
  (Z.prime n -> exists tape', _is_probable_prime n rounds tape = (Ok true, tape'))
  /\ (forall tape', _is_probable_prime n rounds tape = (Ok false, tape') ->
                    ~ Z.prime n).
Proof.
  intros Hlen Hdraws. split.
  - intros Hn. exact (is_probable_prime_on_prime n rounds tape Hn Hlen Hdraws).
  - intros tape' Hfalse Hn.
    destruct (is_probable_prime_on_prime n rounds tape Hn Hlen Hdraws)
      as [tape'' Htrue].
    congruence.
Qed.

Lemma prime_97 : Z.prime 97.
Proof.
  split; [lia|]. intros k Hk [j Hj].
  assert (Hj' : 0 < j < 97) by nia.
  assert (Hc : k = 2 \/ k = 3 \/ k = 4 \/ k = 5 \/ k = 6 \/ k = 7 \/ k = 8
               \/ k = 9 \/ 10 <= k) by lia.
  repeat (destruct Hc as [-> | Hc]; [lia|]).
  assert (Hc' : j = 1 \/ j = 2 \/ j = 3 \/ j = 4 \/ j = 5 \/ j = 6
                \/ j = 7 \/ j = 8 \/ j = 9) by nia.
  repeat (destruct Hc' as [-> | Hc']; [lia|]). lia.
Qed.

Lemma is_probable_prime_accepts_primes_witness :
  (exists tape', _is_probable_prime 97 3 [0; 93; 41; 7] = (Ok true, tape'))
  /\ ~ Z.prime 91.
Proof.
  split.
  - apply (is_probable_prime_accepts_primes 97 3 [0; 93; 41; 7]).
    + cbn. lia.
    + cbn. repeat constructor; lia.
    + exact prime_97.
  - destruct (is_probable_prime_accepts_primes 91 3 [0; 1; 2]) as [_ H].
    + cbn. lia.
    + cbn. repeat constructor; lia.
    + apply (H [0; 1; 2]). reflexivity.
Defined.

Lemma rounds_loop_suffix n d s rounds : forall tape res tape',
  rounds_loop rounds n d s tape = (res, tape') ->
  exists used, tape = used ++ tape'.
Proof.
  induction rounds as [|rounds IH]; intros tape res tape' H;
    cbn [rounds_loop] in H.
  - injection H as _ <-. exists []. reflexivity.
  - destruct tape as [|drawn tape].
    + injection H as _ <-. exists []. reflexivity.
    + assert (Hstop : forall r, (r, tape) = (res, tape') ->
                                exists used, drawn :: tape = used ++ tape').
      { intros r Hr. injection Hr as _ <-. exists [drawn]. reflexivity. }
      assert (Hgo : rounds_loop rounds n d s tape = (res, tape') ->
                    exists used, drawn :: tape = used ++ tape').
      { intros Hr. destruct (IH _ _ _ Hr) as [used ->].
        exists (drawn :: used). reflexivity. }
      destruct (py_pow (drawn + 2) d n) as [x|e|]; eauto.
      destruct ((x =? 1) || (x =? n - 1)); eauto.
      destruct (squaring_loop (Z.to_nat (s - 1)) x n) as [[|]|e|]; eauto.
Qed.

Lemma is_probable_prime_suffix n rounds tape res tape' :
  _is_probable_prime n rounds tape = (res, tape') ->
  exists used, tape = used ++ tape'.
Proof.
  unfold _is_probable_prime.
  assert (Hstop : forall r, (r, tape) = (res, tape') ->
                            exists used, tape = used ++ tape').
  { intros r Hr. injection Hr as _ <-. exists []. reflexivity. }
  destruct (n <? 2); eauto.
  destruct (existsb (Z.eqb n) small_primes); eauto.
  destruct (existsb (fun p => n mod p =? 0) small_primes); eauto.
  destruct (n - 1) as [|d0|d0]; eauto.
  destruct (halve_while_even d0 0) as [d s]. apply rounds_loop_suffix.
Qed.

Lemma candidate_shape bits drawn :
  1 <= bits -> 0 <= drawn < 2 ^ bits ->
  Z.odd (Z.lor (Z.lor drawn 1) (Z.shiftl 1 (bits - 1))) = true
  /\ 2 ^ (bits - 1)
     <= Z.lor (Z.lor drawn 1) (Z.shiftl 1 (bits - 1)) < 2 ^ bits.
Proof.
  intros Hbits Hdrawn. rewrite Z.shiftl_1_l.
  set (c := Z.lor (Z.lor drawn 1) (2 ^ (bits - 1))).
  assert (Hodd : Z.odd c = true).
  { unfold c. rewrite <- Z.bit0_odd, !Z.lor_spec.
    change (Z.testbit 1 0) with true. rewrite orb_true_r. reflexivity. }
  split; [exact Hodd|].
  assert (Hpow : 0 < 2 ^ (bits - 1)) by (apply Z.pow_pos_nonneg; lia).
  assert (Hc0 : 0 <= c).
  { unfold c. apply Z.lor_nonneg. split; [|lia].
    apply Z.lor_nonneg. lia. }
  assert (Hcpos : 0 < c).
  { destruct (Z.eq_dec c 0) as [E|]; [|lia]. rewrite E in Hodd. discriminate. }
  assert (Hlog : Z.log2 c = bits - 1).
  { unfold c. rewrite Z.log2_lor by (try apply Z.lor_nonneg; lia).
    rewrite Z.log2_lor by lia. rewrite Z.log2_pow2 by lia.
    change (Z.log2 1) with 0.
    assert (Z.log2 drawn <= bits - 1).
    { destruct (Z.eq_dec drawn 0) as [->|]; [cbn; lia|].
      assert (Z.log2 drawn < bits) by (apply Z.log2_lt_pow2; lia). lia. }
    pose proof (Z.log2_nonneg drawn). lia. }
  pose proof (Z.log2_spec c Hcpos) as Hspec. rewrite Hlog in Hspec.
  replace (Z.succ (bits - 1)) with bits in Hspec by lia. exact Hspec.
Qed.

Lemma generate_prime_loop_returns bits : 1 <= bits ->
  forall tries tape p tape',
    Forall (fun drawn => 0 <= drawn < 2 ^ bits) tape ->
    generate_prime_loop tries bits tape = (Ok p, tape') ->
    Z.odd p = true /\ 2 ^ (bits - 1) <= p < 2 ^ bits
    /\ (exists before, _is_probable_prime p 16 before = (Ok true, tape'))
    /\ exists used, tape = used ++ tape'.
Proof.
  intros Hbits. induction tries as [|tries IH]; intros tape p tape' Hvalid H;
    cbn [generate_prime_loop] in H; [discriminate|].
  unfold randbits, py_lshift in H.
  destruct (Z.ltb_spec bits 0); [lia|].
  destruct (Z.ltb_spec (bits - 1) 0); [lia|].
  destruct tape as [|drawn tape]; [discriminate|].
  pose proof (Forall_inv Hvalid) as Hdrawn. cbn beta in Hdrawn.
  apply Forall_inv_tail in Hvalid.
  destruct (_is_probable_prime _ 16 tape) as [[[|]|e|] tape2] eqn:Etest;
    try discriminate.
  - injection H as <- <-.
    destruct (candidate_shape bits drawn Hbits Hdrawn) as (Hodd & Hrange).
    destruct (is_probable_prime_suffix _ _ _ _ _ Etest) as [used Hused].
    repeat split; try assumption; try lia.
    + exists tape. exact Etest.
    + exists (drawn :: used). rewrite Hused. reflexivity.
  - destruct (is_probable_prime_suffix _ _ _ _ _ Etest) as [used Hused].
    assert (Hvalid2 : Forall (fun drawn => 0 <= drawn < 2 ^ bits) tape2).
    { rewrite Hused in Hvalid. apply Forall_app in Hvalid. tauto. }
    destruct (IH _ _ _ Hvalid2 H) as (Hodd & Hrange & Hacc & used' & Hused').
    repeat split; try assumption; try lia.
    exists (drawn :: used ++ used'). rewrite Hused, Hused'. cbn [app].
    rewrite <- app_assoc. reflexivity.
Qed.

(** The bound on the candidates of the search is never what stops it: a
    test uses up no draw it is not given, and each candidate takes one. *)
Lemma generate_prime_loop_fuel bits : forall tries tries' tape,
  (List.length tape < tries)%nat -> (List.length tape < tries')%nat ->
  generate_prime_loop tries bits tape = generate_prime_loop tries' bits tape.
Proof.
  induction tries as [|tries IH]; intros tries' tape Hlen Hlen'; [lia|].
  destruct tries' as [|tries']; [lia|].
  cbn [generate_prime_loop]. unfold randbits.
  destruct (bits <? 0); [reflexivity|].
  destruct tape as [|drawn tape]; [reflexivity|].
  destruct (py_lshift 1 (bits - 1)) as [top| |]; try reflexivity.
  destruct (_is_probable_prime _ 16 tape) as [[[|]|e|] tape2] eqn:Etest;
    try reflexivity.
  destruct (is_probable_prime_suffix _ _ _ _ _ Etest) as [used Hused].
  assert (List.length tape2 <= List.length tape)%nat
    by (rewrite Hused, length_app; lia).
  cbn [List.length] in Hlen, Hlen'. apply IH; lia.
Qed.

(** X5 ([_generate_prime]).  For [bits >= 1] and draws below [2^bits], a
    value returned by [_generate_prime(bits)] is odd, has exactly [bits]
    bits and was accepted by [_is_probable_prime].  The search returns the
    first candidate that the test accepts: when the test accepts the
    candidate made from the first draw, that candidate is returned, with
    the draws the test has left; when it rejects it, the search goes on
    with exactly the draws the test has left, no draw being skipped.  So a
    candidate that is a prime is never passed over: the search returns
    it. *)
Theorem generate_prime_contract bits tape :
  1 <= bits ->
  Forall (fun drawn => 0 <= drawn < 2 ^ bits) tape ->
  (forall p tape',
     _generate_prime bits tape = (Ok p, tape') ->
     Z.odd p = true /\ 2 ^ (bits - 1) <= p < 2 ^ bits
     /\ exists before, _is_probable_prime p 16 before = (Ok true, tape'))
  /\ (forall drawn rest,
        tape = drawn :: rest ->
        let candidate := Z.lor (Z.lor drawn 1) (Z.shiftl 1 (bits - 1)) in
        (forall left,
           _is_probable_prime candidate 16 rest = (Ok true, left) ->
           _generate_prime bits tape = (Ok candidate, left))
        /\ (forall left,
              _is_probable_prime candidate 16 rest = (Ok false, left) ->
              _generate_prime bits tape = _generate_prime bits left)
        /\ (Z.prime candidate ->
            (16 <= List.length rest)%nat ->
            Forall (fun t => 0 <= t < candidate - 3) (firstn 16 rest) ->
            exists left,
              _generate_prime bits tape = (Ok candidate, left))).
Proof.
  intros Hbits Hvalid. split.
  - intros p tape' H. unfold _generate_prime in H.
    destruct (generate_prime_loop_returns bits Hbits _ _ _ _ Hvalid H)
      as (Hodd & Hrange & Hacc & _).
    auto.
  - intros drawn rest -> candidate.
    assert (Hstep : forall res left,
              _is_probable_prime candidate 16 rest = (res, left) ->
              _generate_prime bits (drawn :: rest)
              = match res with
                | Ok true => (Ok candidate, left)
                | Ok false =>
                    generate_prime_loop (S (List.length rest)) bits left
                | Raise e => (Raise e, left)
                | OutOfDraws => (OutOfDraws, left)
                end).
    { intros res left Etest.
      unfold _generate_prime. cbn [generate_prime_loop List.length].
      unfold randbits, py_lshift.
      destruct (Z.ltb_spec bits 0); [lia|].
      destruct (Z.ltb_spec (bits - 1) 0); [lia|].
      fold candidate. rewrite Etest. reflexivity. }
    split; [|split].
    + intros left Etest. exact (Hstep _ _ Etest).
    + intros left Etest. rewrite (Hstep _ _ Etest).
      destruct (is_probable_prime_suffix _ _ _ _ _ Etest) as [used Hused].
      unfold _generate_prime. apply generate_prime_loop_fuel; [|lia].
      rewrite Hused, length_app. lia.
    + intros Hprime Hlen Hdraws.
      destruct (is_probable_prime_on_prime _ 16 rest Hprime Hlen Hdraws)
        as [left Etest].
      exists left. exact (Hstep _ _ Etest).
Qed.

Lemma generate_prime_contract_witness :
  _generate_prime 7 ([27; 33] ++ repeat 10 17)
  = _generate_prime 7 ([33] ++ repeat 10 17)
  /\ _generate_prime 7 ([33] ++ repeat 10 17) = (Ok 97, [10]).
Proof.
  split.
  - destruct (generate_prime_contract 7 ([27; 33] ++ repeat 10 17))
      as [_ H].
    + lia.
    + cbn. repeat constructor; lia.
    + destruct (H 27 ([33] ++ repeat 10 17) eq_refl) as (_ & Hrejected & _).
      apply Hrejected. reflexivity.
  - destruct (generate_prime_contract 7 ([33] ++ repeat 10 17)) as [_ H].
    + lia.
    + cbn. repeat constructor; lia.
    + destruct (H 33 (repeat 10 17) eq_refl) as (Haccepted & _ & _).
      apply Haccepted. vm_compute. reflexivity.
Defined.

Lemma not_divide_pred_same_length b p q :
  1 <= b -> 0 < p -> Z.odd p = true -> Z.odd q = true ->
  2 ^ (b - 1) <= p -> 0 < q - 1 -> q < 2 ^ b -> ~ (p | q - 1).
Proof.
  intros Hb Hp Hop Hoq Hlo Hq Hhi [k Hk].
  assert (Hpow : 2 ^ b = 2 * 2 ^ (b - 1)).
  { replace b with (Z.succ (b - 1)) at 1 by lia. apply Z.pow_succ_r. lia. }
  assert (Hk0 : 0 < k) by nia.
  assert (Hk2 : k * p < 2 * p) by lia.
  apply Z.mul_lt_mono_pos_r in Hk2; [|exact Hp].
  assert (Hk1 : k = 1) by lia.
  subst k. assert (Hq1 : q = p + 1) by lia.
  rewrite Hq1, Z.odd_add, Hop in Hoq. discriminate.
Qed.

Lemma coprime_lam_same_length b p q :
  1 <= b -> Z.prime p -> Z.prime q ->
  Z.odd p = true -> Z.odd q = true ->
  2 ^ (b - 1) <= p < 2 ^ b -> 2 ^ (b - 1) <= q < 2 ^ b ->
  Z.gcd (Z.lcm (p - 1) (q - 1)) (p * q) = 1.
Proof.
  intros Hb Hp Hq Hop Hoq Hpr Hqr.
  pose proof (Z.prime_ge_2 _ Hp) as Hp2. pose proof (Z.prime_ge_2 _ Hq) as Hq2.
  assert (Hlcm : (Z.lcm (p - 1) (q - 1) | (p - 1) * (q - 1))).
  { apply Z.lcm_least; [exists (q - 1); ring | exists (p - 1); ring]. }
  assert (Hself : forall r, 2 <= r -> ~ (r | r - 1)).
  { intros r Hr [k Hk]. destruct (Z.le_gt_cases k 0); nia. }
  assert (Hnp : ~ (p | Z.lcm (p - 1) (q - 1))).
  { intro H. pose proof (Z.divide_trans _ _ _ H Hlcm) as H'.
    apply (Z.divide_prime_mul _ _ _ Hp) in H'. destruct H' as [H'|H'].
    - exact (Hself p Hp2 H').
    - apply (not_divide_pred_same_length b p q) in H'; solve [assumption | lia]. }
  assert (Hnq : ~ (q | Z.lcm (p - 1) (q - 1))).
  { intro H. pose proof (Z.divide_trans _ _ _ H Hlcm) as H'.
    apply (Z.divide_prime_mul _ _ _ Hq) in H'. destruct H' as [H'|H'].
    - apply (not_divide_pred_same_length b q p) in H'; solve [assumption | lia].
    - exact (Hself q Hq2 H'). }
  apply Z.coprime_mul_r; unfold Z.coprime; rewrite Z.gcd_comm.
  - apply (Z.coprime_prime_l p _ Hp Hnp).
  - apply (Z.coprime_prime_l q _ Hq Hnq).
Qed.

(** X6 (key generation on the primes it draws).  Both primes come from
    [_generate_prime(bits // 2)], so they are odd and of the same bit
    length; for two such primes, equal or not, the modular inverse exists
    and [generate_keypair(bits)] returns a key pair instead of raising. *)
Theorem generate_keypair_bits_returns bits tape p q tape1 tape2 :
  2 <= bits ->
  Forall (fun drawn => 0 <= drawn < 2 ^ (bits / 2)) tape ->
  _generate_prime (bits / 2) tape = (Ok p, tape1) ->
  _generate_prime (bits / 2) tape1 = (Ok q, tape2) ->
  Z.prime p -> Z.prime q ->
  exists pub priv,
    generate_keypair_bits bits tape = (Ok (pub, priv), tape2)
    /\ generate_keypair p q = Ok (pub, priv)
    /\ keys_of p q pub priv.
Proof.
  intros Hbits Hvalid H1 H2 Hp Hq.
  assert (Hb : 1 <= bits / 2) by (apply Z.div_le_lower_bound; lia).
  pose proof (Z.prime_ge_2 _ Hp) as Hp2. pose proof (Z.prime_ge_2 _ Hq) as Hq2.
  unfold _generate_prime in H1, H2.
  destruct (generate_prime_loop_returns _ Hb _ _ _ _ Hvalid H1)
    as (Hop & Hpr & _ & used & Hused).
  assert (Hvalid1 : Forall (fun drawn => 0 <= drawn < 2 ^ (bits / 2)) tape1).
  { rewrite Hused in Hvalid. apply Forall_app in Hvalid. tauto. }
  destruct (generate_prime_loop_returns _ Hb _ _ _ _ Hvalid1 H2)
    as (Hoq & Hqr & _ & _).
  pose proof (coprime_lam_same_length _ p q Hb Hp Hq Hop Hoq Hpr Hqr) as Hc.
  assert (Hgen : generate_keypair p q
                 = Ok (PublicKey.mk (p * q) (p * q + 1),
                       PrivateKey.mk (Z.lcm (p - 1) (q - 1))
                         (Z.invmod (Z.lcm (p - 1) (q - 1)) (p * q)) (p * q))).
  { rewrite generate_keypair_eq by assumption. rewrite Hc. reflexivity. }
  eexists. eexists. split; [|split; [exact Hgen|]].
  - unfold generate_keypair_bits, _generate_prime. rewrite H1, H2, Hgen.
    reflexivity.
  - exact (generate_keypair_keys p q _ _ Hp Hq Hgen).
Qed.

Lemma generate_keypair_bits_returns_witness :
  exists pub priv,
    generate_keypair_bits 6 [1; 3; 4] = (Ok (pub, priv), [4])
    /\ generate_keypair 5 7 = Ok (pub, priv)
    /\ keys_of 5 7 pub priv.
Proof.
  apply (generate_keypair_bits_returns 6 [1; 3; 4] 5 7 [3; 4] [4]).
  - lia.
  - cbn. repeat constructor; lia.
  - reflexivity.
  - reflexivity.
  - exact prime_5.
  - exact prime_7.
Defined.

Lemma generate_prime_loop_one_bit tape : forall tries,
  (List.length tape < tries)%nat ->
  Forall (fun drawn => 0 <= drawn < 2) tape ->
  generate_prime_loop tries 1 tape = (OutOfDraws, []).
Proof.
  induction tape as [|drawn tape IH]; intros tries Hlen Hvalid;
    (destruct tries as [|tries]; [cbn in Hlen; lia|]).
  - reflexivity.
  - pose proof (Forall_inv Hvalid) as Hdrawn. cbn beta in Hdrawn.
    apply Forall_inv_tail in Hvalid. cbn [List.length] in Hlen.
    assert (Hd : drawn = 0 \/ drawn = 1) by lia.
    destruct Hd as [-> | ->].
    + change (generate_prime_loop (S tries) 1 (0 :: tape))
        with (generate_prime_loop tries 1 tape).
      apply IH; [lia | exact Hvalid].
    + change (generate_prime_loop (S tries) 1 (1 :: tape))
        with (generate_prime_loop tries 1 tape).
      apply IH; [lia | exact Hvalid].
Qed.

Lemma generate_prime_two_bits drawn tape :
  0 <= drawn < 4 -> _generate_prime 2 (drawn :: tape) = (Ok 3, tape).
Proof.
  intros Hd.
  assert (Hc : drawn = 0 \/ drawn = 1 \/ drawn = 2 \/ drawn = 3) by lia.
  destruct Hc as [-> | [-> | [-> | ->]]]; reflexivity.
Qed.

(** X7 (key sizes too small to work).  [generate_keypair(bits)] raises a
    [ValueError] for [bits <= 1]; for [bits] 2 or 3 every candidate is 1,
    which is never accepted, so the search never returns; for [bits] 4 or
    5 every candidate is 3, so both primes are 3 and the key pair is the
    degenerate one with [n = 9]. *)
Theorem generate_keypair_bits_small bits tape :
  (bits <= 1 -> tape <> [] ->
   exists msg tape',
     generate_keypair_bits bits tape = (Raise (ValueError msg), tape'))
  /\ (2 <= bits <= 3 -> Forall (fun drawn => 0 <= drawn < 2) tape ->
      generate_keypair_bits bits tape = (OutOfDraws, []))
  /\ (4 <= bits <= 5 ->
      forall d1 d2 rest,
        tape = d1 :: d2 :: rest -> 0 <= d1 < 4 -> 0 <= d2 < 4 ->
        generate_keypair_bits bits tape
        = (Ok (PublicKey.mk 9 10, PrivateKey.mk 2 5 9), rest)).
Proof.
  split; [|split].
  - intros Hbits Hne. destruct tape as [|drawn tape]; [contradiction|].
    assert (Hhalf : bits / 2 <= 0).
    { apply Z.lt_succ_r. apply Z.div_lt_upper_bound; lia. }
    unfold generate_keypair_bits, _generate_prime.
    cbn [generate_prime_loop List.length]. unfold randbits, py_lshift.
    destruct (Z.ltb_spec (bits / 2) 0); [eauto|].
    destruct (Z.ltb_spec (bits / 2 - 1) 0); [eauto | lia].
  - intros Hbits Hvalid.
    assert (Hhalf : bits / 2 = 1).
    { assert (Hc : bits = 2 \/ bits = 3) by lia.
      destruct Hc as [-> | ->]; reflexivity. }
    unfold generate_keypair_bits, _generate_prime. rewrite Hhalf.
    rewrite generate_prime_loop_one_bit by (auto; lia). reflexivity.
  - intros Hbits d1 d2 rest -> Hd1 Hd2.
    assert (Hhalf : bits / 2 = 2).
    { assert (Hc : bits = 4 \/ bits = 5) by lia.
      destruct Hc as [-> | ->]; reflexivity. }
    unfold generate_keypair_bits. rewrite Hhalf.
    rewrite (generate_prime_two_bits d1 _ Hd1).
    rewrite (generate_prime_two_bits d2 _ Hd2). reflexivity.
Qed.

Lemma generate_keypair_bits_small_witness :
  (exists msg tape',
     generate_keypair_bits 1 [5] = (Raise (ValueError msg), tape'))
  /\ generate_keypair_bits 3 [0; 1; 1] = (OutOfDraws, [])
  /\ generate_keypair_bits 4 [2; 0; 7]
     = (Ok (PublicKey.mk 9 10, PrivateKey.mk 2 5 9), [7]).
Proof.
  split; [|split].
  - destruct (generate_keypair_bits_small 1 [5]) as (H & _).
    apply H; [lia | discriminate].
  - destruct (generate_keypair_bits_small 3 [0; 1; 1]) as (_ & H & _).
    apply H; [lia | repeat constructor; lia].
  - destruct (generate_keypair_bits_small 4 [2; 0; 7]) as (_ & _ & H).
    apply (H ltac:(lia) 2 0 [7]); [reflexivity | lia | lia].
Defined.

(** * What an accepted vote changes *)

Lemma active_question_fits db question_id :
  questions_fit db ->
  has_active_question db question_id = true ->
  fits 64 question_id = true.
Proof.
  unfold questions_fit, has_active_question. intros Hfit Hq.
  apply existsb_exists in Hq. destruct Hq as (q & Hin & Hq).
  apply andb_true_iff in Hq. destruct Hq as [Hq _].
  apply String.eqb_eq in Hq. subst question_id.
  rewrite Forall_forall in Hfit. exact (Hfit q Hin).
Qed.

Lemma fits_len width s : fits width s = true -> (py_len s <= width)%nat.
Proof.
  unfold fits. intros H. apply andb_true_iff in H. destruct H as [_ H].
  apply Nat.leb_le. exact H.
Qed.

Section AcceptedVote.

Variable sha256_hexdigest : string -> string.



End AcceptedVote.

Lemma chain_wf_busy_db : chain_wf busy_db.
Proof.
  split; [|split].
  - repeat constructor.
  - repeat constructor; cbn; lia.
  - exact linked_two_entries.
Qed.


Lemma find_app {A : Type} (f : A -> bool) l l' :
  find f (l ++ l')
  = match find f l with
    | Some x => Some x
    | None => find f l'
    end.
Proof.
  induction l as [|x l IH]; cbn [app find]; [reflexivity|].
  destruct (f x); [reflexivity | exact IH].
Qed.

Lemma ciphertexts_for_committed db participant_hash agent_hash question_id'
    ciphertext key_id' payload_hash question_id key_id :
  ciphertexts_for
    (committed_vote db participant_hash agent_hash question_id' ciphertext
                    key_id' payload_hash)
    question_id key_id
  = ciphertexts_for db question_id key_id
    ++ (if ((question_id' =? question_id) && (key_id' =? key_id))%string
        then [ciphertext] else []).
Proof.
  unfold ciphertexts_for, committed_vote. cbn [votes].
  rewrite filter_app, map_app. f_equal.
  cbn [filter Vote.question_id Vote.key_id].
  destruct ((question_id' =? question_id) && (key_id' =? key_id))%string;
    reflexivity.
Qed.


Section StoredVotes.

Variable sha256_hexdigest : string -> string.



Lemma send_vote_tables db payload :
  questions_fit db -> identities_unique db -> votes_reference_questions db ->
  identities_unique (snd (send_vote sha256_hexdigest db payload))
  /\ votes_reference_questions (snd (send_vote sha256_hexdigest db payload))
  /\ questions (snd (send_vote sha256_hexdigest db payload)) = questions db
  /\ (forall h a,
        agent_of db h = Some a ->
        agent_of (snd (send_vote sha256_hexdigest db payload)) h = Some a).
Proof.
  intros Hfit Hu Hr.
  destruct (send_vote_cases sha256_hexdigest db payload)
    as [(_ & ->) | (question_id' & key_id' & Hq & Hvq & _ & _ & ->)];
    [auto|].
  cbn [snd].
  pose proof (active_question_fits db _ Hfit Hq) as Hfq.
  pose proof (varchar_short _ _ _ (fits_len _ _ Hfq) Hvq) as ->.
  unfold identities_unique, votes_reference_questions, agent_of in *.
  unfold committed_vote. cbn [participants votes questions].
  set (h := sha256_hexdigest (VoteRequest.participant_id payload)).
  set (a := sha256_hexdigest (VoteRequest.agent_id payload)).
  assert (Href : Forall
                   (fun vote =>
                      exists q, In q (questions db)
                                /\ Question.question_id q
                                   = Vote.question_id vote)
                   (votes db
                    ++ [Vote.mk (votes_id_seq db + 1)
                          (VoteRequest.question_id payload) h
                          (VoteRequest.ciphertext payload) key_id'])).
  { apply Forall_app. split; [exact Hr|]. constructor; [|constructor].
    unfold has_active_question in Hq. apply existsb_exists in Hq.
    destruct Hq as (q & Hin & Hq). apply andb_true_iff in Hq.
    destruct Hq as [Hq _]. apply String.eqb_eq in Hq. eauto. }
  unfold insert_identity.
  destruct (existsb (fun row => (Participant.participant_hash row =? h)%string)
                    (participants db)) eqn:Ex; cbn [participants].
  - split; [exact Hu|]. split; [exact Href|]. auto.
  - split; [|split; [exact Href|split; [reflexivity|]]].
    + rewrite map_app. cbn [map Participant.participant_hash].
      apply NoDup_app;
        [exact Hu | constructor; [intros [] | constructor] |].
      intros x Hx [E | []]. subst x.
      apply in_map_iff in Hx. destruct Hx as (row & Hrow & Hin).
      assert (existsb (fun row => (Participant.participant_hash row =? h)%string)
                      (participants db) = true); [|congruence].
      apply existsb_exists. exists row. split; [exact Hin|].
      apply String.eqb_eq. exact Hrow.
    + intros h' a' Hfind. rewrite find_app.
      destruct (find _ (participants db)); [exact Hfind | discriminate].
Qed.

End StoredVotes.


Lemma busy_db_tables :
  questions_fit busy_db /\ identities_unique busy_db
  /\ votes_reference_questions busy_db.
Proof.
  split; [|split].
  - repeat constructor.
  - repeat constructor. intros [].
  - constructor; [|constructor].
    exists (Question.mk "q-demo" true). split; [left|]; reflexivity.
Qed.

(** * Every writer keeps the audit chain *)

Lemma insert_audit_keeps_chain db event_type payload_hash :
  chain_wf db ->
  chain_wf (insert_audit event_type payload_hash
              (select_last_payload_hash db) db).
Proof.
  intros (Hs & Hb & Hl). unfold chain_wf, insert_audit.
  cbn [logs logs_id_seq]. split; [|split].
  - eapply sorted_snoc; [exact Hs | exact Hb | cbn; lia].
  - apply Forall_app. split.
    + eapply Forall_impl; [|exact Hb]. cbn. intros. lia.
    + constructor; [cbn; lia | constructor].
  - apply linked_snoc; [exact Hl|]. intros r rest Hrev.
    cbn [AuditLog.prev_hash]. unfold select_last_payload_hash.
    rewrite (order_by_id_asc_sorted _ Hs), Hrev. reflexivity.
Qed.

Section Writers.

Variable sha256_hexdigest : string -> string.

Lemma serve_appends st r :
  chain_wf (core st) ->
  chain_wf (core (serve sha256_hexdigest st r))
  /\ exists added,
       logs (core (serve sha256_hexdigest st r)) = logs (core st) ++ added.
Proof.
  intros Hwf. destruct r as [payload | name nonce tag alg ct size key | q l c];
    cbn [serve].
  - cbn [with_core core].
    destruct (send_vote_cases sha256_hexdigest (core st) payload)
      as [(_ & ->) | (question_id' & key_id' & _ & _ & _ & _ & ->)].
    + split; [exact Hwf|]. exists []. rewrite app_nil_r. reflexivity.
    + cbn [snd]. split; [apply committed_vote_chain; exact Hwf|].
      unfold committed_vote. cbn [logs]. eauto.
  - unfold record_photo_metadata, store_begin. split_columns;
      try (split; [exact Hwf | exists []; rewrite app_nil_r; reflexivity]).
    cbn [photos core].
    destruct (existsb _ (photos st)); cbn [snd core rollback].
    + split; [exact Hwf|]. exists []. rewrite app_nil_r. reflexivity.
    + unfold with_core. cbn [core]. split.
      * apply insert_audit_keeps_chain. exact Hwf.
      * unfold insert_audit. cbn [logs]. eauto.
  - unfold create_question, store_begin. split_columns;
      try (split; [exact Hwf | exists []; rewrite app_nil_r; reflexivity]).
    cbn [core].
    destruct (existsb _ (questions (core st))); cbn [snd core rollback].
    + split; [exact Hwf|]. exists []. rewrite app_nil_r. reflexivity.
    + unfold with_core. cbn [core]. split; [exact Hwf|].
      exists []. rewrite app_nil_r. reflexivity.
Qed.

Lemma writers_chain_wf st requests :
  chain_wf (core st) ->
  chain_wf (core (fold_left (serve sha256_hexdigest) requests st))
  /\ exists added,
       logs (core (fold_left (serve sha256_hexdigest) requests st))
       = logs (core st) ++ added.
Proof.
  revert st. induction requests as [|r requests IH]; intros st Hwf.
  - split; [exact Hwf|]. exists []. rewrite app_nil_r. reflexivity.
  - cbn [fold_left].
    destruct (serve_appends st r Hwf) as (Hwf' & added & Hadded).
    destruct (IH _ Hwf') as (Hwf'' & added' & Hadded').
    split; [exact Hwf''|].
    exists (added ++ added'). rewrite Hadded', Hadded, app_assoc.
    reflexivity.
Qed.

(** X11 (the audit log is append-only and stays linked).  Starting from a
    well-formed audit table, after any sequence of vote submissions, photo
    records and question creations, accepted or refused, the audit table
    is the old one with entries added at the end, and
    [verify_hash_chain] answers [ok = true]. *)
Theorem writers_keep_chain st requests :
  chain_wf (core st) ->
  (exists added,
     logs (core (fold_left (serve sha256_hexdigest) requests st))
     = logs (core st) ++ added)
  /\ verify_hash_chain (core (fold_left (serve sha256_hexdigest) requests st))
     = ChainReport.mk true
         (Z.of_nat (List.length
                      (logs (core (fold_left (serve sha256_hexdigest)
                                             requests st)))))
         None.
Proof.
  intros Hwf.
  destruct (writers_chain_wf st requests Hwf) as (Hwf' & Happ).
  split; [exact Happ|].
  apply verify_hash_chain_wf. exact Hwf'.
Qed.

End Writers.

Lemma writers_keep_chain_witness :
  verify_hash_chain
    (core (fold_left (serve (fun v => "sha256:" ++ v)%string)
             [ SendVote (VoteRequest.mk "q-closed" "bob" "agent-1" "5" "key-v1");
               RecordPhoto "photo-1" "bg==" "dA==" "AES-256-GCM" "image/png"
                           10 "key-v1";
               RecordPhoto "photo-2" "bg==" "dA==" "AES-256-GCM" "image/png"
                           10 "key-v1";
               CreateQuestion "q-new" "A new question" "admin";
               SendVote (VoteRequest.mk "q-new" "bob" "agent-1" "5" "key-v1") ]
             busy_store))
  = ChainReport.mk true 4 None.
Proof.
  exact (proj2 (writers_keep_chain (fun v => "sha256:" ++ v)%string busy_store
                  _ chain_wf_busy_db)).
Defined.

(** * Photos, questions, statistics *)

Lemma integer_fits value :
  - 2 ^ 31 <= value < 2 ^ 31 -> integer value = Some value.
Proof.
  intros [Hlo Hhi]. unfold integer.
  apply Z.leb_le in Hlo. apply Z.ltb_lt in Hhi. rewrite Hlo, Hhi. reflexivity.
Qed.

Lemma existsb_false_not_in {A : Type} (key : A -> string)
    (rows : list A) x :
  existsb (fun row => (key row =? x)%string) rows = false ->
  ~ In x (map key rows).
Proof.
  intros E Hin. apply in_map_iff in Hin. destruct Hin as (row & Hrow & Hin).
  assert (existsb (fun row => (key row =? x)%string) rows = true);
    [|congruence].
  apply existsb_exists. exists row. split; [exact Hin|].
  apply String.eqb_eq. exact Hrow.
Qed.

Lemma NoDup_snoc {A : Type} (l : list A) x :
  NoDup l -> ~ In x l -> NoDup (l ++ [x]).
Proof.
  intros Hl Hx. apply NoDup_app; [exact Hl | |].
  - constructor; [intros [] | constructor].
  - intros y Hy [E | []]. subst y. contradiction.
Qed.

Section PhotosAndQuestions.

Variable sha256_hexdigest : string -> string.

Lemma record_photo_metadata_cases st object_name nonce_b64 tag_b64 alg
    content_type size_bytes key_id :
  fits 256 object_name = true ->
  fits 64 nonce_b64 = true ->
  fits 64 tag_b64 = true ->
  fits 32 alg = true ->
  fits 128 content_type = true ->
  - 2 ^ 31 <= size_bytes < 2 ^ 31 ->
  fits 64 key_id = true ->
  let taken :=
    existsb (fun row => (Photo.object_name row =? object_name)%string)
            (photos st) in
  let out :=
    record_photo_metadata sha256_hexdigest st object_name nonce_b64 tag_b64
      alg content_type size_bytes key_id in
  (taken = true ->
   fst out = IntegrityError "object_name"
   /\ photos (snd out) = photos st
   /\ logs (core (snd out)) = logs (core st)
   /\ votes (core (snd out)) = votes (core st))
  /\ (taken = false ->
      fst out = Returned (PhotoMeta.mk (photos_id_seq st + 1) object_name)
      /\ photos (snd out)
         = photos st
           ++ [Photo.mk (photos_id_seq st + 1) object_name nonce_b64 tag_b64
                        alg content_type size_bytes key_id]
      /\ logs (core (snd out))
         = logs (core st)
           ++ [AuditLog.mk (logs_id_seq (core st) + 1) "photo_uploaded"
                 (sha256_hexdigest
                    ("photo:" ++ object_name ++ ":" ++ py_str size_bytes
                     ++ ":" ++ key_id)%string)
                 (select_last_payload_hash (core st))]
      /\ votes (core (snd out)) = votes (core st)).
Proof.
  intros Hname Hnonce Htag Halg Hct Hsize Hkey taken out. subst taken out.
  unfold record_photo_metadata, store_begin, hash_identifier.
  rewrite (varchar_fits _ _ Hname), (varchar_fits _ _ Hnonce),
    (varchar_fits _ _ Htag), (varchar_fits _ _ Halg), (varchar_fits _ _ Hct),
    (integer_fits _ Hsize), (varchar_fits _ _ Hkey).
  cbn [photos core].
  destruct (existsb (fun row => (Photo.object_name row =? object_name)%string)
                    (photos st)) eqn:Et; cbn [fst snd].
  - split; [intros _ | discriminate]. repeat split; reflexivity.
  - split; [discriminate | intros _]. repeat split; reflexivity.
Qed.

(** X12 ([record_photo_metadata]).  Take values that their columns store
    as they are.  For an [object_name] that is not stored yet the call
    returns the new photo id, and the committed transaction has added one
    photo row and one audit entry of type "photo_uploaded", hashed from
    [photo:object_name:size_bytes:key_id] and linked to the newest entry
    before it.  For a stored [object_name] it raises [IntegrityError] and
    no table changes. *)
Theorem record_photo_metadata_contract st object_name nonce_b64 tag_b64 alg
    content_type size_bytes key_id :
  fits 256 object_name = true ->
  fits 64 nonce_b64 = true ->
  fits 64 tag_b64 = true ->
  fits 32 alg = true ->
  fits 128 content_type = true ->
  - 2 ^ 31 <= size_bytes < 2 ^ 31 ->
  fits 64 key_id = true ->
  let taken :=
    existsb (fun row => (Photo.object_name row =? object_name)%string)
            (photos st) in
  let out :=
    record_photo_metadata sha256_hexdigest st object_name nonce_b64 tag_b64
      alg content_type size_bytes key_id in
  (taken = true ->
   fst out = IntegrityError "object_name"
   /\ photos (snd out) = photos st
   /\ logs (core (snd out)) = logs (core st)
   /\ votes (core (snd out)) = votes (core st))
  /\ (taken = false ->
      fst out = Returned (PhotoMeta.mk (photos_id_seq st + 1) object_name)
      /\ photos (snd out)
         = photos st
           ++ [Photo.mk (photos_id_seq st + 1) object_name nonce_b64 tag_b64
                        alg content_type size_bytes key_id]
      /\ logs (core (snd out))
         = logs (core st)
           ++ [AuditLog.mk (logs_id_seq (core st) + 1) "photo_uploaded"
                 (sha256_hexdigest
                    ("photo:" ++ object_name ++ ":" ++ py_str size_bytes
                     ++ ":" ++ key_id)%string)
                 (select_last_payload_hash (core st))]
      /\ votes (core (snd out)) = votes (core st)).
Proof.
  exact (record_photo_metadata_cases st object_name nonce_b64 tag_b64 alg
           content_type size_bytes key_id).
Qed.


End PhotosAndQuestions.

Lemma record_photo_metadata_contract_witness :
  fst (record_photo_metadata (fun v => "sha256:" ++ v)%string busy_store
         "photo-1" "bg==" "dA==" "AES-256-GCM" "image/png" 10 "key-v1")
  = IntegrityError "object_name"
  /\ logs (core (snd (record_photo_metadata (fun v => "sha256:" ++ v)%string
                        busy_store "photo-2" "bg==" "dA==" "AES-256-GCM"
                        "image/png" 10 "key-v1")))
     = two_entries
       ++ [AuditLog.mk 3 "photo_uploaded" "sha256:photo:photo-2:10:key-v1"
                       (Some "h2")].
Proof.
  assert (Hsize : - 2 ^ 31 <= 10 < 2 ^ 31) by lia.
  split.
  - exact (proj1 (proj1 (record_photo_metadata_contract
                           (fun v => "sha256:" ++ v)%string busy_store
                           "photo-1" "bg==" "dA==" "AES-256-GCM" "image/png"
                           10 "key-v1" eq_refl eq_refl eq_refl eq_refl eq_refl
                           Hsize eq_refl)
                        eq_refl)).
  - exact (proj1 (proj2 (proj2 (proj2 (record_photo_metadata_contract
                           (fun v => "sha256:" ++ v)%string busy_store
                           "photo-2" "bg==" "dA==" "AES-256-GCM" "image/png"
                           10 "key-v1" eq_refl eq_refl eq_refl eq_refl eq_refl
                           Hsize eq_refl)
                        eq_refl)))).
Defined.


(** * What the tables keep *)

Lemma tables_wf_busy_store : tables_wf busy_store.
Proof.
  destruct busy_db_tables as (Hf & Hu & Hr).
  split; [|split; [exact Hf | split; [exact Hu | split; [exact Hr|]]]].
  - unfold questions_unique. cbn.
    repeat constructor; cbn; intuition discriminate.
  - cbn. repeat constructor. intros [].
Qed.

Lemma references_more_questions db added :
  votes_reference_questions db ->
  Forall (fun vote =>
            exists q, In q (questions db ++ added)
                      /\ Question.question_id q = Vote.question_id vote)
         (votes db).
Proof.
  unfold votes_reference_questions. intros H.
  eapply Forall_impl; [|exact H]. cbn beta.
  intros vote (q & Hin & Hq). exists q. split; [|exact Hq].
  apply in_or_app. left. exact Hin.
Qed.

Section WritersAndTables.

Variable sha256_hexdigest : string -> string.

Lemma kept_same st st' :
  tables_wf st ->
  questions (core st') = questions (core st) ->
  participants (core st') = participants (core st) ->
  votes (core st') = votes (core st) ->
  photos st' = photos st ->
  kept st st'.
Proof.
  intros H Hq Hp Hv Hph. unfold kept, tables_wf, questions_unique,
    questions_fit, identities_unique, votes_reference_questions, agent_of
    in *.
  rewrite Hq, Hp, Hv, Hph. split; [exact H|]. split; [|auto].
  exists []. rewrite app_nil_r. reflexivity.
Qed.

Lemma serve_kept st r :
  tables_wf st -> kept st (serve sha256_hexdigest st r).
Proof.
  intros Hwf. pose proof Hwf as (Hq & Hf & Hu & Hr & Hp).
  destruct r as [payload | name nonce tag alg ct size key | q l c];
    cbn [serve].
  - destruct (send_vote_tables sha256_hexdigest (core st) payload Hf Hu Hr)
      as (Hu' & Hr' & Hq' & Ha').
    split; [|split].
    + unfold tables_wf, questions_unique, questions_fit.
      cbn [with_core core photos].
      rewrite Hq'. auto.
    + cbn [with_core core]. rewrite Hq'. exists []. rewrite app_nil_r.
      reflexivity.
    + exact Ha'.
  - unfold record_photo_metadata, store_begin. split_columns;
      try (apply kept_same; [exact Hwf | reflexivity ..]).
    cbn [photos core].
    destruct (existsb _ (photos st)) eqn:Et; cbn [snd].
    + apply kept_same; [exact Hwf | reflexivity ..].
    + split; [|split].
      * unfold tables_wf, with_core, insert_audit. cbn [core photos].
        split; [exact Hq|]. split; [exact Hf|]. split; [exact Hu|].
        split; [exact Hr|].
        rewrite map_app. cbn [map Photo.object_name].
        apply NoDup_snoc; [exact Hp|].
        exact (existsb_false_not_in Photo.object_name _ _ Et).
      * exists []. rewrite app_nil_r. reflexivity.
      * auto.
  - unfold create_question, store_begin.
    destruct (varchar 64 q) as [q'|] eqn:Evq;
      [|apply kept_same; [exact Hwf | reflexivity ..]].
    split_columns;
      try (apply kept_same; [exact Hwf | reflexivity ..]).
    cbn [core].
    destruct (existsb _ (questions (core st))) eqn:Et; cbn [snd].
    + apply kept_same; [exact Hwf | reflexivity ..].
    + split; [|split].
      * unfold tables_wf, with_core, questions_unique, questions_fit,
          identities_unique, votes_reference_questions.
        cbn [core photos questions participants votes].
        split; [|split; [|split; [exact Hu | split; [|exact Hp]]]].
        -- rewrite map_app. cbn [map Question.question_id].
           apply NoDup_snoc; [exact Hq|].
           exact (existsb_false_not_in Question.question_id _ _ Et).
        -- apply Forall_app. split; [exact Hf|].
           constructor; [|constructor]. cbn [Question.question_id].
           exact (proj1 (varchar_stored _ _ _ Evq)).
        -- apply references_more_questions. exact Hr.
      * unfold with_core. cbn [core questions]. eauto.
      * auto.
Qed.

Lemma fold_serve_kept requests st :
  tables_wf st -> kept st (fold_left (serve sha256_hexdigest) requests st).
Proof.
  revert st. induction requests as [|r requests IH]; intros st Hwf.
  - apply kept_same; [exact Hwf | reflexivity ..].
  - cbn [fold_left].
    destruct (serve_kept st r Hwf) as (Hwf1 & (added1 & Hq1) & Ha1).
    destruct (IH _ Hwf1) as (Hwf2 & (added2 & Hq2) & Ha2).
    split; [exact Hwf2|]. split.
    + exists (added1 ++ added2). rewrite Hq2, Hq1, app_assoc. reflexivity.
    + auto.
Qed.

(** X10 (what the tables keep).  Start from tables in which question
    ids, participant hashes and photo names are unique, every vote names
    a stored question and every stored question id is one that its column
    holds.  After any sequence of vote submissions,
    photo records and question creations, accepted or refused, all of
    that still holds; the questions table is the old one with rows added
    at the end; no stored question has been opened or closed; and a
    participant who was known keeps the agent first recorded for them,
    whoever submits their later votes. *)
Theorem writers_keep_tables st requests :
  tables_wf st ->
  let st' := fold_left (serve sha256_hexdigest) requests st in
  tables_wf st'
  /\ (exists added, questions (core st') = questions (core st) ++ added)
  /\ (forall question_id,
        In question_id (map Question.question_id (questions (core st))) ->
        has_active_question (core st') question_id
        = has_active_question (core st) question_id)
  /\ (forall h a, agent_of (core st) h = Some a ->
                  agent_of (core st') h = Some a).
Proof.
  intros Hwf st'. subst st'.
  destruct (fold_serve_kept requests st Hwf) as (Hwf' & (added & Hq) & Ha).
  split; [exact Hwf'|]. split; [eauto|]. split; [|exact Ha].
  intros question_id Hin. unfold has_active_question. rewrite Hq, existsb_app.
  destruct Hwf' as (Hu & _). unfold questions_unique in Hu.
  rewrite Hq, map_app in Hu.
  assert (Hnot : existsb (fun q => (Question.question_id q =? question_id)%string
                                   && Question.is_active q) added = false).
  { apply not_true_is_false. intros E. apply existsb_exists in E.
    destruct E as (q & Hq_in & Hq_eq). apply andb_true_iff in Hq_eq.
    destruct Hq_eq as [Hq_eq _]. apply String.eqb_eq in Hq_eq.
    apply NoDup_app_remove_l in Hu as Hadded.
    assert (Hin' : In question_id (map Question.question_id added)).
    { rewrite <- Hq_eq. apply in_map. exact Hq_in. }
    clear - Hu Hin Hin'.
    induction (map Question.question_id (questions (core st))) as [|x xs IH];
      [contradiction|].
    cbn [app] in Hu. inversion Hu as [|? ? Hx Hxs]; subst.
    destruct Hin as [-> | Hin].
    - apply Hx. apply in_or_app. right. exact Hin'.
    - exact (IH Hxs Hin). }
  rewrite Hnot. apply orb_false_r.
Qed.

End WritersAndTables.

Lemma writers_keep_tables_witness :
  has_active_question
    (core (fold_left (serve (fun v => "sha256:" ++ v)%string)
             [ CreateQuestion "q-closed" "Open it again" "admin";
               SendVote (VoteRequest.mk "q-demo" "alice" "agent-2" "222"
                                        "key-v1") ]
             busy_store))
    "q-closed"
  = false
  /\ agent_of
       (core (fold_left (serve (fun v => "sha256:" ++ v)%string)
                [ CreateQuestion "q-closed" "Open it again" "admin";
                  SendVote (VoteRequest.mk "q-demo" "alice" "agent-2" "222"
                                           "key-v1") ]
                busy_store))
       "sha256:alice"
     = Some "sha256:agent-1".
Proof.
  destruct (writers_keep_tables (fun v => "sha256:" ++ v)%string busy_store
              [ CreateQuestion "q-closed" "Open it again" "admin";
                SendVote (VoteRequest.mk "q-demo" "alice" "agent-2" "222"
                                         "key-v1") ]
              tables_wf_busy_store)
    as (_ & _ & Hactive & Hagent).
  split.
  - rewrite (Hactive "q-closed"); [reflexivity|]. cbn. auto.
  - apply Hagent. reflexivity.
Defined.

(** * Statistics *)




Section Statistics.

Variable sha256_hexdigest : string -> string.


End Statistics.


(** * Accounts *)

Lemma hex_digit_facts c :
  is_hex_digit c = true ->
  is_continuation_byte c = false
  /\ Nat.eqb (Ascii.nat_of_ascii c) 0 = false
  /\ Nat.ltb (Ascii.nat_of_ascii c) 128 = true.
Proof.
  unfold is_hex_digit, is_continuation_byte.
  set (n := Ascii.nat_of_ascii c). intros H.
  apply orb_true_iff in H. rewrite !andb_true_iff, !Nat.leb_le in H.
  assert (Hn : (48 <= n <= 102)%nat) by (destruct H as [[? ?] | [? ?]]; lia).
  split; [|split].
  - apply andb_false_iff. left. apply Nat.leb_gt. lia.
  - apply Nat.eqb_neq. lia.
  - apply Nat.ltb_lt. lia.
Qed.

Lemma hex_string_facts s :
  forallb is_hex_digit (list_ascii_of_string s) = true ->
  py_len s = String.length s /\ has_nul s = false /\ isascii s = true.
Proof.
  unfold has_nul, isascii.
  induction s as [|c s IH]; cbn [list_ascii_of_string forallb existsb py_len
                                 String.length].
  - auto.
  - intros H. apply andb_true_iff in H. destruct H as [Hc Hs].
    destruct (hex_digit_facts c Hc) as (H1 & H2 & H3).
    destruct (IH Hs) as (IH1 & IH2 & IH3).
    rewrite H1, H2, H3, IH1, IH2, IH3. auto.
Qed.

Lemma hexdigits_fits n width s :
  hexdigits n s = true -> (n <= width)%nat -> fits width s = true.
Proof.
  unfold hexdigits, fits. intros H Hn. apply andb_true_iff in H.
  destruct H as [Hlen Hhex]. apply Nat.eqb_eq in Hlen.
  destruct (hex_string_facts s Hhex) as (H1 & H2 & _).
  rewrite H1, H2, Hlen. cbn [negb andb]. apply Nat.leb_le. exact Hn.
Qed.

Lemma hexdigits_isascii n s : hexdigits n s = true -> isascii s = true.
Proof.
  unfold hexdigits. intros H. apply andb_true_iff in H.
  destruct H as [_ Hhex]. apply (hex_string_facts s Hhex).
Qed.

Lemma parity_digest_hex value : hexdigits 64 (parity_digest value) = true.
Proof.
  unfold parity_digest. destruct (Nat.even (String.length value)); reflexivity.
Qed.


Lemma require_role_pass roles user w :
  existsb (String.eqb (TokenPayload.role user)) roles = true ->
  require_role roles user w = (Returned user, w).
Proof. intros H. unfold require_role. rewrite H. reflexivity. Qed.

Lemma require_role_fail roles user w :
  existsb (String.eqb (TokenPayload.role user)) roles = false ->
  require_role roles user w
  = (Raised (HTTPException 403 "Accès interdit pour ce rôle"), w).
Proof. intros H. unfold require_role. rewrite H. reflexivity. Qed.

Lemma insert_user_fresh username password_hash password_salt role full_name
    conn :
  fits 64 username = true -> fits 128 password_hash = true ->
  fits 64 password_salt = true -> fits 20 role = true ->
  fits 128 full_name = true ->
  existsb (fun row => (User.username row =? username)%string) (users conn)
  = false ->
  insert_user username password_hash password_salt role full_name conn
  = (Returned (User.mk (users_id_seq conn + 1) username password_hash
                       password_salt role full_name true),
     mkStore (core conn) (questions_id_seq conn) (photos conn)
       (photos_id_seq conn)
       (users conn
        ++ [User.mk (users_id_seq conn + 1) username password_hash
                    password_salt role full_name true])
       (users_id_seq conn + 1)).
Proof.
  intros Hu Hh Hs Hr Hf Hfresh. unfold insert_user.
  rewrite (varchar_fits _ _ Hu), (varchar_fits _ _ Hh), (varchar_fits _ _ Hs),
    (varchar_fits _ _ Hr), (varchar_fits _ _ Hf).
  cbn [users]. rewrite Hfresh. reflexivity.
Qed.

Section AccountFacts.

Variable sha256_hexdigest : string -> string.
Variable create_token : Z -> Z -> string -> string -> string.
Variable JWT_EXPIRE_MINUTES : Z.

Hypothesis sha256_hex :
  forall value, hexdigits 64 (sha256_hexdigest value) = true.

Lemma hash_password_drawn password w salt rest :
  salts w = salt :: rest ->
  hash_password sha256_hexdigest password None w
  = (Returned (sha256_hexdigest (salt ++ ":" ++ password)%string, salt),
     mkBackend (store w) rest).
Proof.
  intros H. unfold hash_password, and_then, token_hex. cbn [Z.ltb Z.compare].
  rewrite H. reflexivity.
Qed.

Lemma verify_password_eq password pw_hash salt w :
  isascii pw_hash = true ->
  verify_password sha256_hexdigest password pw_hash salt w
  = (Returned (sha256_hexdigest (salt ++ ":" ++ password)%string =? pw_hash)%string,
     w).
Proof.
  intros H. unfold verify_password, hash_password, and_then, ret, compare_digest.
  cbn [fst]. rewrite (hexdigits_isascii _ _ (sha256_hex _)), H. reflexivity.
Qed.

Lemma login_known now payload w row :
  has_nul (LoginRequest.username payload) = false ->
  find (fun row => (User.username row =? LoginRequest.username payload)%string)
       (users (store w))
  = Some row ->
  isascii (User.password_hash row) = true ->
  login sha256_hexdigest create_token JWT_EXPIRE_MINUTES now payload w
  = (if negb (sha256_hexdigest
                (User.password_salt row ++ ":" ++ LoginRequest.password payload)
              =? User.password_hash row)%string
     then Raised (HTTPException 401 "Identifiants incorrects")
     else if negb (User.is_active row)
     then Raised (HTTPException 403 "Compte désactivé")
     else Returned
            (TokenResponse.mk
               (create_token now (User.id row) (User.username row)
                             (User.role row))
               "bearer" (User.role row) (User.username row)
               (JWT_EXPIRE_MINUTES * 60)),
     w).
Proof.
  intros Hnul Hfind Hascii. unfold login, and_then, reading, get_user_by_username.
  rewrite Hnul, Hfind, (verify_password_eq _ _ _ _ Hascii).
  destruct (sha256_hexdigest _ =? User.password_hash row)%string;
    cbn [negb]; [|reflexivity].
  destruct (User.is_active row); reflexivity.
Qed.

Lemma login_unknown now payload w :
  has_nul (LoginRequest.username payload) = false ->
  find (fun row => (User.username row =? LoginRequest.username payload)%string)
       (users (store w))
  = None ->
  login sha256_hexdigest create_token JWT_EXPIRE_MINUTES now payload w
  = (Raised (HTTPException 401 "Identifiants incorrects"), w).
Proof.
  intros Hnul Hfind. unfold login, and_then, reading, get_user_by_username.
  rewrite Hnul, Hfind. reflexivity.
Qed.



(** X16 (only administrators write).  Called with the token of a user
    whose role is not "admin", [register], [admin_update_user],
    [admin_delete_user] and [add_question] all answer 403 and leave the
    tables and the salts exactly as they were; [admin_stats] does the
    same for a role that is neither "admin" nor "auditor". *)
Theorem only_administrators_write user w :
  TokenPayload.role user <> "admin" ->
  (forall payload,
     register sha256_hexdigest user payload w
     = (Raised (HTTPException 403 "Accès interdit pour ce rôle"), w))
  /\ (forall user_id payload,
        admin_update_user sha256_hexdigest user user_id payload w
        = (Raised (HTTPException 403 "Accès interdit pour ce rôle"), w))
  /\ (forall user_id,
        admin_delete_user user user_id w
        = (Raised (HTTPException 403 "Accès interdit pour ce rôle"), w))
  /\ (forall question_id label,
        add_question user question_id label w
        = (Raised (HTTPException 403 "Accès interdit pour ce rôle"), w))
  /\ (TokenPayload.role user <> "auditor" ->
      admin_stats user w
      = (Raised (HTTPException 403 "Accès interdit pour ce rôle"), w)).
Proof.
  intros Hrole.
  assert (Hfail : existsb (String.eqb (TokenPayload.role user)) ["admin"]
                  = false).
  { cbn [existsb]. rewrite orb_false_r. apply String.eqb_neq. exact Hrole. }
  repeat split; intros.
  - unfold register, and_then. rewrite (require_role_fail _ _ _ Hfail).
    reflexivity.
  - unfold admin_update_user, and_then at 1.
    rewrite (require_role_fail _ _ _ Hfail). reflexivity.
  - unfold admin_delete_user, and_then.
    rewrite (require_role_fail _ _ _ Hfail). reflexivity.
  - unfold add_question, and_then. rewrite (require_role_fail _ _ _ Hfail).
    reflexivity.
  - unfold admin_stats, and_then. rewrite require_role_fail; [reflexivity|].
    cbn [existsb]. rewrite orb_false_r. apply orb_false_iff.
    split; apply String.eqb_neq; assumption.
Qed.

End AccountFacts.


Lemma only_administrators_write_witness :
  register parity_digest agent_token
    (RegisterRequest.mk "carol" "secret" "admin" "Carol") staff_backend
  = (Raised (HTTPException 403 "Accès interdit pour ce rôle"), staff_backend)
  /\ admin_delete_user agent_token 1 staff_backend
     = (Raised (HTTPException 403 "Accès interdit pour ce rôle"),
        staff_backend).
Proof.
  assert (Hrole : TokenPayload.role agent_token <> "admin")
    by (cbv; discriminate).
  destruct (only_administrators_write parity_digest agent_token staff_backend
              Hrole)
    as (Hregister & _ & Hdelete & _).
  split; [apply Hregister | apply Hdelete].
Defined.

(** * Administration of the accounts *)

Lemma find_all_false {A : Type} (f : A -> bool) (l : list A) :
  (forall x, In x l -> f x = false) -> find f l = None.
Proof.
  induction l as [|a l IH]; intros H; [reflexivity|].
  cbn [find]. rewrite (H a (or_introl eq_refl)).
  apply IH. intros x Hx. apply H. right. exact Hx.
Qed.

Lemma NoDup_map_inj {A K : Type} (key : A -> K) (l : list A) a b :
  NoDup (map key l) -> In a l -> In b l -> key a = key b -> a = b.
Proof.
  induction l as [|x l IH]; intros Hnd Ha Hb E; [contradiction|].
  cbn [map] in Hnd. inversion Hnd as [|? ? Hx Hl]; subst.
  destruct Ha as [-> | Ha]; destruct Hb as [-> | Hb].
  - reflexivity.
  - exfalso. apply Hx. rewrite E. apply in_map. exact Hb.
  - exfalso. apply Hx. rewrite <- E. apply in_map. exact Ha.
  - exact (IH Hl Ha Hb E).
Qed.


Lemma filter_none_removed {A : Type} (f : A -> bool) (l : list A) :
  existsb f l = false -> filter (fun x => negb (f x)) l = l.
Proof.
  induction l as [|a l IH]; cbn [existsb filter]; [reflexivity|].
  intros H. apply orb_false_iff in H. destruct H as [-> H].
  cbn [negb]. rewrite (IH H). reflexivity.
Qed.


Lemma update_row_username user_id updates row :
  User.username (update_row user_id updates row) = User.username row.
Proof. unfold update_row. destruct (User.id row =? user_id); reflexivity. Qed.

Lemma update_row_id user_id updates row :
  User.id (update_row user_id updates row) = User.id row.
Proof. unfold update_row. destruct (User.id row =? user_id); reflexivity. Qed.



Section AccountAdministration.

Variable sha256_hexdigest : string -> string.
Variable create_token : Z -> Z -> string -> string -> string.
Variable JWT_EXPIRE_MINUTES : Z.

Hypothesis sha256_hex :
  forall value, hexdigits 64 (sha256_hexdigest value) = true.

(** X17 ([admin_delete_user]).  An administrator whose token names the
    account [user_id] gets 400 and nothing changes.  Otherwise, for an id
    that PostgreSQL takes: if no account has it the answer is 404 and the
    accounts stay; if one has it, the answer is "deleted", that account
    is gone and the others stay, and logging in under its name is refused
    with 401 whatever the password.  In every case the accounts whose id
    the token names are still there afterwards. *)
Theorem admin_delete_user_contract user user_id w now :
  TokenPayload.role user = "admin" ->
  users_wf (store w) ->
  let out := admin_delete_user user user_id w in
  (py_str user_id = TokenPayload.sub user ->
   out
   = (Raised (HTTPException 400 "Impossible de supprimer votre propre compte"),
      w))
  /\ (py_str user_id <> TokenPayload.sub user ->
      - 2 ^ 31 <= user_id < 2 ^ 31 ->
      (existsb (fun row => User.id row =? user_id) (users (store w)) = false ->
       fst out = Raised (HTTPException 404 "Utilisateur non trouvé")
       /\ users (store (snd out)) = users (store w))
      /\ (forall row,
            In row (users (store w)) -> User.id row = user_id ->
            fst out = Returned (UserDeleted.mk "deleted" user_id)
            /\ users (store (snd out))
               = filter (fun row => negb (User.id row =? user_id))
                        (users (store w))
            /\ (has_nul (User.username row) = false ->
                forall password,
                  fst (login sha256_hexdigest create_token JWT_EXPIRE_MINUTES
                         now (LoginRequest.mk (User.username row) password)
                         (snd out))
                  = Raised (HTTPException 401 "Identifiants incorrects"))))
  /\ (forall row,
        In row (users (store w)) ->
        py_str (User.id row) = TokenPayload.sub user ->
        In row (users (store (snd out)))).
Proof.
  intros Hadmin (Hnames & Hids & _) out. subst out.
  assert (Hpass : existsb (String.eqb (TokenPayload.role user)) ["admin"]
                  = true) by (rewrite Hadmin; reflexivity).
  unfold admin_delete_user, and_then.
  rewrite (require_role_pass _ _ _ Hpass). cbv beta iota.
  split; [|split].
  - intros Hself. apply String.eqb_eq in Hself. rewrite Hself. reflexivity.
  - intros Hother Hrange. apply String.eqb_neq in Hother. rewrite Hother.
    unfold writing, delete_user, store_begin.
    rewrite (integer_fits _ Hrange). cbn [with_users users].
    split.
    + intros Hnone. rewrite Hnone. cbn [negb fst snd store users raise].
      split; [reflexivity|]. apply filter_none_removed. exact Hnone.
    + intros row Hin Hid.
      assert (Hsome : existsb (fun row => User.id row =? user_id)
                              (users (store w)) = true).
      { apply existsb_exists. exists row. split; [exact Hin|].
        apply Z.eqb_eq. exact Hid. }
      rewrite Hsome. cbn [negb fst snd store users ret].
      split; [reflexivity|]. split; [reflexivity|].
      intros Hnul password. rewrite login_unknown; [reflexivity | exact Hnul |].
      cbn [store users LoginRequest.username]. apply find_all_false.
      intros other Hother_in. apply filter_In in Hother_in.
      destruct Hother_in as [Hother_in Hkept].
      apply String.eqb_neq. intros E.
      assert (other = row)
        by exact (NoDup_map_inj User.username _ _ _ Hnames Hother_in Hin E).
      subst other. apply negb_true_iff in Hkept. apply Z.eqb_neq in Hkept.
      contradiction.
  - intros row Hin Hsub.
    destruct (py_str user_id =? TokenPayload.sub user)%string eqn:Hself;
      [exact Hin|].
    unfold writing, delete_user, store_begin.
    destruct (integer user_id); cbn [with_users users];
      [|cbn [snd store users rollback]; exact Hin].
    assert (Hkept : In row (filter (fun row => negb (User.id row =? user_id))
                                   (users (store w)))).
    { apply filter_In. split; [exact Hin|]. apply negb_true_iff.
      apply Z.eqb_neq. intros E. apply String.eqb_neq in Hself.
      apply Hself. rewrite <- E. exact Hsub. }
    destruct (existsb _ (users (store w))); cbn [negb snd store users];
      exact Hkept.
Qed.


End AccountAdministration.

Lemma users_wf_staff_backend : users_wf (store staff_backend).
Proof.
  split; [|split]; cbn.
  - repeat constructor; cbn; intuition discriminate.
  - repeat constructor; cbn; intuition discriminate.
  - repeat (apply Forall_cons; [cbn; lia|]). apply Forall_nil.
Qed.

Lemma admin_delete_user_contract_witness :
  admin_delete_user admin_token 1 staff_backend
  = (Raised (HTTPException 400 "Impossible de supprimer votre propre compte"),
     staff_backend)
  /\ fst (admin_delete_user admin_token 2 staff_backend)
     = Returned (UserDeleted.mk "deleted" 2)
  /\ fst (login parity_digest plain_token 480 2000
            (LoginRequest.mk "agent" "agent")
            (snd (admin_delete_user admin_token 2 staff_backend)))
     = Raised (HTTPException 401 "Identifiants incorrects").
Proof.
  destruct (admin_delete_user_contract parity_digest plain_token 480
              admin_token 1 staff_backend 2000 eq_refl users_wf_staff_backend)
    as (Hself & _ & _).
  destruct (admin_delete_user_contract parity_digest plain_token 480
              admin_token 2 staff_backend 2000 eq_refl users_wf_staff_backend)
    as (_ & Hother & _).
  assert (Hrange : - 2 ^ 31 <= 2 < 2 ^ 31) by lia.
  assert (Hdiff : py_str 2 <> TokenPayload.sub admin_token)
    by (cbv; discriminate).
  destruct (Hother Hdiff Hrange) as (_ & Hknown).
  destruct (Hknown
              (User.mk 2 "agent"
                 "0000000000000000000000000000000000000000000000000000000000000000"
                 "00000000000000000000000000000002" "agent" "Agent Terrain"
                 false)
              (or_intror (or_introl eq_refl)) eq_refl)
    as (Hdeleted & _ & Hlogin).
  split; [apply Hself; reflexivity|]. split; [exact Hdeleted|].
  apply (Hlogin eq_refl "agent").
Defined.


(** * The accounts that [init_db] creates *)

Section FirstAccounts.

Variable sha256_hexdigest : string -> string.
Variable create_token : Z -> Z -> string -> string -> string.
Variable JWT_EXPIRE_MINUTES : Z.

Hypothesis sha256_hex :
  forall value, hexdigits 64 (sha256_hexdigest value) = true.

Lemma init_db_empty w salt1 salt2 rest :
  users (store w) = [] ->
  salts w = salt1 :: salt2 :: rest ->
  hexdigits 32 salt1 = true ->
  hexdigits 32 salt2 = true ->
  init_db sha256_hexdigest w
  = (Returned tt,
     mkBackend
       (mkStore (core (store w)) (questions_id_seq (store w))
          (photos (store w)) (photos_id_seq (store w))
          [ User.mk (users_id_seq (store w) + 1) "admin"
              (sha256_hexdigest (salt1 ++ ":" ++ "admin")%string) salt1
              "admin" "Administrateur" true;
            User.mk (users_id_seq (store w) + 1 + 1) "agent"
              (sha256_hexdigest (salt2 ++ ":" ++ "agent")%string) salt2
              "agent" "Agent Terrain" true ]
          (users_id_seq (store w) + 1 + 1))
       rest).
Proof.
  intros Hempty Hsalts Hsalt1 Hsalt2. unfold init_db, begin.
  rewrite Hempty. unfold and_then at 1.
  rewrite (hash_password_drawn _ _ _ _ _ Hsalts).
  unfold and_then at 1. unfold writing at 1. cbn [store salts].
  rewrite insert_user_fresh;
    [ | reflexivity
      | eapply hexdigits_fits; [apply sha256_hex | lia]
      | eapply hexdigits_fits; [exact Hsalt1 | lia]
      | reflexivity | reflexivity | rewrite Hempty; reflexivity ].
  unfold and_then at 1.
  rewrite (hash_password_drawn _ _ _ salt2 rest) by reflexivity.
  unfold and_then at 1. unfold writing at 1. cbn [store salts].
  rewrite insert_user_fresh;
    [ | reflexivity
      | eapply hexdigits_fits; [apply sha256_hex | lia]
      | eapply hexdigits_fits; [exact Hsalt2 | lia]
      | reflexivity | reflexivity
      | cbn [users]; rewrite Hempty; reflexivity ].
  cbn [users core questions_id_seq photos photos_id_seq users_id_seq ret].
  rewrite Hempty. reflexivity.
Qed.

(** X19 (the accounts of a fresh database).  On a users table that holds
    a row [init_db] changes nothing.  On an empty one, with two salts of
    32 hexadecimal digits to draw, it uses both and leaves exactly two
    active accounts, "admin" with the role "admin" and "agent" with the
    role "agent", while the other tables stay as they were; logging in
    as "admin" with the password "admin", or as "agent" with the password
    "agent", then returns a token for that role; and a second [init_db]
    changes nothing any more. *)
Theorem init_db_seeds w now :
  let out := init_db sha256_hexdigest w in
  let log_in username password :=
    fst (login sha256_hexdigest create_token JWT_EXPIRE_MINUTES now
           (LoginRequest.mk username password) (snd out)) in
  (users (store w) <> [] -> out = (Returned tt, w))
  /\ (users (store w) = [] ->
      forall salt1 salt2 rest,
        salts w = salt1 :: salt2 :: rest ->
        hexdigits 32 salt1 = true ->
        hexdigits 32 salt2 = true ->
        fst out = Returned tt
        /\ salts (snd out) = rest
        /\ core (store (snd out)) = core (store w)
        /\ photos (store (snd out)) = photos (store w)
        /\ map (fun row => (User.username row, User.role row,
                            User.is_active row))
               (users (store (snd out)))
           = [("admin", "admin", true); ("agent", "agent", true)]
        /\ log_in "admin" "admin"
           = Returned
               (TokenResponse.mk
                  (create_token now (users_id_seq (store w) + 1) "admin"
                                "admin")
                  "bearer" "admin" "admin" (JWT_EXPIRE_MINUTES * 60))
        /\ log_in "agent" "agent"
           = Returned
               (TokenResponse.mk
                  (create_token now (users_id_seq (store w) + 1 + 1) "agent"
                                "agent")
                  "bearer" "agent" "agent" (JWT_EXPIRE_MINUTES * 60))
        /\ init_db sha256_hexdigest (snd out) = (Returned tt, snd out)).
Proof.
  intros out log_in. subst out log_in. cbv beta. split.
  - intros Hrows. unfold init_db, begin.
    destruct (users (store w)); [contradiction | reflexivity].
  - intros Hempty salt1 salt2 rest Hsalts Hsalt1 Hsalt2.
    rewrite (init_db_empty w salt1 salt2 rest Hempty Hsalts Hsalt1 Hsalt2).
    cbn [fst snd salts store core photos users map User.username User.role
         User.is_active].
    repeat (split; [reflexivity|]). split; [|split].
    + rewrite (login_known sha256_hexdigest create_token JWT_EXPIRE_MINUTES
                 sha256_hex now _ _
                 (User.mk (users_id_seq (store w) + 1) "admin"
                    (sha256_hexdigest (salt1 ++ ":" ++ "admin")%string) salt1
                    "admin" "Administrateur" true));
        [ cbn [User.password_salt User.password_hash LoginRequest.password];
          rewrite String.eqb_refl; reflexivity
        | reflexivity | reflexivity
        | exact (hexdigits_isascii _ _ (sha256_hex _)) ].
    + rewrite (login_known sha256_hexdigest create_token JWT_EXPIRE_MINUTES
                 sha256_hex now _ _
                 (User.mk (users_id_seq (store w) + 1 + 1) "agent"
                    (sha256_hexdigest (salt2 ++ ":" ++ "agent")%string) salt2
                    "agent" "Agent Terrain" true));
        [ cbn [User.password_salt User.password_hash LoginRequest.password];
          rewrite String.eqb_refl; reflexivity
        | reflexivity | reflexivity
        | exact (hexdigits_isascii _ _ (sha256_hex _)) ].
    + reflexivity.
Qed.

End FirstAccounts.

Lemma init_db_seeds_witness :
  fst (login parity_digest plain_token 480 2000
         (LoginRequest.mk "admin" "admin")
         (snd (init_db parity_digest
                 (mkBackend (mkStore busy_db 2 [] 0 [] 0)
                    [ "0123456789abcdef0123456789abcdef";
                      "fedcba9876543210fedcba9876543210" ]))))
  = Returned (TokenResponse.mk "1.admin.admin.2000" "bearer" "admin" "admin"
                               28800)
  /\ init_db parity_digest staff_backend = (Returned tt, staff_backend).
Proof.
  destruct (init_db_seeds parity_digest plain_token 480 parity_digest_hex
              (mkBackend (mkStore busy_db 2 [] 0 [] 0)
                 [ "0123456789abcdef0123456789abcdef";
                   "fedcba9876543210fedcba9876543210" ])
              2000)
    as (_ & Hempty).
  destruct (Hempty eq_refl "0123456789abcdef0123456789abcdef"
              "fedcba9876543210fedcba9876543210" [] eq_refl eq_refl eq_refl)
    as (_ & _ & _ & _ & _ & Hadmin & _).
  destruct (init_db_seeds parity_digest plain_token 480 parity_digest_hex
              staff_backend 2000)
    as (Hrows & _).
  split; [exact Hadmin|]. apply Hrows. discriminate.
Defined.

(** * Decimal spellings *)

Lemma uint_value_cons (d : Decimal.uint) :
  match d with
  | Decimal.Nil => True
  | Decimal.D0 d' | Decimal.D1 d' | Decimal.D2 d' | Decimal.D3 d'
  | Decimal.D4 d' | Decimal.D5 d' | Decimal.D6 d' | Decimal.D7 d'
  | Decimal.D8 d' | Decimal.D9 d' =>
      (Unsigned.of_lu (Decimal.rev d)
       = Unsigned.of_lu (Decimal.rev d')
         + Unsigned.hd d * 10 ^ Unsigned.usize d')%N
  end.
Proof.
  destruct d; [exact I | ..];
    unfold Decimal.rev at 1; cbn [Decimal.revapp];
    rewrite Unsigned.of_lu_revapp; reflexivity.
Qed.

Lemma uint_value_lt (d : Decimal.uint) :
  (Unsigned.of_lu (Decimal.rev d) < 10 ^ Unsigned.usize d)%N.
Proof.
  induction d; [cbn; lia | ..];
    match goal with
    | |- context [Decimal.rev ?x] => rewrite (uint_value_cons x)
    end;
    cbn [Unsigned.hd Unsigned.usize]; rewrite N.pow_succ_r'; lia.
Qed.

Lemma uint_value_ge (d : Decimal.uint) :
  d <> Decimal.Nil -> Unsigned.hd d <> 0%N ->
  (10 ^ Unsigned.usize d <= 10 * Unsigned.of_lu (Decimal.rev d))%N.
Proof.
  intros Hnil Hhd.
  destruct d; [contradiction | ..];
    match goal with
    | |- context [Decimal.rev ?x] => rewrite (uint_value_cons x)
    end;
    cbn [Unsigned.hd Unsigned.usize] in *; rewrite N.pow_succ_r';
    try contradiction; lia.
Qed.

Lemma to_uint_head p : Unsigned.hd (Pos.to_uint p) <> 0%N.
Proof.
  pose proof (Unsigned.to_of (Pos.to_uint p)) as H.
  rewrite Unsigned.of_to in H. cbn [N.to_uint] in H.
  pose proof (Unsigned.to_uint_nonzero p) as Hz.
  pose proof (Unsigned.to_uint_nonnil p) as Hn.
  destruct (Pos.to_uint p) as [|d| | | | | | | | |]; cbn [Unsigned.hd];
    try discriminate; try contradiction.
  exfalso. unfold Decimal.unorm in H. cbn [Decimal.nzhead] in H.
  pose proof (DecimalFacts.nb_digits_nzhead d) as Hlen.
  destruct (Decimal.nzhead d) eqn:E.
  - exact (Hz H).
  - rewrite <- H in Hlen. cbn [Decimal.nb_digits] in Hlen. lia.
  - rewrite <- H in Hlen. cbn [Decimal.nb_digits] in Hlen. lia.
  - rewrite <- H in Hlen. cbn [Decimal.nb_digits] in Hlen. lia.
  - rewrite <- H in Hlen. cbn [Decimal.nb_digits] in Hlen. lia.
  - rewrite <- H in Hlen. cbn [Decimal.nb_digits] in Hlen. lia.
  - rewrite <- H in Hlen. cbn [Decimal.nb_digits] in Hlen. lia.
  - rewrite <- H in Hlen. cbn [Decimal.nb_digits] in Hlen. lia.
  - rewrite <- H in Hlen. cbn [Decimal.nb_digits] in Hlen. lia.
  - rewrite <- H in Hlen. cbn [Decimal.nb_digits] in Hlen. lia.
  - rewrite <- H in Hlen. cbn [Decimal.nb_digits] in Hlen. lia.
Qed.

Lemma usize_nb_digits d : Unsigned.usize d = N.of_nat (Decimal.nb_digits d).
Proof.
  induction d; cbn [Unsigned.usize Decimal.nb_digits]; [reflexivity | ..];
    rewrite IHd; lia.
Qed.

Lemma string_of_uint_length d :
  String.length (NilEmpty.string_of_uint d) = Decimal.nb_digits d.
Proof.
  induction d; cbn [NilEmpty.string_of_uint String.length Decimal.nb_digits];
    congruence.
Qed.

Lemma string_of_uint_decimal d :
  forallb is_decimal_char (list_ascii_of_string (NilEmpty.string_of_uint d)) = true.
Proof.
  induction d; cbn [NilEmpty.string_of_uint list_ascii_of_string forallb];
    [reflexivity | ..]; rewrite IHd; reflexivity.
Qed.

Lemma py_str_decimal z :
  forallb is_decimal_char (list_ascii_of_string (py_str z)) = true.
Proof.
  unfold py_str.
  destruct z as [|p|p]; cbn [Z.to_int NilZero.string_of_int];
    [reflexivity | |].
  - unfold NilZero.string_of_uint.
    destruct (Pos.to_uint p) eqn:E; try (rewrite <- E);
      try apply string_of_uint_decimal. reflexivity.
  - cbn [list_ascii_of_string forallb]. unfold NilZero.string_of_uint.
    destruct (Pos.to_uint p) eqn:E; try (rewrite <- E);
      try apply string_of_uint_decimal. reflexivity.
Qed.

Lemma digits_of_positive p :
  (10 ^ N.of_nat (Decimal.nb_digits (Pos.to_uint p)) <= 10 * Npos p
   /\ Npos p < 10 ^ N.of_nat (Decimal.nb_digits (Pos.to_uint p)))%N.
Proof.
  pose proof (uint_value_lt (Pos.to_uint p)) as Hlt.
  pose proof (uint_value_ge (Pos.to_uint p) (Unsigned.to_uint_nonnil p)
                (to_uint_head p)) as Hge.
  rewrite <- Unsigned.of_uint_alt, Unsigned.of_to, usize_nb_digits in *.
  split; assumption.
Qed.

Lemma py_str_length c :
  0 <= c ->
  Nat.leb 10 (String.length (py_str c)) = (10 ^ 9 <=? c).
Proof.
  intros Hc. unfold py_str.
  destruct c as [|p|p]; [reflexivity | | lia].
  cbn [Z.to_int NilZero.string_of_int]. unfold NilZero.string_of_uint.
  assert (E : match Pos.to_uint p with
              | Decimal.Nil => "0"
              | _ => NilEmpty.string_of_uint (Pos.to_uint p)
              end = NilEmpty.string_of_uint (Pos.to_uint p)).
  { pose proof (Unsigned.to_uint_nonnil p).
    destruct (Pos.to_uint p); [contradiction | reflexivity ..]. }
  rewrite E, string_of_uint_length.
  destruct (digits_of_positive p) as [Hge Hlt].
  set (n := Decimal.nb_digits (Pos.to_uint p)) in *.
  destruct (Nat.leb_spec 10 n) as [Hn | Hn];
    destruct (Z.leb_spec (10 ^ 9) (Z.pos p)) as [Hp | Hp];
    try reflexivity; exfalso.
  - assert (10 ^ 10 <= 10 ^ N.of_nat n)%N by (apply N.pow_le_mono_r; lia).
    lia.
  - assert (10 ^ N.of_nat n <= 10 ^ 9)%N by (apply N.pow_le_mono_r; lia).
    lia.
Qed.

(** * What [strip] leaves alone *)

Lemma decimal_char_facts c :
  is_decimal_char c = true ->
  is_continuation_byte c = false
  /\ (forall s, drop_one whitespace (String c s) = None)
  /\ (forall s, drop_one (map reversed whitespace) (String c s) = None).
Proof.
  destruct c as [[] [] [] [] [] [] [] []]; intros H; try discriminate H;
    repeat split; reflexivity.
Qed.

Lemma drop_one_empty :
  drop_one whitespace EmptyString = None
  /\ drop_one (map reversed whitespace) EmptyString = None.
Proof. split; reflexivity. Qed.

Lemma reversed_involutive s : reversed (reversed s) = s.
Proof.
  unfold reversed.
  rewrite list_ascii_of_string_of_list_ascii, rev_involutive.
  apply string_of_list_ascii_of_string.
Qed.

Lemma reversed_decimal s :
  forallb is_decimal_char (list_ascii_of_string s) = true ->
  forallb is_decimal_char (list_ascii_of_string (reversed s)) = true.
Proof.
  intros H. unfold reversed. rewrite list_ascii_of_string_of_list_ascii.
  apply forallb_forall. intros c Hc. apply in_rev in Hc.
  exact (proj1 (forallb_forall _ _) H c Hc).
Qed.

Lemma strip_decimal s :
  forallb is_decimal_char (list_ascii_of_string s) = true -> strip s = s.
Proof.
  intros H.
  assert (Hl : lstrip s = s).
  { unfold lstrip. destruct s as [|c s']; [reflexivity|].
    cbn [String.length drop_all list_ascii_of_string forallb] in *.
    apply andb_true_iff in H. destruct H as [Hc _].
    destruct (decimal_char_facts c Hc) as (_ & -> & _). reflexivity. }
  unfold strip. rewrite Hl. unfold rstrip.
  pose proof (reversed_decimal s H) as Hr.
  destruct (reversed s) as [|c s'] eqn:E.
  - destruct (String.length s); cbn [drop_all];
      [|rewrite (proj2 drop_one_empty)]; rewrite <- E;
      apply reversed_involutive.
  - cbn [list_ascii_of_string forallb] in Hr.
    apply andb_true_iff in Hr. destruct Hr as [Hc _].
    destruct (decimal_char_facts c Hc) as (_ & _ & Hnone).
    destruct (String.length s); cbn [drop_all]; [|rewrite Hnone];
      rewrite <- E; apply reversed_involutive.
Qed.

Lemma py_len_decimal s :
  forallb is_decimal_char (list_ascii_of_string s) = true ->
  py_len s = String.length s.
Proof.
  induction s as [|c s IH]; cbn [list_ascii_of_string forallb py_len
                                 String.length]; [reflexivity|].
  intros H. apply andb_true_iff in H. destruct H as [Hc Hs].
  destruct (decimal_char_facts c Hc) as (-> & _). rewrite (IH Hs).
  reflexivity.
Qed.

(** * The verdicts of the audits *)

Lemma vote_violations_spec row :
  let ct := strip (Vote.ciphertext row) in
  (Nat.leb 10 (py_len ct) = true -> vote_violations row = [])
  /\ (Nat.leb 10 (py_len ct) = false ->
      exists reason,
        vote_violations row = [VoteViolation.mk (Vote.id row) ct reason]).
Proof.
  intros ct. unfold vote_violations. fold ct.
  destruct (existsb (String.eqb ct) ["0"; "1"; EmptyString]) eqn:Eplain.
  - assert (Hshort : Nat.leb 10 (py_len ct) = false).
    { cbn [existsb] in Eplain. rewrite orb_false_r in Eplain.
      apply orb_true_iff in Eplain.
      destruct Eplain as [E | E];
        [|apply orb_true_iff in E; destruct E as [E | E]];
        apply String.eqb_eq in E; rewrite E; reflexivity. }
    rewrite Hshort. split; [discriminate | eauto].
  - destruct (Nat.ltb_spec (py_len ct) 10) as [Hlt | Hge].
    + assert (Hshort : Nat.leb 10 (py_len ct) = false)
        by (apply Nat.leb_gt; exact Hlt).
      rewrite Hshort. split; [discriminate | eauto].
    + assert (Hlong : Nat.leb 10 (py_len ct) = true)
        by (apply Nat.leb_le; exact Hge).
      rewrite Hlong. split; [reflexivity | discriminate].
Qed.

Lemma vote_violations_rows rows :
  (Z.of_nat (List.length (flat_map vote_violations rows)) =? 0)
  = forallb (fun row => Nat.leb 10 (py_len (strip (Vote.ciphertext row))))
            rows
  /\ map VoteViolation.vote_id (flat_map vote_violations rows)
     = map Vote.id
         (filter (fun row =>
                    negb (Nat.leb 10 (py_len (strip (Vote.ciphertext row)))))
                 rows).
Proof.
  induction rows as [|row rows [IH1 IH2]]; [split; reflexivity|].
  cbn [flat_map forallb filter].
  destruct (vote_violations_spec row) as [Hlong Hshort].
  destruct (Nat.leb 10 (py_len (strip (Vote.ciphertext row)))).
  - rewrite (Hlong eq_refl). cbn [app andb negb]. split; assumption.
  - destruct (Hshort eq_refl) as (reason & ->).
    cbn [app andb negb map List.length VoteViolation.vote_id]. split.
    + apply Z.eqb_neq. lia.
    + f_equal. exact IH2.
Qed.

Section AuditVerdicts.

Variable sha256_hexdigest : string -> string.

Lemma init_db_does_nothing w :
  users (store w) <> [] -> init_db sha256_hexdigest w = (Returned tt, w).
Proof.
  intros Hrows. unfold init_db, begin.
  destruct (users (store w)); [contradiction | reflexivity].
Qed.

(** X21 ([check_votes_encrypted]).  On a database that has accounts, the
    check changes nothing, reports the number of stored votes, and
    passes exactly when every stored ciphertext, stripped of surrounding
    white space, is at least ten characters long: the test for a bare "0"
    or "1" only changes the reason given.  The violations are the votes
    that are too short, in the order of the table.  A ciphertext stored
    as the decimal spelling of an integer [c >= 0] is long enough exactly
    when [c >= 10^9]. *)
Theorem check_votes_encrypted_verdict w :
  users (store w) <> [] ->
  let rows := votes (core (store w)) in
  let long_enough row :=
    Nat.leb 10 (py_len (strip (Vote.ciphertext row))) in
  (exists violations,
     check_votes_encrypted sha256_hexdigest w
     = (Returned (VotesReport.mk "votes_encrypted"
                    (Z.of_nat (List.length rows)) violations
                    (forallb long_enough rows)),
        w)
     /\ map VoteViolation.vote_id violations
        = map Vote.id (filter (fun row => negb (long_enough row)) rows))
  /\ (forall row c,
        0 <= c -> Vote.ciphertext row = py_str c ->
        long_enough row = (10 ^ 9 <=? c)).
Proof.
  intros Hrows rows long_enough. subst rows long_enough. split.
  - exists (flat_map vote_violations (votes (core (store w)))).
    destruct (vote_violations_rows (votes (core (store w)))) as [H1 H2].
    split; [|exact H2].
    unfold check_votes_encrypted, and_then.
    rewrite (init_db_does_nothing w Hrows). unfold reading, ret.
    rewrite H1. reflexivity.
  - intros row c Hc E. rewrite E.
    rewrite (strip_decimal _ (py_str_decimal c)),
      (py_len_decimal _ (py_str_decimal c)).
    exact (py_str_length c Hc).
Qed.

Lemma serve_grows st r :
  users (serve sha256_hexdigest st r) = users st
  /\ (exists added,
        votes (core (serve sha256_hexdigest st r))
        = votes (core st) ++ added)
  /\ (exists added,
        photos (serve sha256_hexdigest st r) = photos st ++ added).
Proof.
  assert (Hsame : forall st',
            users st' = users st -> votes (core st') = votes (core st) ->
            photos st' = photos st ->
            users st' = users st
            /\ (exists added, votes (core st') = votes (core st) ++ added)
            /\ (exists added, photos st' = photos st ++ added)).
  { intros st' -> -> ->. split; [reflexivity|].
    split; exists []; rewrite app_nil_r; reflexivity. }
  destruct r as [payload | name nonce tag alg ct size key | q l c];
    cbn [serve].
  - split; [reflexivity|]. cbn [with_core core photos]. split.
    + destruct (send_vote_cases sha256_hexdigest (core st) payload)
        as [(_ & ->) | (question_id' & key_id' & _ & _ & _ & _ & ->)].
      * exists []. rewrite app_nil_r. reflexivity.
      * cbn [snd]. unfold committed_vote. cbn [votes]. eauto.
    + exists []. rewrite app_nil_r. reflexivity.
  - unfold record_photo_metadata, store_begin. split_columns;
      try (apply Hsame; reflexivity).
    cbn [photos core].
    destruct (existsb _ (photos st)); cbn [snd].
    + apply Hsame; reflexivity.
    + split; [reflexivity|]. split.
      * exists []. rewrite app_nil_r. reflexivity.
      * cbn [with_core photos]. eauto.
  - unfold create_question, store_begin. split_columns;
      try (apply Hsame; reflexivity).
    cbn [core].
    destruct (existsb _ (questions (core st))); cbn [snd];
      apply Hsame; reflexivity.
Qed.

Lemma fold_serve_grows requests st :
  users (fold_left (serve sha256_hexdigest) requests st) = users st
  /\ (exists added,
        votes (core (fold_left (serve sha256_hexdigest) requests st))
        = votes (core st) ++ added)
  /\ (exists added,
        photos (fold_left (serve sha256_hexdigest) requests st)
        = photos st ++ added).
Proof.
  revert st. induction requests as [|r requests IH]; intros st.
  - split; [reflexivity|]. split; exists []; rewrite app_nil_r; reflexivity.
  - cbn [fold_left].
    destruct (serve_grows st r) as (Hu & (v & Hv) & (p & Hp)).
    destruct (IH (serve sha256_hexdigest st r))
      as (Hu' & (v' & Hv') & (p' & Hp')).
    split; [congruence|]. split.
    + exists (v ++ v'). rewrite Hv', Hv, app_assoc. reflexivity.
    + exists (p ++ p'). rewrite Hp', Hp, app_assoc. reflexivity.
Qed.

(** X22 (the audits after any writes).  Take a database that has
    accounts and a well-formed audit table, and let any sequence of vote
    submissions, photo records and question creations run on it.
    Afterwards [check_hash_chain] passes, with no violation and
    [chain_length] = the number of audit entries; and the violations that
    [check_votes_encrypted] and [check_photos_encrypted] reported before
    are all reported again, in the same order and ahead of any new one:
    no request clears a violation. *)
Theorem audits_after_writers st requests pending :
  users st <> [] ->
  chain_wf (core st) ->
  let before := mkBackend st pending in
  let after :=
    mkBackend (fold_left (serve sha256_hexdigest) requests st) pending in
  check_hash_chain sha256_hexdigest after
  = (Returned
       (HashChainReport.mk "hash_chain_integrity"
          (Z.of_nat (List.length (logs (core (store after))))) [] true),
     after)
  /\ (exists total total' old new,
        check_votes_encrypted sha256_hexdigest before
        = (Returned (VotesReport.mk "votes_encrypted" total old
                       (Z.of_nat (List.length old) =? 0)),
           before)
        /\ check_votes_encrypted sha256_hexdigest after
           = (Returned (VotesReport.mk "votes_encrypted" total' (old ++ new)
                          (Z.of_nat (List.length (old ++ new)) =? 0)),
              after))
  /\ (exists total total' old new,
        check_photos_encrypted sha256_hexdigest before
        = (Returned (PhotosReport.mk "photos_encrypted" total old
                       (Z.of_nat (List.length old) =? 0)),
           before)
        /\ check_photos_encrypted sha256_hexdigest after
           = (Returned (PhotosReport.mk "photos_encrypted" total' (old ++ new)
                          (Z.of_nat (List.length (old ++ new)) =? 0)),
              after)).
Proof.
  intros Hrows Hwf before after.
  destruct (fold_serve_grows requests st) as (Hu & (v & Hv) & (p & Hp)).
  assert (Hafter : users (store after) <> [])
    by (subst after; cbn [store]; rewrite Hu; exact Hrows).
  assert (Hbefore : users (store before) <> []) by exact Hrows.
  split; [|split].
  - unfold check_hash_chain, and_then.
    rewrite (init_db_does_nothing after Hafter). unfold reading, ret.
    subst after. cbn [store].
    destruct (writers_chain_wf sha256_hexdigest st requests Hwf) as [Hwf' _].
    rewrite (verify_hash_chain_wf _ Hwf'). reflexivity.
  - exists (Z.of_nat (List.length (votes (core st)))),
      (Z.of_nat (List.length
                   (votes (core (fold_left (serve sha256_hexdigest)
                                           requests st))))),
      (flat_map vote_violations (votes (core st))),
      (flat_map vote_violations v).
    unfold check_votes_encrypted, and_then.
    rewrite (init_db_does_nothing before Hbefore),
      (init_db_does_nothing after Hafter).
    unfold reading, ret. subst before after. cbn [store].
    rewrite Hv, flat_map_app. split; reflexivity.
  - exists (Z.of_nat (List.length (photos st))),
      (Z.of_nat (List.length
                   (photos (fold_left (serve sha256_hexdigest) requests st)))),
      (flat_map photo_violations (photos st)),
      (flat_map photo_violations p).
    unfold check_photos_encrypted, and_then.
    rewrite (init_db_does_nothing before Hbefore),
      (init_db_does_nothing after Hafter).
    unfold reading, ret. subst before after. cbn [store].
    rewrite Hp, flat_map_app. split; reflexivity.
Qed.

End AuditVerdicts.

Lemma check_votes_encrypted_verdict_witness :
  (exists violations,
     check_votes_encrypted parity_digest staff_backend
     = (Returned (VotesReport.mk "votes_encrypted" 1 violations false),
        staff_backend)
     /\ map VoteViolation.vote_id violations = [1])
  /\ Nat.leb 10 (py_len (strip (py_str 1000000000))) = true
  /\ Nat.leb 10 (py_len (strip (py_str 999999999))) = false.
Proof.
  assert (Hrows : users (store staff_backend) <> []) by discriminate.
  destruct (check_votes_encrypted_verdict parity_digest staff_backend Hrows)
    as (Hrun & Hdecimal).
  split; [exact Hrun|]. split.
  - apply (Hdecimal (Vote.mk 2 "q-demo" "h" (py_str 1000000000) "key-v1")
                    1000000000);
      [lia | reflexivity].
  - apply (Hdecimal (Vote.mk 2 "q-demo" "h" (py_str 999999999) "key-v1")
                    999999999);
      [lia | reflexivity].
Defined.

Lemma audits_after_writers_witness :
  check_hash_chain parity_digest
    (mkBackend
       (fold_left (serve parity_digest)
          [ SendVote (VoteRequest.mk "q-demo" "bob" "agent-1" "5" "key-v1");
            RecordPhoto "photo-9" "bg==" "dA==" "PLAIN" "image/png" 10
                        "key-v1" ]
          (store staff_backend))
       [])
  = (Returned (HashChainReport.mk "hash_chain_integrity" 4 [] true),
     mkBackend
       (fold_left (serve parity_digest)
          [ SendVote (VoteRequest.mk "q-demo" "bob" "agent-1" "5" "key-v1");
            RecordPhoto "photo-9" "bg==" "dA==" "PLAIN" "image/png" 10
                        "key-v1" ]
          (store staff_backend))
       []).
Proof.
  assert (Hrows : users (store staff_backend) <> []) by discriminate.
  exact (proj1 (audits_after_writers parity_digest (store staff_backend)
                  [ SendVote (VoteRequest.mk "q-demo" "bob" "agent-1" "5"
                                             "key-v1");
                    RecordPhoto "photo-9" "bg==" "dA==" "PLAIN" "image/png"
                                10 "key-v1" ]
                  [] Hrows chain_wf_busy_db)).
Defined.

(** * From the votes cast to the tally *)

Lemma has_nul_py_str z : has_nul (py_str z) = false.
Proof.
  pose proof (py_str_decimal z) as H. unfold has_nul.
  induction (list_ascii_of_string (py_str z)) as [|c l IH];
    cbn [existsb forallb] in *; [reflexivity|].
  apply andb_true_iff in H. destruct H as [Hc Hl].
  rewrite (IH Hl), orb_false_r.
  destruct c as [[] [] [] [] [] [] [] []]; try reflexivity; discriminate Hc.
Qed.

Lemma aggregate_votes_stored p q pub priv db question_id key_id w mrs
    rejected r0 rest :
  Z.prime p -> Z.prime q -> p <> q ->
  generate_keypair p q = Ok (pub, priv) ->
  has_nul question_id = false -> has_nul key_id = false ->
  ciphertexts_for db question_id key_id <> [] ->
  Forall2 (stored_vote pub) (ciphertexts_for db question_id key_id) mrs ->
  tape w = rejected ++ r0 :: rest ->
  Forall (fun x => ~ admissible (PublicKey.n pub) x) rejected ->
  admissible (PublicKey.n pub) r0 ->
  exists agg w',
    aggregate_votes (pub, priv) db question_id key_id w
    = (Returned (AggregateResult.mk question_id key_id
                   (Z.of_nat (List.length mrs)) (Some agg)
                   (fold_right Z.add 0 (map fst mrs) mod (p * q))),
       w').
Proof.
  intros Hp Hq Hne Hgen Hnq Hnk Hrows Hst Htape Hrej Hr0.
  pose proof (generate_keypair_keys p q pub priv Hp Hq Hgen) as K.
  pose proof K as (Kn & _).
  pose proof (n_gt_1 p q Hp Hq) as Hn.
  rewrite (aggregate_votes_rows _ db _ _ w Hnq Hnk). cbv zeta.
  rewrite <- (Forall2_length Hst).
  destruct (ciphertexts_for db question_id key_id)
    as [|row rows'] eqn:Erows; [contradiction|].
  unfold bindM at 1. rewrite call_encrypt_eq.
  rewrite encrypt_in_range by (rewrite Kn; lia).
  rewrite Htape, (sample_r_skips _ _ _ _ Hrej Hr0). cbn [fst snd of_result].
  unfold bindM at 1.
  rewrite (fold_rows_stored pub _ mrs ltac:(rewrite Kn; lia) Hst).
  cbn [tape calls].
  unfold bindM at 1. rewrite call_decrypt_eq. cbn [tape calls].
  set (agg := fold_add pub (ciphertext_of pub 0 r0)
                (map (fun mr => ciphertext_of pub (fst mr) (snd mr)) mrs)).
  assert (He : encrypts (p * q) (0 + fold_right Z.add 0 (map fst mrs)) agg).
  { apply (fold_add_encrypts p q pub priv Hp Hq K _ mrs Hst).
    apply (ciphertext_of_encrypts p q pub priv Hp Hq K);
      [rewrite Kn; lia | exact Hr0]. }
  rewrite (decrypt_encrypts p q pub priv Hp Hq K Hne _ agg He).
  cbn [of_result].
  rewrite Z.add_0_l. unfold retM. eauto.
Qed.

Section Tally.

Variable sha256_hexdigest : string -> string.

(** What one request, within the length limits of [VoteRequest], adds to
    the ciphertexts stored for a pair whose question is active. *)
Lemma ciphertexts_for_send_vote db payload question_id key_id :
  has_active_question db question_id = true ->
  within_limits payload = true ->
  (((VoteRequest.question_id payload =? question_id)
    && (VoteRequest.key_id payload =? key_id))%string = true ->
   holds_nul payload = false) ->
  ciphertexts_for (snd (send_vote sha256_hexdigest db payload))
    question_id key_id
  = ciphertexts_for db question_id key_id
    ++ (if ((VoteRequest.question_id payload =? question_id)
            && (VoteRequest.key_id payload =? key_id))%string
        then [VoteRequest.ciphertext payload]
        else []).
Proof.
  intros Hq Hlim Hpair.
  unfold within_limits in Hlim. apply andb_true_iff in Hlim.
  destruct Hlim as [Hlq Hlk].
  apply Nat.leb_le in Hlq. apply Nat.leb_le in Hlk.
  destruct (send_vote_cases sha256_hexdigest db payload)
    as [(Hno & ->) | (question_id' & key_id' & _ & Hvq & _ & Hvk & ->)].
  - destruct ((VoteRequest.question_id payload =? question_id)
              && (VoteRequest.key_id payload =? key_id))%string eqn:E;
      [|rewrite app_nil_r; reflexivity].
    exfalso. specialize (Hpair eq_refl).
    apply andb_true_iff in E. destruct E as [Eq _].
    apply String.eqb_eq in Eq.
    unfold holds_nul in Hpair. apply orb_false_iff in Hpair.
    destruct Hpair as [Hpair Hnk]. apply orb_false_iff in Hpair.
    destruct Hpair as [Hnq Hnc].
    assert (Hst : storable payload = true).
    { unfold storable, fits. rewrite Hnq, Hnc, Hnk. cbn [negb andb].
      apply Nat.leb_le in Hlq. apply Nat.leb_le in Hlk.
      rewrite Hlq, Hlk. reflexivity. }
    rewrite <- Eq in Hq.
    rewrite (send_vote_stored sha256_hexdigest db payload Hq Hst) in Hno.
    exact (Hno _ eq_refl).
  - cbn [snd].
    pose proof (varchar_short _ _ _ Hlq Hvq) as ->.
    pose proof (varchar_short _ _ _ Hlk Hvk) as ->.
    apply ciphertexts_for_committed.
Qed.

Lemma ciphertexts_for_send_votes payloads db question_id key_id :
  has_active_question db question_id = true ->
  Forall (fun payload => within_limits payload = true) payloads ->
  Forall (fun payload => holds_nul payload = false)
         (cast_for question_id key_id payloads) ->
  ciphertexts_for (send_votes sha256_hexdigest db payloads)
    question_id key_id
  = ciphertexts_for db question_id key_id
    ++ map VoteRequest.ciphertext (cast_for question_id key_id payloads).
Proof.
  revert db. induction payloads as [|payload payloads IH];
    intros db Hq Hlim Hcast.
  - cbn. rewrite app_nil_r. reflexivity.
  - unfold send_votes in *. cbn [fold_left].
    pose proof (Forall_inv Hlim) as Hl. apply Forall_inv_tail in Hlim.
    assert (Hqs : questions (snd (send_vote sha256_hexdigest db payload))
                  = questions db).
    { destruct (send_vote_cases sha256_hexdigest db payload)
        as [(_ & ->) | (question_id' & key_id' & _ & _ & _ & _ & ->)];
        reflexivity. }
    unfold cast_for in *. cbn [filter] in *.
    rewrite IH.
    + rewrite (ciphertexts_for_send_vote db payload question_id key_id Hq Hl).
      * rewrite <- app_assoc. f_equal.
        destruct ((VoteRequest.question_id payload =? question_id)
                  && (VoteRequest.key_id payload =? key_id))%string;
          reflexivity.
      * intros E. rewrite E in Hcast. exact (Forall_inv Hcast).
    + unfold has_active_question in *. rewrite Hqs. exact Hq.
    + exact Hlim.
    + destruct ((VoteRequest.question_id payload =? question_id)
                && (VoteRequest.key_id payload =? key_id))%string;
        [exact (Forall_inv_tail Hcast) | exact Hcast].
Qed.

Lemma tally_after_send_votes p q pub priv db payloads question_id key_id
    stored cast w rejected r0 rest :
  Z.prime p -> Z.prime q -> p <> q ->
  generate_keypair p q = Ok (pub, priv) ->
  has_active_question db question_id = true ->
  fits 64 question_id = true ->
  fits 64 key_id = true ->
  Forall (fun payload => within_limits payload = true) payloads ->
  Forall2 (stored_vote pub) (ciphertexts_for db question_id key_id) stored ->
  Forall2 (stored_vote pub)
          (map VoteRequest.ciphertext (cast_for question_id key_id payloads))
          cast ->
  tape w = rejected ++ r0 :: rest ->
  Forall (fun x => ~ admissible (PublicKey.n pub) x) rejected ->
  admissible (PublicKey.n pub) r0 ->
  exists agg w',
    aggregate_votes (pub, priv) (send_votes sha256_hexdigest db payloads)
      question_id key_id w
    = (Returned
         (AggregateResult.mk question_id key_id
            (Z.of_nat (List.length stored + List.length cast)) agg
            ((fold_right Z.add 0 (map fst stored)
              + fold_right Z.add 0 (map fst cast)) mod PublicKey.n pub)),
       w').
Proof.
  intros Hp Hq Hne Hgen Hactive Hfq Hfk Hlim Hstored Hcast Htape Hrej Hr0.
  pose proof (generate_keypair_keys p q pub priv Hp Hq Hgen) as (Kn & _).
  pose proof (n_gt_1 p q Hp Hq) as Hn.
  pose proof (fits_no_nul _ _ Hfq) as Hnq.
  pose proof (fits_no_nul _ _ Hfk) as Hnk.
  assert (Hnul : Forall (fun payload => holds_nul payload = false)
                        (cast_for question_id key_id payloads)).
  { clear - Hcast Hnq Hnk. unfold cast_for in *.
    revert cast Hcast. induction payloads as [|payload payloads IH];
      intros cast Hcast; cbn [filter] in *; [constructor|].
    destruct ((VoteRequest.question_id payload =? question_id)
              && (VoteRequest.key_id payload =? key_id))%string eqn:E;
      [|exact (IH _ Hcast)].
    cbn [map] in Hcast.
    inversion Hcast as [|c mr cs mrs Hc Hcs]; subst.
    constructor; [|exact (IH _ Hcs)].
    apply andb_true_iff in E. destruct E as [Eq Ek].
    apply String.eqb_eq in Eq. apply String.eqb_eq in Ek.
    destruct Hc as (Hc & _). unfold holds_nul.
    rewrite Eq, Ek, Hnq, Hnk, Hc, has_nul_py_str. reflexivity. }
  pose proof (ciphertexts_for_send_votes payloads db question_id key_id
                Hactive Hlim Hnul) as Hrows.
  assert (Hall : Forall2 (stored_vote pub)
                   (ciphertexts_for
                      (send_votes sha256_hexdigest db payloads) question_id
                      key_id)
                   (stored ++ cast)).
  { rewrite Hrows. apply Forall2_app; assumption. }
  assert (Hsum : fold_right Z.add 0 (map fst (stored ++ cast))
                 = fold_right Z.add 0 (map fst stored)
                   + fold_right Z.add 0 (map fst cast)).
  { rewrite map_app. clear. induction (map fst stored) as [|x xs IH];
      cbn [app fold_right]; [reflexivity | rewrite IH; ring]. }
  destruct (ciphertexts_for (send_votes sha256_hexdigest db payloads)
              question_id key_id) as [|row rows] eqn:Erows.
  - apply Forall2_length in Hall. rewrite length_app in Hall.
    destruct stored; [|discriminate]. destruct cast; [|discriminate].
    cbn [List.length Nat.add map fold_right Z.of_nat].
    rewrite (aggregate_votes_rows _ _ _ _ w Hnq Hnk). cbv zeta.
    rewrite Erows. rewrite Z.add_0_l, Z.mod_0_l by lia.
    eexists. eexists. reflexivity.
  - destruct (aggregate_votes_stored p q pub priv
                (send_votes sha256_hexdigest db payloads) question_id key_id w
                (stored ++ cast) rejected r0 rest Hp Hq Hne Hgen Hnq Hnk)
      as (agg & w' & Hrun);
      [ rewrite Erows; discriminate | rewrite Erows; exact Hall
      | exact Htape | exact Hrej | exact Hr0 | ].
    rewrite Hrun, length_app, Hsum, Kn. eauto.
Qed.

(** X20 (from the votes cast to the tally).  Let the key pair come from
    two distinct primes, let the question be active, let [question_id] and
    [key_id] be values that their [String(64)] columns store as they are,
    and let every vote stored for the pair, as well as every vote sent for
    it afterwards, carry the decimal spelling of an encryption of some
    plaintext in range.  After any sequence of [POST /votes/send] within
    the length limits of [VoteRequest], on this question or on others,
    accepted or refused, [GET /votes/aggregate] for the pair answers with
    [count] = the number of votes stored before plus the number sent for
    the pair, and [total] = the sum of all their plaintexts modulo [n]. *)
Theorem tally_of_votes_cast p q pub priv db payloads question_id key_id
    stored cast w rejected r0 rest :
  Z.prime p -> Z.prime q -> p <> q ->
  generate_keypair p q = Ok (pub, priv) ->
  has_active_question db question_id = true ->
  fits 64 question_id = true ->
  fits 64 key_id = true ->
  Forall (fun payload => within_limits payload = true) payloads ->
  Forall2 (stored_vote pub) (ciphertexts_for db question_id key_id) stored ->
  Forall2 (stored_vote pub)
          (map VoteRequest.ciphertext (cast_for question_id key_id payloads))
          cast ->
  tape w = rejected ++ r0 :: rest ->
  Forall (fun x => ~ admissible (PublicKey.n pub) x) rejected ->
  admissible (PublicKey.n pub) r0 ->
  exists agg w',
    aggregate_votes (pub, priv) (send_votes sha256_hexdigest db payloads)
      question_id key_id w
    = (Returned
         (AggregateResult.mk question_id key_id
            (Z.of_nat (List.length stored + List.length cast)) agg
            ((fold_right Z.add 0 (map fst stored)
              + fold_right Z.add 0 (map fst cast)) mod PublicKey.n pub)),
       w').
Proof.
  exact (tally_after_send_votes p q pub priv db payloads question_id key_id
           stored cast w rejected r0 rest).
Qed.

End Tally.

Lemma tally_of_votes_cast_witness :
  exists agg w',
    aggregate_votes (small_pub, small_priv)
      (send_votes (fun v => "sha256:" ++ v)%string three_votes_db
         [ VoteRequest.mk "q-demo" "dave" "agent-1"
             (py_str (ciphertext_of small_pub 1 4)) "key-v1";
           VoteRequest.mk "q-other" "dave" "agent-1"
             (py_str (ciphertext_of small_pub 1 6)) "key-v1";
           VoteRequest.mk "q-demo" "erin" "agent-1"
             (String Ascii.zero "1") "key-v2";
           VoteRequest.mk "q-none" "dave" "agent-1" "1" "key-v1" ])
      "q-demo" "key-v1" (mkWorld [0; 5; 8; 9] [])
    = (Returned (AggregateResult.mk "q-demo" "key-v1" 4 agg 3), w').
Proof.
  apply (tally_of_votes_cast (fun v => "sha256:" ++ v)%string 5 7 small_pub
           small_priv three_votes_db
           [ VoteRequest.mk "q-demo" "dave" "agent-1"
               (py_str (ciphertext_of small_pub 1 4)) "key-v1";
             VoteRequest.mk "q-other" "dave" "agent-1"
               (py_str (ciphertext_of small_pub 1 6)) "key-v1";
             VoteRequest.mk "q-demo" "erin" "agent-1"
               (String Ascii.zero "1") "key-v2";
             VoteRequest.mk "q-none" "dave" "agent-1" "1" "key-v1" ]
           "q-demo" "key-v1" [(1, 2); (1, 3); (0, 11)] [(1, 4)]
           (mkWorld [0; 5; 8; 9] []) [0; 5] 8 [9]
           prime_5 prime_7 ltac:(lia) eq_refl eq_refl eq_refl eq_refl).
  - repeat constructor.
  - repeat constructor; cbn; lia.
  - repeat constructor; cbn; lia.
  - reflexivity.
  - repeat constructor; unfold admissible; cbn; intros [? ?]; lia.
  - split; [cbn; lia | reflexivity].
Defined.

(** * One vote through the three endpoints *)

Section VoteThroughTheEndpoints.

Variable sha256_hexdigest : string -> string.


End VoteThroughTheEndpoints.


(** * Every reachable set of accounts is sound *)

Lemma isascii_app a b : isascii (a ++ b) = isascii a && isascii b.
Proof.
  unfold isascii.
  induction a as [|c a IH]; cbn [String.append list_ascii_of_string forallb];
    [reflexivity|].
  rewrite IH, andb_assoc. reflexivity.
Qed.

Lemma varchar_kept width value stored :
  varchar width value = Some stored ->
  has_nul stored = false
  /\ (isascii value = true -> isascii stored = true).
Proof.
  unfold varchar. destruct (has_nul value) eqn:Hnul; [discriminate|].
  destruct (split_chars width value) as [kept excess] eqn:Es.
  destruct (only_spaces excess); [|discriminate].
  intros E. injection E as <-.
  apply split_chars_app in Es. subst value.
  rewrite has_nul_app in Hnul. apply orb_false_iff in Hnul.
  split; [apply Hnul|].
  rewrite isascii_app. intros H. apply andb_true_iff in H. apply H.
Qed.

Lemma NoDup_map_filter {A K : Type} (key : A -> K) (f : A -> bool) l :
  NoDup (map key l) -> NoDup (map key (filter f l)).
Proof.
  induction l as [|a l IH]; intros H; [constructor|].
  cbn [map] in H. inversion H as [|? ? Ha Hl]; subst.
  cbn [filter]. destruct (f a); [|exact (IH Hl)].
  cbn [map]. constructor; [|exact (IH Hl)].
  intros Hin. apply Ha. apply in_map_iff in Hin.
  destruct Hin as (x & Hx & Hin). apply filter_In in Hin.
  rewrite <- Hx. apply in_map. apply Hin.
Qed.

Lemma accounts_sound_seq st st' :
  accounts_sound st ->
  users st' = users st ->
  users_id_seq st <= users_id_seq st' ->
  accounts_sound st'.
Proof.
  intros ((Hn & Hi & Hb) & Hs) Hu Hseq.
  unfold accounts_sound, users_wf. rewrite Hu.
  repeat split; try assumption.
  eapply Forall_impl; [|exact Hb]. cbn beta. intros. lia.
Qed.

Lemma insert_user_post username password_hash password_salt role full_name
    conn :
  accounts_sound conn ->
  isascii password_hash = true ->
  accounts_sound
    (snd (insert_user username password_hash password_salt role full_name
                      conn))
  /\ users_id_seq conn
     <= users_id_seq
          (snd (insert_user username password_hash password_salt role
                            full_name conn)).
Proof.
  intros Hsound Hascii. unfold insert_user.
  destruct (varchar 64 username) as [username'|] eqn:Eu;
    [|cbn [snd]; split; [exact Hsound | lia]].
  destruct (varchar 128 password_hash) as [password_hash'|] eqn:Eh;
    [|cbn [snd]; split; [exact Hsound | lia]].
  destruct (varchar 64 password_salt) as [password_salt'|];
    [|cbn [snd]; split; [exact Hsound | lia]].
  destruct (varchar 20 role) as [role'|]; [|cbn [snd]; split; [exact Hsound | lia]].
  destruct (varchar 128 full_name) as [full_name'|];
    [|cbn [snd]; split; [exact Hsound | lia]].
  cbn [users].
  destruct (existsb _ (users conn)) eqn:Efresh; cbn [snd users_id_seq].
  - split; [|lia]. apply (accounts_sound_seq conn); [exact Hsound | | cbn; lia].
    reflexivity.
  - split; [|unfold with_users; cbn [users_id_seq]; lia].
    destruct Hsound as ((Hn & Hi & Hb) & Hs).
    unfold accounts_sound, users_wf, with_users. cbn [users users_id_seq].
    rewrite !map_app. cbn [map User.username User.id].
    repeat split.
    + apply NoDup_snoc; [exact Hn|].
      exact (existsb_false_not_in User.username _ _ Efresh).
    + apply NoDup_snoc; [exact Hi|]. intros Hin.
      apply in_map_iff in Hin. destruct Hin as (row & Hrow & Hin).
      pose proof (proj1 (Forall_forall _ _) Hb row Hin) as Hle.
      cbn beta in Hle. lia.
    + apply Forall_app. split.
      * eapply Forall_impl; [|exact Hb]. cbn beta. intros. lia.
      * constructor; [cbn; lia | constructor].
    + apply Forall_app. split; [exact Hs|].
      constructor; [|constructor]. cbn [User.username User.password_hash].
      split; [apply (varchar_kept _ _ _ Eu)|].
      apply (varchar_kept _ _ _ Eh). exact Hascii.
Qed.

Lemma store_begin_post {A : Type} (st : Store)
    (block : Store -> outcome A * Store) :
  accounts_sound st ->
  accounts_sound (snd (block st))
  /\ users_id_seq st <= users_id_seq (snd (block st)) ->
  accounts_sound (snd (store_begin st block))
  /\ users_id_seq st <= users_id_seq (snd (store_begin st block)).
Proof.
  intros Hsound [Hblock Hseq]. unfold store_begin.
  destruct (block st) as [[a|e|column| |message|] st']; cbn [snd] in *;
    try (split; [exact Hblock | exact Hseq]);
    (split; [|exact Hseq]);
    apply (accounts_sound_seq st); try assumption; reflexivity.
Qed.

Lemma create_user_post st username password_hash password_salt role
    full_name :
  accounts_sound st ->
  isascii password_hash = true ->
  accounts_sound
    (snd (create_user st username password_hash password_salt role full_name))
  /\ users_id_seq st
     <= users_id_seq
          (snd (create_user st username password_hash password_salt role
                            full_name)).
Proof.
  intros Hsound Hascii. unfold create_user.
  apply store_begin_post; [exact Hsound|].
  pose proof (insert_user_post username password_hash password_salt role
                full_name st Hsound Hascii) as H.
  destruct (insert_user username password_hash password_salt role full_name
                        st) as [inserted conn].
  exact H.
Qed.

Lemma optional_varchar_kept width value stored h :
  optional_varchar width value = Some stored ->
  stored = Some h ->
  exists given, value = Some given
                /\ (isascii given = true -> isascii h = true).
Proof.
  destruct value as [given|]; cbn [optional_varchar].
  - destruct (varchar width given) as [kept|] eqn:E; cbn [option_map];
      [|discriminate].
    intros E1 E2. exists given. split; [reflexivity|].
    assert (kept = h) by congruence. subst kept.
    apply (varchar_kept _ _ _ E).
  - intros E1 E2. congruence.
Qed.

Lemma update_user_post st user_id kwargs :
  accounts_sound st ->
  (forall h, UserUpdates.password_hash kwargs = Some h -> isascii h = true) ->
  accounts_sound (snd (update_user st user_id kwargs))
  /\ users_id_seq st <= users_id_seq (snd (update_user st user_id kwargs)).
Proof.
  intros Hsound Hascii.
  assert (Hblock :
    accounts_sound
      (snd (store_begin st (fun conn =>
         match integer user_id,
               optional_varchar 20 (UserUpdates.role kwargs),
               optional_varchar 128 (UserUpdates.full_name kwargs),
               optional_varchar 128 (UserUpdates.password_hash kwargs),
               optional_varchar 64 (UserUpdates.password_salt kwargs)
         with
         | Some _, Some role, Some full_name, Some password_hash,
           Some password_salt =>
             let updates :=
               UserUpdates.mk role full_name (UserUpdates.is_active kwargs)
                              password_hash password_salt in
             let conn :=
               with_users conn (map (update_row user_id updates) (users conn))
             in
             (Returned
                (option_map updated_columns
                   (find (fun row => User.id row =? user_id) (users conn))),
              conn)
         | _, _, _, _, _ => (DBAPIError, conn)
         end)))
    /\ users_id_seq st
       <= users_id_seq
            (snd (store_begin st (fun conn =>
               match integer user_id,
                     optional_varchar 20 (UserUpdates.role kwargs),
                     optional_varchar 128 (UserUpdates.full_name kwargs),
                     optional_varchar 128 (UserUpdates.password_hash kwargs),
                     optional_varchar 64 (UserUpdates.password_salt kwargs)
               with
               | Some _, Some role, Some full_name, Some password_hash,
                 Some password_salt =>
                   let updates :=
                     UserUpdates.mk role full_name
                       (UserUpdates.is_active kwargs) password_hash
                       password_salt in
                   let conn :=
                     with_users conn
                       (map (update_row user_id updates) (users conn)) in
                   (Returned
                      (option_map updated_columns
                         (find (fun row => User.id row =? user_id)
                               (users conn))),
                    conn)
               | _, _, _, _, _ => (DBAPIError, conn)
               end)))).
  { apply store_begin_post; [exact Hsound|].
    destruct (integer user_id); [|cbn [snd]; split; [exact Hsound | lia]].
    destruct (optional_varchar 20 (UserUpdates.role kwargs)) as [role|];
      [|cbn [snd]; split; [exact Hsound | lia]].
    destruct (optional_varchar 128 (UserUpdates.full_name kwargs))
      as [full_name|]; [|cbn [snd]; split; [exact Hsound | lia]].
    destruct (optional_varchar 128 (UserUpdates.password_hash kwargs))
      as [password_hash|] eqn:Eh; [|cbn [snd]; split; [exact Hsound | lia]].
    destruct (optional_varchar 64 (UserUpdates.password_salt kwargs))
      as [password_salt|]; [|cbn [snd]; split; [exact Hsound | lia]].
    cbv zeta. cbn [snd with_users users_id_seq]. split; [|lia].
    destruct Hsound as ((Hn & Hi & Hb) & Hs).
    unfold accounts_sound, users_wf. cbn [users users_id_seq].
    set (updates := UserUpdates.mk role full_name
                      (UserUpdates.is_active kwargs) password_hash
                      password_salt).
    assert (Hnames : map User.username (map (update_row user_id updates)
                                            (users st))
                     = map User.username (users st)).
    { rewrite map_map. apply map_ext. intros row.
      apply update_row_username. }
    assert (Hids : map User.id (map (update_row user_id updates) (users st))
                   = map User.id (users st)).
    { rewrite map_map. apply map_ext. intros row. apply update_row_id. }
    unfold with_users. cbn [users users_id_seq].
    rewrite Hnames, Hids. repeat split; try assumption.
    - apply Forall_forall. intros row Hin. apply in_map_iff in Hin.
      destruct Hin as (old & <- & Hin). rewrite update_row_id.
      exact (proj1 (Forall_forall _ _) Hb old Hin).
    - apply Forall_forall. intros row Hin. apply in_map_iff in Hin.
      destruct Hin as (old & <- & Hin).
      destruct (proj1 (Forall_forall _ _) Hs old Hin) as [Hnul Hold].
      rewrite update_row_username. split; [exact Hnul|].
      unfold update_row. destruct (User.id old =? user_id); [|exact Hold].
      cbn [User.password_hash updates UserUpdates.password_hash].
      destruct password_hash as [h|]; cbn [or_else]; [|exact Hold].
      destruct (optional_varchar_kept _ _ _ h Eh eq_refl)
        as (given & Hgiven & Hkept).
      apply Hkept. apply Hascii. exact Hgiven. }
  unfold update_user.
  destruct kwargs as [[?|] [?|] [?|] [?|] [?|]]; try exact Hblock.
  cbn [snd]. split; [exact Hsound | lia].
Qed.

Lemma delete_user_post st user_id :
  accounts_sound st ->
  accounts_sound (snd (delete_user st user_id))
  /\ users_id_seq st <= users_id_seq (snd (delete_user st user_id)).
Proof.
  intros Hsound. unfold delete_user.
  apply store_begin_post; [exact Hsound|].
  destruct (integer user_id); [|cbn [snd]; split; [exact Hsound | lia]].
  cbn [snd with_users users_id_seq]. split; [|lia].
  destruct Hsound as ((Hn & Hi & Hb) & Hs).
  unfold accounts_sound, users_wf. cbn [users users_id_seq].
  repeat split.
  - apply NoDup_map_filter. exact Hn.
  - apply NoDup_map_filter. exact Hi.
  - apply Forall_forall. intros row Hin. apply filter_In in Hin.
    exact (proj1 (Forall_forall _ _) Hb row (proj1 Hin)).
  - apply Forall_forall. intros row Hin. apply filter_In in Hin.
    exact (proj1 (Forall_forall _ _) Hs row (proj1 Hin)).
Qed.

(** ** Rules for [post] *)

Lemma post_ret {A : Type} (a : A) (Q : A -> Prop) : Q a -> post (ret a) Q.
Proof.
  intros Ha w Hsound. cbn [ret fst snd]. split; [exact Hsound|].
  split; [lia|]. intros a' E. injection E as <-. exact Ha.
Qed.

Lemma post_raise {A : Type} (e : exn) (Q : A -> Prop) : post (raise e) Q.
Proof.
  intros w Hsound. cbn [raise fst snd]. split; [exact Hsound|].
  split; [lia|]. intros a E. discriminate E.
Qed.

Lemma post_bind {A B : Type} (c : Req A) (k : A -> Req B) (Q : A -> Prop)
    (R : B -> Prop) :
  post c Q -> (forall a, Q a -> post (k a) R) -> post (and_then c k) R.
Proof.
  intros Hc Hk w Hsound. unfold and_then.
  destruct (Hc w Hsound) as (Hsound' & Hseq & Hq).
  destruct (c w) as [[a|e|column| |message|] w']; cbn [fst snd] in *;
    try (split; [exact Hsound' | split; [exact Hseq | intros ? E;
                                                      discriminate E]]).
  destruct (Hk a (Hq a eq_refl) w' Hsound') as (Hsound'' & Hseq' & Hr).
  split; [exact Hsound''|]. split; [lia | exact Hr].
Qed.

Lemma post_reading {A : Type} (f : Store -> outcome A) (Q : A -> Prop) :
  (forall st a, f st = Returned a -> Q a) -> post (reading f) Q.
Proof.
  intros Hf w Hsound. cbn [reading fst snd]. split; [exact Hsound|].
  split; [lia|]. intros a E. exact (Hf _ _ E).
Qed.

Lemma post_writing {A : Type} (f : Store -> outcome A * Store) :
  (forall st, accounts_sound st ->
              accounts_sound (snd (f st))
              /\ users_id_seq st <= users_id_seq (snd (f st))) ->
  post (writing f) (fun _ => True).
Proof.
  intros Hf w Hsound. unfold writing.
  destruct (Hf (store w) Hsound) as [Hsound' Hseq].
  destruct (f (store w)) as [r st']. cbn [fst snd store] in *.
  split; [exact Hsound'|]. split; [exact Hseq | auto].
Qed.

Lemma post_begin {A : Type} (block : Req A) (Q : A -> Prop) :
  post block Q -> post (begin block) Q.
Proof.
  intros Hblock w Hsound. unfold begin.
  destruct (Hblock w Hsound) as (Hsound' & Hseq & Hq).
  destruct (block w) as [[a|e|column| |message|] w']; cbn [fst snd] in *;
    try (split; [exact Hsound' | split; [exact Hseq | exact Hq]]);
    (split; [|split; [exact Hseq | intros ? E; discriminate E]]);
    apply (accounts_sound_seq (store w)); try assumption; reflexivity.
Qed.

Lemma post_require_role roles user :
  post (require_role roles user) (fun _ => True).
Proof.
  unfold require_role. destruct (negb _);
    [apply post_raise | apply post_ret; exact I].
Qed.

Lemma post_token_hex nbytes : post (token_hex nbytes) (fun _ => True).
Proof.
  intros w Hsound. unfold token_hex.
  destruct (nbytes <? 0); cbn [fst snd];
    [split; [exact Hsound | split; [lia | auto]]|].
  destruct (salts w); cbn [fst snd store];
    split; try exact Hsound; split; try lia; auto.
Qed.

Section SoundAccounts.

Variable sha256_hexdigest : string -> string.
Variable create_token : Z -> Z -> string -> string -> string.
Variable JWT_EXPIRE_MINUTES : Z.

Hypothesis sha256_hex :
  forall value, hexdigits 64 (sha256_hexdigest value) = true.

Lemma post_hash_password password salt :
  post (hash_password sha256_hexdigest password salt)
       (fun hashed => isascii (fst hashed) = true).
Proof.
  unfold hash_password.
  apply (post_bind _ _ (fun _ => True)).
  - destruct salt; [apply post_ret; exact I | apply post_token_hex].
  - intros drawn _. apply post_ret. cbn [fst].
    exact (hexdigits_isascii _ _ (sha256_hex _)).
Qed.

Lemma post_login now payload :
  post (login sha256_hexdigest create_token JWT_EXPIRE_MINUTES now payload)
       (fun _ => True).
Proof.
  unfold login. apply (post_bind _ _ (fun _ => True)).
  - apply post_reading. auto.
  - intros [user|] _; [|apply post_raise].
    apply (post_bind _ _ (fun _ => True)).
    + unfold verify_password. apply (post_bind _ _ (fun _ => True)).
      * intros w Hsound.
        destruct (post_hash_password (LoginRequest.password payload)
                    (Some (User.password_salt user)) w Hsound)
          as (H1 & H2 & _).
        split; [exact H1|]. split; [exact H2 | auto].
      * intros hashed _ w Hsound. cbn [fst snd].
        split; [exact Hsound|]. split; [lia | auto].
    + intros verified _. destruct (negb verified); [apply post_raise|].
      destruct (negb (User.is_active user));
        [apply post_raise | apply post_ret; exact I].
Qed.

Lemma post_register user payload :
  post (register sha256_hexdigest user payload) (fun _ => True).
Proof.
  unfold register. apply (post_bind _ _ (fun _ => True));
    [apply post_require_role|].
  intros admin _. apply (post_bind _ _ (fun _ => True));
    [apply post_reading; auto|].
  intros [existing|] _; [apply post_raise|].
  apply (post_bind _ _ (fun hashed => isascii (fst hashed) = true));
    [apply post_hash_password|].
  intros [pw_hash salt] Hascii. cbn [fst] in Hascii.
  apply (post_bind _ _ (fun _ => True)).
  - apply post_writing. intros st Hsound.
    apply create_user_post; assumption.
  - intros created _. apply post_ret. exact I.
Qed.

Lemma post_admin_update_user user user_id payload :
  post (admin_update_user sha256_hexdigest user user_id payload)
       (fun _ => True).
Proof.
  unfold admin_update_user. apply (post_bind _ _ (fun _ => True));
    [apply post_require_role|].
  intros admin _.
  apply (post_bind _ _
           (fun hashed => forall h, option_map fst hashed = Some h ->
                                    isascii h = true)).
  - destruct (UpdateUserRequest.password payload) as [password|].
    + apply (post_bind _ _ (fun hashed => isascii (fst hashed) = true));
        [apply post_hash_password|].
      intros hashed Hascii. apply post_ret. cbn [option_map].
      intros h E. injection E as <-. exact Hascii.
    + apply post_ret. cbn [option_map]. discriminate.
  - intros hashed Hascii.
    set (kwargs := UserUpdates.mk (UpdateUserRequest.role payload)
                     (UpdateUserRequest.full_name payload)
                     (UpdateUserRequest.is_active payload)
                     (option_map fst hashed) (option_map snd hashed)).
    assert (Hbody :
      post (result <-- writing (fun st => update_user st user_id kwargs);;
            match result with
            | None => raise (HTTPException 404 "Utilisateur non trouvé")
            | Some row => ret (UserUpdateDone.mk "updated" row)
            end)
           (fun _ => True)).
    { apply (post_bind _ _ (fun _ => True)).
      - apply post_writing. intros st Hsound.
        apply update_user_post; [exact Hsound | exact Hascii].
      - intros [row|] _; [apply post_ret; exact I | apply post_raise]. }
    destruct (UpdateUserRequest.role payload),
      (UpdateUserRequest.full_name payload),
      (UpdateUserRequest.is_active payload),
      (option_map fst hashed), (option_map snd hashed);
      try exact Hbody.
    apply post_raise.
Qed.

Lemma post_admin_delete_user user user_id :
  post (admin_delete_user user user_id) (fun _ => True).
Proof.
  unfold admin_delete_user. apply (post_bind _ _ (fun _ => True));
    [apply post_require_role|].
  intros admin _.
  destruct (py_str user_id =? TokenPayload.sub admin)%string;
    [apply post_raise|].
  apply (post_bind _ _ (fun _ => True)).
  - apply post_writing. intros st Hsound. apply delete_user_post.
    exact Hsound.
  - intros deleted _. destruct (negb deleted);
      [apply post_raise | apply post_ret; exact I].
Qed.

Lemma post_init_db : post (init_db sha256_hexdigest) (fun _ => True).
Proof.
  unfold init_db. apply post_begin. intros w Hsound.
  destruct (users (store w)) eqn:Eu; [|apply post_ret; [exact I | exact Hsound]].
  revert w Hsound Eu.
  assert (Hseed :
    post (hashed <-- hash_password sha256_hexdigest "admin" None;;
          (let (pw_hash, salt) := hashed in
           _ <-- writing (insert_user "admin" pw_hash salt "admin"
                                      "Administrateur");;
           hashed2 <-- hash_password sha256_hexdigest "agent" None;;
           (let (pw_hash2, salt2) := hashed2 in
            _ <-- writing (insert_user "agent" pw_hash2 salt2 "agent"
                                       "Agent Terrain");;
            ret tt)))
         (fun _ => True)).
  { apply (post_bind _ _ (fun hashed => isascii (fst hashed) = true));
      [apply post_hash_password|].
    intros [pw_hash salt] Hascii. cbn [fst] in Hascii.
    apply (post_bind _ _ (fun _ => True)).
    - apply post_writing. intros st Hs. apply insert_user_post; assumption.
    - intros _ _.
      apply (post_bind _ _ (fun hashed => isascii (fst hashed) = true));
        [apply post_hash_password|].
      intros [pw_hash2 salt2] Hascii2. cbn [fst] in Hascii2.
      apply (post_bind _ _ (fun _ => True)).
      + apply post_writing. intros st Hs.
        apply insert_user_post; assumption.
      + intros _ _. apply post_ret. exact I. }
  intros w Hsound _. exact (Hseed w Hsound).
Qed.

Lemma serve_account_sound w r :
  accounts_sound (store w) ->
  accounts_sound
    (store (serve_account sha256_hexdigest create_token JWT_EXPIRE_MINUTES
                          w r)).
Proof.
  intros Hsound. destruct r as [now payload | user payload
                               | user user_id payload | user user_id | ];
    cbn [serve_account].
  - apply (post_login now payload w Hsound).
  - apply (post_register user payload w Hsound).
  - apply (post_admin_update_user user user_id payload w Hsound).
  - apply (post_admin_delete_user user user_id w Hsound).
  - apply (post_init_db w Hsound).
Qed.

(** X24 (every reachable set of accounts is sound).  Start with sound
    accounts: unique names and ids, no id beyond the sequence, no NUL in a
    stored name, every stored digest ASCII; an empty users table is so.
    After any sequence of logins, registrations, updates, deletions and
    runs of [init_db], by whomever and whatever their outcome, the
    accounts are sound again, so that in particular no [login] can fail
    with the [TypeError] of [compare_digest]. *)
Theorem accounts_stay_sound w requests :
  accounts_sound (store w) ->
  let w' :=
    fold_left (serve_account sha256_hexdigest create_token JWT_EXPIRE_MINUTES)
              requests w in
  accounts_sound (store w')
  /\ forall now payload message,
       fst (login sha256_hexdigest create_token JWT_EXPIRE_MINUTES now payload
                  w')
       <> TypeError message.
Proof.
  intros Hsound w'. subst w'.
  assert (Hsound' :
    accounts_sound
      (store (fold_left
                (serve_account sha256_hexdigest create_token
                               JWT_EXPIRE_MINUTES)
                requests w))).
  { revert w Hsound. induction requests as [|r requests IH]; intros w Hsound;
      [exact Hsound|].
    cbn [fold_left]. apply IH. apply serve_account_sound. exact Hsound. }
  split; [exact Hsound'|].
  set (w' := fold_left _ requests w) in *.
  intros now payload message.
  unfold login, and_then, reading, get_user_by_username.
  destruct (has_nul (LoginRequest.username payload)); [discriminate|].
  destruct (find _ (users (store w'))) as [row|] eqn:Efind;
    [|discriminate].
  apply find_some in Efind. destruct Efind as [Hin _].
  destruct Hsound' as (_ & Hs).
  destruct (proj1 (Forall_forall _ _) Hs row Hin) as [_ Hascii].
  rewrite (verify_password_eq sha256_hexdigest sha256_hex _ _ _ _ Hascii).
  destruct (sha256_hexdigest _ =? User.password_hash row)%string;
    cbn [negb]; [|discriminate].
  destruct (User.is_active row); discriminate.
Qed.

End SoundAccounts.

Lemma accounts_sound_staff_backend : accounts_sound (store staff_backend).
Proof.
  split; [exact users_wf_staff_backend|].
  repeat constructor.
Qed.

Lemma accounts_stay_sound_witness :
  accounts_sound
    (store (fold_left (serve_account parity_digest plain_token 480)
              [ Register admin_token
                  (RegisterRequest.mk "carol" "secret" "auditor" "Carol");
                Register admin_token
                  (RegisterRequest.mk "carol" "other" "agent" "Carol again");
                UpdateUser admin_token 2
                  (UpdateUserRequest.mk None None (Some true)
                                        (Some "changed!"));
                DeleteUser agent_token 1;
                DeleteUser admin_token 3;
                Login 2000 (LoginRequest.mk "agent" "changed!");
                InitDb ]
              staff_backend)).
Proof.
  exact (proj1 (accounts_stay_sound parity_digest plain_token 480
                  parity_digest_hex staff_backend _
                  accounts_sound_staff_backend)).
Defined.

(** * Uploading a photo *)



Section UploadFacts.

Variable sha256_hexdigest : string -> string.
Variable b64decode : string -> option string.
Variable bucket_name : string.


End UploadFacts.

